(** * Conflict detection engine of the knowledge-graph conflict detector

    A shallow embedding of the conflict-detection module: text
    normalisation, edit-distance similarity, fact extraction, the
    contradiction layers, the FAQ and pairwise grouping of [detectConflicts],
    and [getConflictSummary].  The module comes in two variants; this is the
    one with the contradiction engine, the category-aware choice of the text
    field and the name-similarity gate at 0.3.

    The code around it follows in modules of their own: the earlier variant
    of the detector ([Legacy]), the route that fetches the records page by
    page ([Route]), the input handlers of the page ([Page]) and the headings
    of the results component ([Results]).

    Conventions of the model.
    - A JavaScript string is a [string]: a sequence of code units, here the
      code units 0..255.  Character classes ([\w], [\s], [\d], [.]),
      [toLowerCase] and [trim] are the JavaScript ones restricted to that
      range.
    - [undefined] fields are [None]; truthiness of an optional string is
      "present and non-empty".
    - Numbers that the code compares ([nameSimilarity > 0.3], the word
      overlap) are quotients of two small naturals; they are kept as exact
      rationals in [Q].  The percentage shown in a description is rounded
      as the code rounds it, through the nearest doubles.
    - An insertion-ordered [Map] is an association list; a [Set] of which
      only the size or the membership is observed is a [gset].
    - The remote service of the route is a function from the offset of a
      page to the outcome of [fetch]; handlers that end in a state update
      return the update. *)

From Stdlib Require Import Ascii String QArith Qround Lia List DecimalString.
From stdpp Require Import base decidable list gmap strings.

#[local] Set Warnings "-clear-no-such-hyp".

Local Open Scope stdpp_scope.

(** ** Characters *)

Definition code (c : ascii) : N := N_of_ascii c.

Definition inRange (lo hi : N) (c : ascii) : bool :=
  (lo <=? code c)%N && (code c <=? hi)%N.

(** [\d] *)
Definition isDigit (c : ascii) : bool := inRange 48 57 c.

(** [\w], that is [[A-Za-z0-9_]] *)
Definition isWordChar (c : ascii) : bool :=
  inRange 48 57 c || inRange 65 90 c || (code c =? 95)%N || inRange 97 122 c.

(** [\s] (and the characters [trim] removes): TAB, LF, VT, FF, CR, space and
    the no-break space. *)
Definition isSpace (c : ascii) : bool :=
  inRange 9 13 c || (code c =? 32)%N || (code c =? 160)%N.

(** The complement of [.]: the line terminators. *)
Definition isLineTerminator (c : ascii) : bool :=
  (code c =? 10)%N || (code c =? 13)%N.

(** [toLowerCase] on one code unit: A-Z, and the capital letters of the
    upper half (all of 192..222 but the multiplication sign). *)
Definition lowerChar (c : ascii) : ascii :=
  if inRange 65 90 c || (inRange 192 222 c && negb (code c =? 215)%N)
  then ascii_of_N (code c + 32) else c.

(** [toUpperCase] on one code unit, as the [i] flag of a regular expression
    uses it to canonicalise: a-z, and 224..254 but the division sign.  (The
    sharp s, the micro sign and y-diaeresis have no capital in this range and
    are left alone; no two units become equal or unequal by that.) *)
Definition upperChar (c : ascii) : ascii :=
  if inRange 97 122 c || (inRange 224 254 c && negb (code c =? 247)%N)
  then ascii_of_N (code c - 32) else c.

(** ** String primitives *)

Definition chars (s : string) : list ascii := list_ascii_of_string s.
Definition str (l : list ascii) : string := string_of_list_ascii l.

Definition toLowerCase (l : list ascii) : list ascii := map lowerChar l.

Fixpoint trimStart (l : list ascii) : list ascii :=
  match l with
  | [] => []
  | c :: l' => if isSpace c then trimStart l' else l
  end.

Fixpoint trimEnd (l : list ascii) : list ascii :=
  match l with
  | [] => []
  | c :: l' =>
      match trimEnd l' with
      | [] => if isSpace c then [] else [c]
      | r => c :: r
      end
  end.

Definition trim (l : list ascii) : list ascii := trimEnd (trimStart l).

(** [.replace(/[^\w\s]/g, "")] *)
Definition removeNonWordNonSpace (l : list ascii) : list ascii :=
  List.filter (fun c => isWordChar c || isSpace c) l.

(** [.replace(/\s+/g, " ")]: every maximal run of white space becomes one
    space; [inRun] says that the previous character belonged to a run. *)
Fixpoint collapseSpaces (inRun : bool) (l : list ascii) : list ascii :=
  match l with
  | [] => []
  | c :: l' =>
      if isSpace c
      then if inRun then collapseSpaces true l'
           else " "%char :: collapseSpaces true l'
      else c :: collapseSpaces false l'
  end.

Definition normalizeChars (l : list ascii) : list ascii :=
  collapseSpaces false (removeNonWordNonSpace (trim (toLowerCase l))).

(** [normalizeString] *)
Definition normalizeString (s : string) : string :=
  str (normalizeChars (chars s)).

(** [normalizePhone]: [phone.replace(/[^\d]/g, "")] *)
Definition normalizePhone (phone : string) : string :=
  str (List.filter isDigit (chars phone)).

(** ** Similarity scoring *)

(** [Math.min(a, b, c)] *)
Definition min3 (a b c : nat) : nat := Nat.min (Nat.min a b) c.

(** [str1[i - 1] === str2[j - 1] ? 0 : 1] *)
Definition substCost (c1 c2 : ascii) : nat := if Ascii.eqb c1 c2 then 0 else 1.

(** The inner loop [for (i = 1; i <= len1; i++)] of row [j]: [s1] is what is
    left of [str1] from index [i - 1], [prev] is row [j - 1] from column
    [i - 1], and [left] is [matrix[j][i - 1]].  The result is row [j] from
    column [i] on. *)
Fixpoint fillRow (c2 : ascii) (s1 : list ascii) (prev : list nat) (left : nat)
  : list nat :=
  match s1, prev with
  | c1 :: s1', diag :: ((up :: _) as prev') =>
      let v := min3 (left + 1) (up + 1) (diag + substCost c1 c2) in
      v :: fillRow c2 s1' prev' v
  | _, _ => []
  end.

(** The outer loop [for (j = 1; j <= len2; j++)]: the rows [j], [j + 1], ...
    given row [j - 1]; [matrix[j][0] = j]. *)
Fixpoint fillMatrix (s1 s2 : list ascii) (j : nat) (prev : list nat)
  : list (list nat) :=
  match s2 with
  | [] => []
  | c2 :: s2' =>
      let row := j :: fillRow c2 s1 prev j in
      row :: fillMatrix s1 s2' (S j) row
  end.

(** The filled table: row 0 is [0, 1, ..., len1]. *)
Definition matrix (s1 s2 : list ascii) : list (list nat) :=
  let row0 := seq 0 (S (length s1)) in
  row0 :: fillMatrix s1 s2 1 row0.

(** [matrix[len2][len1]] *)
Definition distance (s1 s2 : list ascii) : nat :=
  nth (length s1) (nth (length s2) (matrix s1 s2) []) 0.

Definition ratio (num : Z) (den : nat) : Q := num # Pos.of_nat den.

(** [calculateSimilarity] *)
Definition calculateSimilarity (str1 str2 : string) : Q :=
  let s1 := chars str1 in
  let s2 := chars str2 in
  let len1 := length s1 in
  let len2 := length s2 in
  if (len1 =? 0)%nat then (if (len2 =? 0)%nat then 1 else 0)
  else if (len2 =? 0)%nat then 0
  else
    let maxLen := Nat.max len1 len2 in
    if (maxLen =? 0)%nat then 1
    else ratio (Z.of_nat maxLen - Z.of_nat (distance s1 s2)) maxLen.

(** The Levenshtein distance, by its defining recurrence: the least number
    of insertions, deletions and substitutions, decided on the first
    characters. *)
Fixpoint levenshtein (a b : list ascii) : nat :=
  match a with
  | [] => length b
  | x :: a' =>
      (fix inner (b : list ascii) : nat :=
         match b with
         | [] => length a
         | y :: b' =>
             min3 (levenshtein a' b + 1) (inner b' + 1)
                  (levenshtein a' b' + substCost x y)
         end) b
  end.

(** ** Regular expressions

    The expressions of the source are values of [regex]; [rmatch] is the
    backtracking matcher of the language (ordered alternatives, greedy and
    lazy repetition, numbered capture groups), with [k] the continuation that
    matches what follows. *)

Inductive regex : Type :=
| Eps
| Chr (p : ascii -> bool)
| Bol
| Seq (r1 r2 : regex)
| Alt (r1 r2 : regex)
| Star (greedy : bool) (r : regex)
| Group (n : nat) (r : regex).

Record mstate : Type := MState {
  pos : nat;                          (* index of the next character *)
  prev : option ascii;                (* the character before [pos] *)
  rest : list ascii;                  (* the input from [pos] on *)
  caps : list (nat * (nat * nat))     (* group number, start and end *)
}.

Definition step (c : ascii) (l : list ascii) (st : mstate) : mstate :=
  MState (S (pos st)) (Some c) l (caps st).

Definition capture (n start : nat) (st : mstate) : mstate :=
  MState (pos st) (prev st) (rest st) ((n, (start, pos st)) :: caps st).

Definition orElse {A} (x y : option A) : option A :=
  match x with Some _ => x | None => y end.

Fixpoint rmatch (r : regex) (st : mstate) (k : mstate -> option mstate)
  : option mstate :=
  match r with
  | Eps => k st
  | Chr p =>
      match rest st with
      | c :: l => if p c then k (step c l st) else None
      | [] => None
      end
  | Bol =>                            (* [^] with the [m] flag *)
      match prev st with
      | None => k st
      | Some c => if isLineTerminator c then k st else None
      end
  | Seq r1 r2 => rmatch r1 st (fun st' => rmatch r2 st' k)
  | Alt r1 r2 => orElse (rmatch r1 st k) (rmatch r2 st k)
  | Star greedy r' =>
      (fix loop (fuel : nat) (st : mstate) : option mstate :=
         match fuel with
         | O => k st
         | S fuel' =>
             let again :=
               rmatch r' st (fun st' =>
                 if (pos st' =? pos st)%nat then None else loop fuel' st') in
             if greedy then orElse again (k st) else orElse (k st) again
         end) (S (length (rest st))) st
  | Group n r' => rmatch r' st (fun st' => k (capture n (pos st) st'))
  end.

(** One successful match: [match.index], the end of [match[0]] and the
    groups; [mafter] is the matcher state at the end. *)
Record rmatched : Type := RMatched {
  mindex : nat;
  mafter : mstate
}.

Definition mend (m : rmatched) : nat := pos (mafter m).

(** The leftmost match starting at [pos] or later. *)
Fixpoint search (r : regex) (p : nat) (pv : option ascii) (l : list ascii)
  {struct l} : option rmatched :=
  match rmatch r (MState p pv l []) Some with
  | Some st => Some (RMatched p st)
  | None =>
      match l with
      | [] => None
      | c :: l' => search r (S p) (Some c) l'
      end
  end.

(** The matches of a [g] expression, left to right; after an empty match
    the search resumes one character further. *)
Fixpoint matchAllFrom (r : regex) (fuel : nat) (p : nat) (pv : option ascii)
  (l : list ascii) : list rmatched :=
  match fuel with
  | O => []
  | S fuel' =>
      match search r p pv l with
      | None => []
      | Some m =>
          let st := mafter m in
          if (pos st =? mindex m)%nat
          then match rest st with
               | [] => [m]
               | c :: l' => m :: matchAllFrom r fuel' (S (pos st)) (Some c) l'
               end
          else m :: matchAllFrom r fuel' (pos st) (prev st) (rest st)
      end
  end.

(** [[...text.matchAll(r)]] *)
Definition matchAll (r : regex) (text : list ascii) : list rmatched :=
  matchAllFrom r (S (length text)) 0 None text.

(** [text.substring(a, b)] for [a <= b] *)
Definition substring (a b : nat) (text : list ascii) : list ascii :=
  firstn (b - a) (skipn a text).

Fixpoint lookupCap (n : nat) (cs : list (nat * (nat * nat)))
  : option (nat * nat) :=
  match cs with
  | [] => None
  | (n', se) :: cs' => if (n =? n')%nat then Some se else lookupCap n cs'
  end.

(** [match[0]] *)
Definition whole (text : list ascii) (m : rmatched) : list ascii :=
  substring (mindex m) (mend m) text.

(** [match[n]] for a group that took part in the match *)
Definition group (n : nat) (text : list ascii) (m : rmatched) : list ascii :=
  match lookupCap n (caps (mafter m)) with
  | Some (a, b) => substring a b text
  | None => []
  end.

(** [text.replace(r, ...)] for a [g] expression: [repl] gives the
    replacement of a match. *)
Fixpoint rebuild (repl : rmatched -> list ascii) (text : list ascii)
  (cursor : nat) (ms : list rmatched) : list ascii :=
  match ms with
  | [] => skipn cursor text
  | m :: ms' =>
      substring cursor (mindex m) text ++ repl m
        ++ rebuild repl text (mend m) ms'
  end.

Definition replaceAll (r : regex) (repl : list ascii -> rmatched -> list ascii)
  (text : list ascii) : list ascii :=
  rebuild (repl text) text 0 (matchAll r text).

(** Replacement by a constant, and by ["$1"]. *)
Definition byConst (c : string) (_ : list ascii) (_ : rmatched) : list ascii :=
  chars c.
Definition byGroup1 (text : list ascii) (m : rmatched) : list ascii :=
  group 1 text m.

(** *** Building blocks *)

Definition lit (ci : bool) (x : ascii) : regex :=
  Chr (fun c => if ci then Ascii.eqb (upperChar c) (upperChar x)
                else Ascii.eqb c x).

Fixpoint litsOf (ci : bool) (l : list ascii) : regex :=
  match l with
  | [] => Eps
  | [c] => lit ci c
  | c :: l' => Seq (lit ci c) (litsOf ci l')
  end.

Definition lits (ci : bool) (s : string) : regex := litsOf ci (chars s).

Fixpoint seqs (rs : list regex) : regex :=
  match rs with
  | [] => Eps
  | [r] => r
  | r :: rs' => Seq r (seqs rs')
  end.

Fixpoint alts (rs : list regex) : regex :=
  match rs with
  | [] => Chr (fun _ => false)
  | [r] => r
  | r :: rs' => Alt r (alts rs')
  end.

Definition words (ci : bool) (ws : list string) : regex :=
  alts (map (lits ci) ws).

Definition opt (r : regex) : regex := Alt r Eps.          (* [r?] *)
Definition plus (r : regex) : regex := Seq r (Star true r). (* [r+] *)

Fixpoint times (n : nat) (r : regex) : regex :=           (* [r{n}] *)
  match n with
  | O => Eps
  | S O => r
  | S n' => Seq r (times n' r)
  end.

Fixpoint upTo (n : nat) (r : regex) : regex :=            (* [r{0,n}] *)
  match n with
  | O => Eps
  | S n' => opt (Seq r (upTo n' r))
  end.

Definition digit : regex := Chr isDigit.                  (* [\d] *)
Definition space : regex := Chr isSpace.                  (* [\s] *)
Definition dot : regex := Chr (fun c => negb (isLineTerminator c)).
Definition anyChar : regex := Chr (fun _ => true).        (* [[\s\S]] *)
Definition noneOf (s : string) : regex :=                 (* [[^...]] *)
  Chr (fun c => negb (existsb (Ascii.eqb c) (chars s))).
Definition oneOf (s : string) : regex :=                  (* [[...]] *)
  Chr (fun c => existsb (Ascii.eqb c) (chars s)).
(** [[A-Z]] and [[a-z]] under the [i] flag *)
Definition letter_i : regex := Chr (fun c => inRange 65 90 (upperChar c)).

(** ** TextNormalizer: [extractTextContent] *)

(** The value of a rich-text field ([body], [bodyV2], [richTextDescription],
    [richText]): a string, or the wrapper object with the optional fields
    [markdown] and [html].  An object keeps the order of its own keys:
    [RWrapper] has [markdown] before [html], [RWrapperHtmlFirst] the other
    way round. *)
Inductive RichText : Type :=
| RString (s : string)
| RWrapper (markdown html : option string)
| RWrapperHtmlFirst (html markdown : option string).

(** Truthiness of an optional string: present and not empty. *)
Definition truthy (o : option string) : option string :=
  match o with
  | Some "" => None
  | _ => o
  end.

Definition isTruthy (o : option string) : bool :=
  match truthy o with Some _ => true | None => false end.

(** [a || b] on optional strings, and [a || "literal"]. *)
Definition orStr (a b : option string) : option string :=
  match truthy a with Some _ => a | None => b end.
Definition orLit (a : option string) (d : string) : string :=
  match truthy a with Some s => s | None => d end.

Definition richTruthy (o : option RichText) : bool :=
  match o with
  | None => false
  | Some (RString s) => isTruthy (Some s)
  | Some (RWrapper _ _) => true
  | Some (RWrapperHtmlFirst _ _) => true
  end.

Definition dq : string := String (ascii_of_nat 34) EmptyString.

(** [JSON.stringify] of a wrapper none of whose fields is truthy: a field is
    absent or the empty string; [fields] are the keys of the object with
    their values, in the object's own order. *)
Definition stringifyWrapper (fields : list (string * option string)) : string :=
  let field (kv : string * option string) : list string :=
    match snd kv with
    | Some s => [dq +:+ fst kv +:+ dq +:+ ":" +:+ dq +:+ s +:+ dq]
    | None => []
    end in
  "{" +:+ String.concat "," (flat_map field fields) +:+ "}".

Definition newline : ascii := ascii_of_nat 10.

Definition reHtmlTag : regex :=      (* /<[^>]*>/g *)
  seqs [lit false "<"; Star true (noneOf ">"); lit false ">"].
Definition reDelimited (d : string) : regex :=   (* /d(.*?)d/g *)
  seqs [lits false d; Group 1 (Star false dot); lits false d].
Definition reCodeBlock : regex :=    (* /```[\s\S]*?```/g *)
  seqs [lits false "```"; Star false anyChar; lits false "```"].
Definition reHeader : regex :=       (* /#{1,6}\s+/g *)
  seqs [lit false "#"; upTo 5 (lit false "#"); plus space].
(** Links: a bracketed text (group 1, no closing bracket inside) followed by
    a parenthesised target (no closing parenthesis inside); images: the same
    after an exclamation mark. *)
Definition reLink : regex :=
  seqs [lit false "["; Group 1 (Star true (noneOf "]")); lits false "](";
        Star true (noneOf ")"); lit false ")"].
Definition reImage : regex :=
  Seq (lit false "!") reLink.
Definition reListItem : regex :=     (* /^\s*[-*+]\s+/gm *)
  seqs [Bol; Star true space; oneOf "-*+"; plus space].
Definition reNumbered : regex :=     (* /^\s*\d+\.\s+/gm *)
  seqs [Bol; Star true space; plus digit; lit false "."; plus space].
Definition reQuote : regex :=        (* /^\s*>\s+/gm *)
  seqs [Bol; Star true space; lit false ">"; plus space].
Definition reRule : regex :=         (* /---+/g *)
  seqs [lits false "--"; plus (lit false "-")].
Definition reNewlines : regex :=     (* /\n{3,}/g *)
  Seq (times 3 (Chr (Ascii.eqb newline))) (Star true (Chr (Ascii.eqb newline))).

(** The chain of replacements of [extractTextContent] on a string. *)
Definition stripMarkup (content : list ascii) : list ascii :=
  let text := replaceAll reHtmlTag (byConst "") content in
  let text := replaceAll (reDelimited "**") byGroup1 text in
  let text := replaceAll (reDelimited "*") byGroup1 text in
  let text := replaceAll (reDelimited "__") byGroup1 text in
  let text := replaceAll (reDelimited "_") byGroup1 text in
  let text := replaceAll (reDelimited "`") byGroup1 text in
  let text := replaceAll reCodeBlock (byConst "") text in
  let text := replaceAll reHeader (byConst "") text in
  let text := replaceAll reLink byGroup1 text in
  let text := replaceAll reImage byGroup1 text in
  let text := replaceAll reListItem (byConst "") text in
  let text := replaceAll reNumbered (byConst "") text in
  let text := replaceAll reQuote (byConst "") text in
  let text := replaceAll reRule (byConst "") text in
  let text := replaceAll reNewlines (fun _ _ => [newline; newline]) text in
  trim text.

(** [extractTextContent] *)
Definition extractTextContent (content : option RichText) : string :=
  if negb (richTruthy content) then ""
  else
    let content : string :=
      match content with
      | Some (RString s) => s
      | Some (RWrapper markdown html) =>
          match truthy markdown with
          | Some md => md
          | None =>
              match truthy html with
              | Some h => h
              | None =>
                  stringifyWrapper [("markdown", markdown); ("html", html)]
              end
          end
      | Some (RWrapperHtmlFirst html markdown) =>
          match truthy markdown with
          | Some md => md
          | None =>
              match truthy html with
              | Some h => h
              | None =>
                  stringifyWrapper [("html", html); ("markdown", markdown)]
              end
          end
      | None => ""
      end in
    str (stripMarkup (chars content)).

(** ** FactExtractor *)

Inductive FactType : Type := FDate | FQuantity | FName | FBoolean.

Definition factTypeName (t : FactType) : string :=
  match t with
  | FDate => "date"
  | FQuantity => "quantity"
  | FName => "name"
  | FBoolean => "boolean"
  end.

Record Fact : Type := mkFact {
  ftype : FactType;
  fvalue : string;
  fcontext : string
}.

(** /(\d{1,2}\/\d{1,2}\/\d{4}|\d{4}-\d{2}-\d{2}|\d{4})/g *)
Definition reDate : regex :=
  Group 1 (alts
    [seqs [digit; opt digit; lit false "/"; digit; opt digit; lit false "/";
           times 4 digit];
     seqs [times 4 digit; lit false "-"; times 2 digit; lit false "-";
           times 2 digit];
     times 4 digit]).

Definition unitWords : list string :=
  ["year"; "month"; "day"; "hour"; "minute"; "second"; "time"; "unit"; "item";
   "piece"; "step"; "version"].

(** /(\d+(?:\.\d+)?)\s*(years?|months?|...|steps?|versions?)/gi *)
Definition reQuantity : regex :=
  seqs [Group 1 (Seq (plus digit) (opt (Seq (lit true ".") (plus digit))));
        Star true space;
        Group 2 (alts (map (fun w => Seq (lits true w) (opt (lit true "s")))
                           unitWords))].

(** The name expression (flags [gi]): one of the cue phrases, white space,
    then group 1: one or more words [[A-Z][a-z]+] separated by white space. *)
Definition reName : regex :=
  let capitalised := Seq letter_i (plus letter_i) in
  seqs [words true ["named"; "called"; "known as"; "referred to as";
                    "created by"; "invented by"];
        plus space;
        Group 1 (Seq capitalised (Star true (Seq (plus space) capitalised)))].

(** /(true|false|yes|no|correct|incorrect|right|wrong|accurate|inaccurate|
      exists|doesn't exist|present|absent|available|unavailable)/gi *)
Definition reBoolean : regex :=
  Group 1 (words true
    ["true"; "false"; "yes"; "no"; "correct"; "incorrect"; "right"; "wrong";
     "accurate"; "inaccurate"; "exists"; "doesn't exist"; "present"; "absent";
     "available"; "unavailable"]).

(** [text.substring(Math.max(0, index - before), index + len + after)] *)
Definition contextOf (text : list ascii) (index len before after : nat)
  : list ascii :=
  substring (index - before) (index + len + after) text.

(** [extractFacts] *)
Definition extractFacts (text : string) : list Fact :=
  let t := chars text in
  let dates :=
    map (fun m =>
           mkFact FDate (str (group 1 t m))
             (str (contextOf t (mindex m) (length (group 1 t m)) 20 20)))
        (matchAll reDate t) in
  let numbers :=
    map (fun m =>
           mkFact FQuantity (str (group 1 t m) +:+ " " +:+ str (group 2 t m))
             (str (contextOf t (mindex m) (length (whole t m)) 20 20)))
        (matchAll reQuantity t) in
  let names :=
    map (fun m =>
           mkFact FName (str (group 1 t m))
             (str (contextOf t (mindex m) (length (whole t m)) 20 20)))
        (matchAll reName t) in
  let booleans :=
    map (fun m =>
           mkFact FBoolean (str (group 1 t m))
             (str (contextOf t (mindex m) (length (group 1 t m)) 20 20)))
        (matchAll reBoolean t) in
  dates ++ numbers ++ names ++ booleans.

(** ** ContradictionEngine *)

(** [toLowerCase] and equality on strings *)
Definition lowerStr (s : string) : string := str (toLowerCase (chars s)).

Definition showNat (n : nat) : string := NilEmpty.string_of_uint (Nat.to_uint n).

(** The table [opposites] of [areFactsContradictory]; [None] when the value
    is no key of it. *)
Definition opposites (v : string) : option (list string) :=
  match v with
  | "true" => Some ["false"; "no"; "incorrect"; "wrong"; "inaccurate"]
  | "false" => Some ["true"; "yes"; "correct"; "right"; "accurate"]
  | "yes" => Some ["no"; "false"; "incorrect"; "wrong"]
  | "no" => Some ["yes"; "true"; "correct"; "right"]
  | "exists" => Some ["doesn't exist"; "absent"; "unavailable"]
  | "doesn't exist" => Some ["exists"; "present"; "available"]
  | "present" => Some ["absent"; "unavailable"; "doesn't exist"]
  | "absent" => Some ["present"; "available"; "exists"]
  | _ => None
  end.

(** [opposites[a]?.includes(b)] *)
Definition isOppositeOf (a b : string) : bool :=
  match opposites a with
  | Some l => existsb (String.eqb b) l
  | None => false
  end.

(** [areFactsContradictory] *)
Definition areFactsContradictory (fact1 fact2 : Fact) : bool :=
  match ftype fact1 with
  | FBoolean =>
      let fact1Lower := lowerStr (fvalue fact1) in
      let fact2Lower := lowerStr (fvalue fact2) in
      isOppositeOf fact1Lower fact2Lower || isOppositeOf fact2Lower fact1Lower
  | FDate | FQuantity | FName =>
      negb (String.eqb (fvalue fact1) (fvalue fact2))
  end.

Definition isEmpty {A} (l : list A) : bool :=
  match l with [] => true | _ => false end.

Definition factTypeEqb (a b : FactType) : bool :=
  match a, b with
  | FDate, FDate | FQuantity, FQuantity | FName, FName
  | FBoolean, FBoolean => true
  | _, _ => false
  end.

(** [Object.keys] of the facts grouped by type: the types in the order of
    their first fact. *)
Fixpoint typeKeys (seen : list FactType) (facts : list Fact) : list FactType :=
  match facts with
  | [] => []
  | f :: facts' =>
      if existsb (factTypeEqb (ftype f)) seen then typeKeys seen facts'
      else ftype f :: typeKeys (ftype f :: seen) facts'
  end.

Definition factsOfType (t : FactType) (facts : list Fact) : list Fact :=
  List.filter (fun f => factTypeEqb (ftype f) t) facts.

(** [findFactualContradictions] *)
Definition findFactualContradictions (facts1 facts2 : list Fact) : list string :=
  flat_map (fun t =>
    if isEmpty (factsOfType t facts2) then []
    else
      flat_map (fun fact1 =>
        flat_map (fun fact2 =>
          if areFactsContradictory fact1 fact2
          then [factTypeName t +:+ ": " +:+ dq +:+ fvalue fact1 +:+ dq
                  +:+ " vs " +:+ dq +:+ fvalue fact2 +:+ dq]
          else [])
          (factsOfType t facts2))
        (factsOfType t facts1))
    (typeKeys [] facts1).

Fixpoint startsWith (needle hay : list ascii) : bool :=
  match needle, hay with
  | [], _ => true
  | _ :: _, [] => false
  | c :: needle', d :: hay' => Ascii.eqb c d && startsWith needle' hay'
  end.

(** [hay.includes(needle)] *)
Fixpoint includesChars (needle hay : list ascii) : bool :=
  startsWith needle hay
  || match hay with
     | [] => false
     | _ :: hay' => includesChars needle hay'
     end.

Definition includes (hay needle : string) : bool :=
  includesChars (chars needle) (chars hay).

(** The table [actionOpposites]: a positive action and its negatives. *)
Definition actionOpposites : list (string * list string) :=
  [("click", ["don't click"; "avoid clicking"]);
   ("select", ["deselect"; "unselect"]);
   ("enable", ["disable"]);
   ("turn on", ["turn off"]);
   ("start", ["stop"]);
   ("begin", ["end"]);
   ("open", ["close"]);
   ("add", ["remove"; "delete"]);
   ("include", ["exclude"]);
   ("allow", ["prevent"; "block"])].

(** [areInstructionsContradictory] *)
Definition areInstructionsContradictory (inst1 inst2 : string) : bool :=
  let inst1Norm := normalizeString inst1 in
  let inst2Norm := normalizeString inst2 in
  existsb (fun '(positive, negatives) =>
    let hasPositive1 := includes inst1Norm positive in
    let hasNegative1 := existsb (includes inst1Norm) negatives in
    let hasPositive2 := includes inst2Norm positive in
    let hasNegative2 := existsb (includes inst2Norm) negatives in
    (hasPositive1 && hasNegative2) || (hasNegative1 && hasPositive2))
    actionOpposites.

(** /(?:step\s*\d+|first|second|third|then|next|finally|lastly)/gi *)
Definition reStep : regex :=
  alts (seqs [lits true "step"; Star true space; plus digit]
        :: map (lits true)
             ["first"; "second"; "third"; "then"; "next"; "finally"; "lastly"]).

(** [findProceduralContradictions] *)
Definition findProceduralContradictions (text1 text2 : string) : list string :=
  let t1 := chars text1 in
  let t2 := chars text2 in
  let steps1 := matchAll reStep t1 in
  let steps2 := matchAll reStep t2 in
  if negb (isEmpty steps1) && negb (isEmpty steps2) then
    let instructions1 :=
      map (fun m => str (substring (mindex m - 50) (mindex m + 100) t1)) steps1 in
    let instructions2 :=
      map (fun m => str (substring (mindex m - 50) (mindex m + 100) t2)) steps2 in
    flat_map (fun '(i, (inst1, inst2)) =>
      if areInstructionsContradictory inst1 inst2
      then ["Step " +:+ showNat (i + 1) +:+ ": Different instructions"]
      else [])
      (combine (seq 0 (length instructions1))
               (combine instructions1 instructions2))
  else [].

(** [str.split(/\s+/)]: the pieces between the maximal runs of white space;
    [acc] is the current piece, reversed. *)
Fixpoint splitSpaces (inRun : bool) (acc : list ascii) (l : list ascii)
  : list string :=
  match l with
  | [] => [str (rev acc)]
  | c :: l' =>
      if isSpace c
      then if inRun then splitSpaces true [] l'
           else str (rev acc) :: splitSpaces true [] l'
      else splitSpaces false (c :: acc) l'
  end.

Definition gtQ (x y : Q) : bool := negb (Qle_bool x y).

(** [areContextsSimilar] *)
Definition areContextsSimilar (context1 context2 : string) : bool :=
  let norm1 := normalizeString context1 in
  let norm2 := normalizeString context2 in
  let words1 : gset string := list_to_set (splitSpaces false [] (chars norm1)) in
  let words2 : gset string := list_to_set (splitSpaces false [] (chars norm2)) in
  let intersection := words1 ∩ words2 in
  let union := words1 ∪ words2 in
  let similarity := ratio (Z.of_nat (size intersection)) (size union) in
  gtQ similarity (3 # 10).

(** [findTemporalContradictions] *)
Definition findTemporalContradictions (text1 text2 : string) : list string :=
  let t1 := chars text1 in
  let t2 := chars text2 in
  let dates1 := matchAll reDate t1 in
  let dates2 := matchAll reDate t2 in
  if negb (isEmpty dates1) && negb (isEmpty dates2) then
    flat_map (fun date1 =>
      flat_map (fun date2 =>
        let d1 := group 1 t1 date1 in
        let d2 := group 1 t2 date2 in
        if negb (String.eqb (str d1) (str d2)) then
          let context1 := str (contextOf t1 (mindex date1) (length d1) 30 30) in
          let context2 := str (contextOf t2 (mindex date2) (length d2) 30 30) in
          if areContextsSimilar context1 context2
          then ["Date: " +:+ dq +:+ str d1 +:+ dq +:+ " vs " +:+ dq +:+ str d2
                  +:+ dq +:+ " for same event"]
          else []
        else [])
        dates2)
      dates1
  else [].

(** [findQuantitativeContradictions] *)
Definition findQuantitativeContradictions (text1 text2 : string) : list string :=
  let t1 := chars text1 in
  let t2 := chars text2 in
  let numbers1 := matchAll reQuantity t1 in
  let numbers2 := matchAll reQuantity t2 in
  if negb (isEmpty numbers1) && negb (isEmpty numbers2) then
    flat_map (fun num1 =>
      flat_map (fun num2 =>
        if String.eqb (lowerStr (str (group 2 t1 num1)))
                      (lowerStr (str (group 2 t2 num2)))
           && negb (String.eqb (str (group 1 t1 num1)) (str (group 1 t2 num2)))
        then
          let context1 :=
            str (contextOf t1 (mindex num1) (length (whole t1 num1)) 30 30) in
          let context2 :=
            str (contextOf t2 (mindex num2) (length (whole t2 num2)) 30 30) in
          if areContextsSimilar context1 context2
          then ["Quantity: " +:+ dq +:+ str (whole t1 num1) +:+ dq +:+ " vs "
                  +:+ dq +:+ str (whole t2 num2) +:+ dq
                  +:+ " for same measurement"]
          else []
        else [])
        numbers2)
      numbers1
  else [].

(** [detectSemanticContradictions] *)
Definition detectSemanticContradictions (text1 text2 : string) : bool :=
  let normalized1 := normalizeString text1 in
  let normalized2 := normalizeString text2 in
  if String.eqb normalized1 normalized2 then false
  else
    let facts1 := extractFacts normalized1 in
    let facts2 := extractFacts normalized2 in
    if negb (isEmpty (findFactualContradictions facts1 facts2)) then true
    else if negb (isEmpty (findProceduralContradictions normalized1 normalized2))
    then true
    else if negb (isEmpty (findTemporalContradictions normalized1 normalized2))
    then true
    else if negb (isEmpty (findQuantitativeContradictions normalized1 normalized2))
    then true
    else false.

(** *** The lexical-pattern layer

    [detectContradictions] is defined by the module next to
    [detectSemanticContradictions]; [detectConflicts] calls only the
    latter. *)

(** [r.test(text)] for an expression with the [g] flag: the search starts at
    [lastIndex]; the result comes with the new [lastIndex]. *)
Definition testFrom (r : regex) (lastIndex : nat) (text : list ascii)
  : bool * nat :=
  if (length text <? lastIndex)%nat then (false, 0)
  else
    let pv := match lastIndex with O => None | S i => nth_error text i end in
    match search r lastIndex pv (skipn lastIndex text) with
    | Some m => (true, mend m)
    | None => (false, 0)
    end.

(** The table [contradictionPatterns]: each entry holds two fresh expression
    objects (flags [gi]). *)
Definition contradictionPatterns : list (regex * regex) :=
  let truth := words true ["true"; "yes"; "correct"; "right"; "accurate"] in
  let falsity := words true ["false"; "no"; "incorrect"; "wrong"; "inaccurate"] in
  let total := words true ["always"; "never"; "all"; "every"; "none"] in
  let partial := words true ["sometimes"; "occasionally"; "some"; "few"; "rarely"] in
  let existing := words true ["exists"; "present"; "available"; "found"] in
  let missing :=
    words true ["doesn't exist"; "absent"; "unavailable"; "not found"; "missing"] in
  let many := words true ["many"; "multiple"; "several"; "numerous"] in
  let few := words true ["few"; "single"; "one"; "limited"] in
  let origin :=
    words true ["discovered"; "found"; "created"; "invented"; "originated"] in
  let noOrigin :=
    words true ["not discovered"; "not found"; "not created"; "not invented";
                "didn't originate"] in
  [(truth, falsity); (falsity, truth); (total, partial); (partial, total);
   (existing, missing); (missing, existing); (many, few); (few, many);
   (origin, noOrigin); (noOrigin, origin)].

(** The table [factualPatterns]: years, quantities and names. *)
Definition factualPatterns : list regex :=
  [Group 1 (times 4 digit);
   seqs [Group 1 (Seq (plus digit) (opt (Seq (lit true ".") (plus digit))));
         Star true space;
         alts (map (fun w => Seq (lits true w) (opt (lit true "s")))
                   ["year"; "month"; "day"; "hour"; "minute"; "second"; "time";
                    "unit"; "item"; "piece"])];
   seqs [words true ["named"; "called"; "known as"; "referred to as"];
         plus space;
         Group 1 (Seq (Seq letter_i (plus letter_i))
                      (Star true (Seq (plus space)
                                      (Seq letter_i (plus letter_i)))))]].

(** [detectContradictions] *)
Definition detectContradictions (text1 text2 : string) : bool :=
  let normalized1 := normalizeString text1 in
  let normalized2 := normalizeString text2 in
  if String.eqb normalized1 normalized2 then false
  else
    let n1 := chars normalized1 in
    let n2 := chars normalized2 in
    if existsb (fun '(pattern, opposite) =>
         let '(hasPattern1, patternIndex) := testFrom pattern 0 n1 in
         let '(hasOpposite1, oppositeIndex) := testFrom opposite 0 n1 in
         let '(hasPattern2, _) := testFrom pattern patternIndex n2 in
         let '(hasOpposite2, _) := testFrom opposite oppositeIndex n2 in
         (hasPattern1 && hasOpposite2) || (hasOpposite1 && hasPattern2))
         contradictionPatterns
    then true
    else
      existsb (fun pattern =>
        let matches1 := matchAll pattern n1 in
        let matches2 := matchAll pattern n2 in
        negb (isEmpty matches1) && negb (isEmpty matches2)
        && existsb (fun match1 =>
             existsb (fun match2 =>
               negb (String.eqb (str (group 1 n1 match1))
                                (str (group 1 n2 match2))))
               matches2)
             matches1)
        factualPatterns.

(** ** Data model *)

Module Meta.
Record t : Type := mk {
  id : option string;
  entityType : option string
}.
End Meta.

(** [YextEntity]: the fields the engine reads. *)
Module Entity.
Record t : Type := mk {
  id : option string;
  name : option string;
  description : option string;
  content : option string;
  answer : option string;
  mainPhone : option string;
  websiteUrl : option string;
  body : option RichText;
  bodyV2 : option RichText;
  richTextDescription : option RichText;
  richText : option RichText;
  meta : option Meta.t
}.
End Entity.
Abbreviation YextEntity := Entity.t.

Inductive Severity : Type := high | medium | low.

Definition severityEqb (a b : Severity) : bool :=
  match a, b with
  | high, high | medium, medium | low, low => true
  | _, _ => false
  end.

(** One entry of [ConflictDetail.values]. *)
Module Value.
Record t : Type := mk {
  entityId : option string;
  entityName : option string;
  value : string
}.
End Value.

Module Detail.
Record t : Type := mk {
  field : string;
  values : list Value.t;
  conflictType : string;
  severity : Severity;
  description : string
}.
End Detail.
Abbreviation ConflictDetail := Detail.t.

(** One entry of [ConflictGroup.entities]. *)
Module Ref.
Record t : Type := mk {
  id : option string;
  name : option string;
  type : option string
}.
End Ref.

Module Group.
Record t : Type := mk {
  id : string;
  title : string;
  entities : list Ref.t;
  conflictDetails : list ConflictDetail;
  severity : Severity
}.
End Group.
Abbreviation ConflictGroup := Group.t.

Module Summary.
Record t : Type := mk {
  totalConflicts : nat;
  highSeverity : nat;
  mediumSeverity : nat;
  lowSeverity : nat;
  affectedEntities : nat
}.
End Summary.

(** ** EntityGrouper and ConflictAssembler *)

(** [entity.meta?.entityType] *)
Definition entityTypeOf (e : YextEntity) : option string :=
  match Entity.meta e with
  | Some m => Meta.entityType m
  | None => None
  end.

(** [entity.meta?.id || entity.id || "unknown"] *)
Definition entityIdOf (e : YextEntity) : string :=
  let metaId := match Entity.meta e with Some m => Meta.id m | None => None end in
  orLit (orStr metaId (Entity.id e)) "unknown".

(** [entity.name || "Unknown Entity"] *)
Definition entityNameOf (e : YextEntity) : string :=
  orLit (Entity.name e) "Unknown Entity".

(** An optional string inside a template literal. *)
Definition show (o : option string) : string :=
  match o with Some s => s | None => "undefined" end.

Definition optEqb (a b : option string) : bool :=
  match a, b with
  | Some x, Some y => String.eqb x y
  | None, None => true
  | _, _ => false
  end.

Definition hasType (e : YextEntity) (ts : list string) : bool :=
  existsb (fun t => optEqb (entityTypeOf e) (Some t)) ts.

Definition isFaq (e : YextEntity) : bool := hasType e ["faq"; "ce_faq"].

Definition isBook (e : YextEntity) : bool := hasType e ["book"; "ce_book"].

(** The filter of [nonFaqEntities]. *)
Definition isCompared (e : YextEntity) : bool :=
  negb (hasType e ["faq"; "ce_faq"; "location"; "ce_location"; "bufo"; "ce_bufo"]).

(** [if (!groups.has(key)) groups.set(key, []); groups.get(key).push(e)] on
    an insertion-ordered map. *)
Fixpoint groupPush (key : string) (e : YextEntity)
  (groups : list (string * list YextEntity)) : list (string * list YextEntity) :=
  match groups with
  | [] => [(key, [e])]
  | (k, es) :: groups' =>
      if String.eqb k key then (k, es ++ [e]) :: groups'
      else (k, es) :: groupPush key e groups'
  end.

Definition groupBy (key : YextEntity -> string) (es : list YextEntity)
  : list (string * list YextEntity) :=
  fold_left (fun groups e => groupPush (key e) e groups) es [].

(** [str.substring(0, 100) + "..."] *)
Definition excerpt (s : string) : string :=
  str (substring 0 100 (chars s)) +:+ "...".

Definition refOf (e : YextEntity) : Ref.t :=
  Ref.mk (Some (entityIdOf e)) (Some (entityNameOf e)) (entityTypeOf e).

Definition valueOf (e : YextEntity) (v : string) : Value.t :=
  Value.mk (Some (entityIdOf e)) (Some (entityNameOf e)) v.

Definition someSeverity (s : Severity) (ds : list ConflictDetail) : bool :=
  existsb (fun c => severityEqb (Detail.severity c) s) ds.

(** *** The FAQ path *)

Definition faqQuestion (faq : YextEntity) : string :=
  normalizeString (orLit (Entity.name faq) "").

(** [faq.answer || faq.description || ""] *)
Definition faqAnswerText (faq : YextEntity) : string :=
  orLit (orStr (Entity.answer faq) (Entity.description faq)) "".

Definition faqAnswer (faq : YextEntity) : string :=
  normalizeString (faqAnswerText faq).

(** The body of [for (const [question, faqs] of questionGroups)]: the groups
    pushed for one question. *)
Definition faqGroupConflicts (question : string) (faqs : list YextEntity)
  : list ConflictGroup :=
  if (1 <? length faqs)%nat then
    let answers := map (fun faq => (faq, faqAnswer faq)) faqs in
    let uniqueAnswers : gset string := list_to_set (map snd answers) in
    if (1 <? size uniqueAnswers)%nat then
      let conflictDetails :=
        [Detail.mk "answer"
           (map (fun a => valueOf (fst a) (excerpt (faqAnswerText (fst a))))
                answers)
           "faq_answer_conflict" high
           (showNat (length faqs)
              +:+ " FAQ entities with identical questions have different answers")] in
      [Group.mk ("faq-conflict-" +:+ question)
         ("FAQ Conflict: " +:+ dq +:+ question +:+ dq)
         (map refOf faqs)
         conflictDetails
         (if someSeverity high conflictDetails then high else medium)]
    else []
  else [].

Definition faqConflicts (entities : list YextEntity) : list ConflictGroup :=
  let faqEntities := List.filter isFaq entities in
  if (0 <? length faqEntities)%nat then
    let questionGroups := groupBy faqQuestion faqEntities in
    flat_map (fun '(question, faqs) => faqGroupConflicts question faqs)
             questionGroups
  else [].

(** *** The pairwise path *)

(** [a || b || ... || ""] on strings *)
Fixpoint firstNonEmpty (l : list string) : string :=
  match l with
  | [] => ""
  | "" :: l' => firstNonEmpty l'
  | s :: _ => s
  end.

(** [typeof x === "string" ? x : ""] on the fields declared as strings, and
    on a rich-text field. *)
Definition stringOr (o : option string) : string :=
  match o with Some s => s | None => "" end.
Definition richStringOr (o : option RichText) : string :=
  match o with Some (RString s) => s | _ => "" end.

(** [x ? extractTextContent(x) : ""] *)
Definition extracted (o : option RichText) : string :=
  if richTruthy o then extractTextContent o else "".

(** The text compared for one record: [content1], [content2]. *)
Definition selectContent (e : YextEntity) : string :=
  if isBook e then
    firstNonEmpty
      [extracted (Entity.bodyV2 e); extracted (Entity.body e);
       stringOr (Entity.description e); stringOr (Entity.content e);
       extracted (Entity.richTextDescription e); extracted (Entity.richText e)]
  else
    firstNonEmpty
      [stringOr (Entity.description e); stringOr (Entity.content e);
       richStringOr (Entity.body e); extracted (Entity.bodyV2 e);
       extracted (Entity.richTextDescription e); extracted (Entity.richText e)].

(** The double nearest to a positive rational of the normal range: 53
    significant bits, rounded to nearest, ties to even.  (A similarity is
    never negative; zero is itself.) *)
Definition toDouble (q : Q) : Q :=
  let n := Qnum q in
  let d := Z.pos (Qden q) in
  if (n <=? 0)%Z then q
  else
    (* [atLeast k]: 2^k <= q *)
    let atLeast (k : Z) := (d * 2 ^ Z.max 0 k <=? n * 2 ^ Z.max 0 (- k))%Z in
    let k0 := (Z.log2 n - Z.log2 d)%Z in
    let k := if atLeast k0 then k0 else (k0 - 1)%Z in
    (* the significand is q / 2^e, between 2^52 and 2^53 *)
    let e := (k - 52)%Z in
    let num := (n * 2 ^ Z.max 0 (- e))%Z in
    let den := (d * 2 ^ Z.max 0 e)%Z in
    let m0 := (num / den)%Z in
    let r := (num mod den)%Z in
    let m := if (2 * r <? den)%Z then m0
             else if (den <? 2 * r)%Z then (m0 + 1)%Z
             else if Z.even m0 then m0 else (m0 + 1)%Z in
    inject_Z (m * 2 ^ Z.max 0 e) / inject_Z (2 ^ Z.max 0 (- e)).

(** [Math.round(nameSimilarity * 100)]: [nameSimilarity] is the double
    quotient of two lengths and the product is a double again; [Math.round]
    takes the nearest integer, halves upwards.  (The text of [description]
    is the only place where it shows.) *)
Definition percent (q : Q) : string :=
  showNat (Z.to_nat (Qfloor (toDouble (toDouble q * 100) + (1 # 2)))).

(** The field and the type reported for a content finding; [suffix] is
    ["contradiction"] or ["conflict"]. *)
Definition conflictFieldAndType (entity1 entity2 : YextEntity) (suffix : string)
  : string * string :=
  if richTruthy (Entity.body entity1) && richTruthy (Entity.body entity2)
  then ("body", "body_content_" +:+ suffix)
  else if isTruthy (Entity.content entity1) && isTruthy (Entity.content entity2)
  then ("content", "content_" +:+ suffix)
  else if isTruthy (Entity.description entity1)
          && isTruthy (Entity.description entity2)
  then ("description", "description_" +:+ suffix)
  else ("content", "inconsistent_data").

Definition nameSimilarityOf (entity1 entity2 : YextEntity) : Q :=
  calculateSimilarity (normalizeString (orLit (Entity.name entity1) ""))
                      (normalizeString (orLit (Entity.name entity2) "")).

(** The content check, under [if (nameSimilarity > 0.3)]. *)
Definition contentDetails (entityType : string) (entity1 entity2 : YextEntity)
  : list ConflictDetail :=
  let nameSimilarity := nameSimilarityOf entity1 entity2 in
  if gtQ nameSimilarity (3 # 10) then
    let content1 := selectContent entity1 in
    let content2 := selectContent entity2 in
    if negb (String.eqb content1 "") && negb (String.eqb content2 "") then
      let isDifferent :=
        negb (String.eqb (normalizeString content1) (normalizeString content2)) in
      let hasContradiction := detectSemanticContradictions content1 content2 in
      let values := [valueOf entity1 (excerpt content1);
                     valueOf entity2 (excerpt content2)] in
      if isDifferent && hasContradiction then
        let '(conflictField, conflictType) :=
          conflictFieldAndType entity1 entity2 "contradiction" in
        [Detail.mk conflictField values conflictType high
           (entityType +:+ " entities with similar names ("
              +:+ percent nameSimilarity +:+ "% similar) have contradictory "
              +:+ conflictField +:+ " content")]
      else if isDifferent then
        let '(conflictField, conflictType) :=
          conflictFieldAndType entity1 entity2 "conflict" in
        [Detail.mk conflictField values conflictType medium
           (entityType +:+ " entities with similar names ("
              +:+ percent nameSimilarity +:+ "% similar) have different "
              +:+ conflictField +:+ " content")]
      else []
    else []
  else [].

(** The phone check. *)
Definition phoneDetails (entity1 entity2 : YextEntity) : list ConflictDetail :=
  match truthy (Entity.mainPhone entity1), truthy (Entity.mainPhone entity2) with
  | Some mainPhone1, Some mainPhone2 =>
      let phone1 := normalizePhone mainPhone1 in
      let phone2 := normalizePhone mainPhone2 in
      if String.eqb phone1 phone2
         && negb (optEqb (Entity.name entity1) (Entity.name entity2))
      then [Detail.mk "mainPhone"
              [valueOf entity1 mainPhone1; valueOf entity2 mainPhone2]
              "phone_mismatch" medium
              "Different entities sharing the same phone number"]
      else []
  | _, _ => []
  end.

(** The website check. *)
Definition urlDetails (entity1 entity2 : YextEntity) : list ConflictDetail :=
  match truthy (Entity.websiteUrl entity1), truthy (Entity.websiteUrl entity2) with
  | Some websiteUrl1, Some websiteUrl2 =>
      if String.eqb websiteUrl1 websiteUrl2
         && negb (optEqb (Entity.name entity1) (Entity.name entity2))
      then [Detail.mk "websiteUrl"
              [valueOf entity1 websiteUrl1; valueOf entity2 websiteUrl2]
              "url_mismatch" medium
              "Different entities sharing the same website URL"]
      else []
  | _, _ => []
  end.

(** The [conflictDetails] accumulated for one pair. *)
Definition pairDetails (entityType : string) (entity1 entity2 : YextEntity)
  : list ConflictDetail :=
  contentDetails entityType entity1 entity2
    ++ phoneDetails entity1 entity2 ++ urlDetails entity1 entity2.

(** The body of the two nested loops: the groups pushed for one pair. *)
Definition pairConflicts (entityType : string) (entity1 entity2 : YextEntity)
  : list ConflictGroup :=
  let conflictDetails := pairDetails entityType entity1 entity2 in
  if (0 <? length conflictDetails)%nat then
    let severity :=
      if someSeverity high conflictDetails then high
      else if someSeverity medium conflictDetails then medium
      else low in
    [Group.mk
       ("conflict-" +:+ show (Entity.name entity1) +:+ "-"
          +:+ show (Entity.name entity2))
       ("Potential conflict between " +:+ dq +:+ show (Entity.name entity1)
          +:+ dq +:+ " and " +:+ dq +:+ show (Entity.name entity2) +:+ dq)
       [refOf entity1; refOf entity2]
       conflictDetails
       severity]
  else [].

(** The pairs [(entityGroup[i], entityGroup[j])], [i < j], in loop order. *)
Fixpoint pairsOf (entityGroup : list YextEntity) : list (YextEntity * YextEntity) :=
  match entityGroup with
  | [] => []
  | entity1 :: rest => map (pair entity1) rest ++ pairsOf rest
  end.

(** [entity.meta?.entityType || "unknown"] *)
Definition typeKey (e : YextEntity) : string :=
  orLit (entityTypeOf e) "unknown".

Definition pairwiseConflicts (entities : list YextEntity) : list ConflictGroup :=
  let nonFaqEntities := List.filter isCompared entities in
  if (0 <? length nonFaqEntities)%nat then
    let entityGroups := groupBy typeKey nonFaqEntities in
    flat_map (fun '(entityType, entityGroup) =>
      flat_map (fun '(entity1, entity2) =>
                  pairConflicts entityType entity1 entity2)
               (pairsOf entityGroup))
      entityGroups
  else [].

(** [detectConflicts] *)
Definition detectConflicts (entities : list YextEntity) : list ConflictGroup :=
  faqConflicts entities ++ pairwiseConflicts entities.

(** ** SummaryAggregator *)

(** [getConflictSummary] *)
Definition getConflictSummary (conflicts : list ConflictGroup) : Summary.t :=
  let count (s : Severity) :=
    length (List.filter (fun c => severityEqb (Group.severity c) s) conflicts) in
  let affectedEntities : gset string :=
    fold_left (fun acc conflict =>
      fold_left (fun acc entity =>
        match truthy (Ref.id entity) with
        | Some i => acc ∪ {[ i ]}
        | None => acc
        end) (Group.entities conflict) acc)
      conflicts ∅ in
  Summary.mk (length conflicts) (count high) (count medium) (count low)
             (size affectedEntities).

(** ** The earlier variant of the detector

    The second module of the file repeats [normalizeString],
    [calculateSimilarity], [normalizePhone] and [getConflictSummary] word
    for word, and so do the body of its FAQ loop, its phone and website
    checks and the push of a pair's group.  It differs in the types it
    filters on, in the text it compares and in the content check. *)

Module Legacy.

Definition isFaq (e : YextEntity) : bool := hasType e ["faq"].

(** The filter of [nonFaqEntities]. *)
Definition isCompared (e : YextEntity) : bool :=
  negb (hasType e ["faq"; "location"]).

Definition faqConflicts (entities : list YextEntity) : list ConflictGroup :=
  let faqEntities := List.filter isFaq entities in
  if (0 <? length faqEntities)%nat then
    let questionGroups := groupBy faqQuestion faqEntities in
    flat_map (fun '(question, faqs) => faqGroupConflicts question faqs)
             questionGroups
  else [].

(** [entity.description || entity.content || ""] *)
Definition selectContent (e : YextEntity) : string :=
  orLit (orStr (Entity.description e) (Entity.content e)) "".

(** The content check, under [if (nameSimilarity > 0.9)]. *)
Definition contentDetails (entityType : string) (entity1 entity2 : YextEntity)
  : list ConflictDetail :=
  let nameSimilarity := nameSimilarityOf entity1 entity2 in
  if gtQ nameSimilarity (9 # 10) then
    let content1 := selectContent entity1 in
    let content2 := selectContent entity2 in
    if negb (String.eqb content1 "") && negb (String.eqb content2 "")
       && negb (String.eqb (normalizeString content1) (normalizeString content2))
    then
      [Detail.mk "content"
         [valueOf entity1 (excerpt content1); valueOf entity2 (excerpt content2)]
         "inconsistent_data" medium
         (entityType +:+ " entities with similar names ("
            +:+ percent nameSimilarity +:+ "% similar) have different content")]
    else []
  else [].

Definition pairDetails (entityType : string) (entity1 entity2 : YextEntity)
  : list ConflictDetail :=
  contentDetails entityType entity1 entity2
    ++ phoneDetails entity1 entity2 ++ urlDetails entity1 entity2.

Definition pairConflicts (entityType : string) (entity1 entity2 : YextEntity)
  : list ConflictGroup :=
  let conflictDetails := pairDetails entityType entity1 entity2 in
  if (0 <? length conflictDetails)%nat then
    let severity :=
      if someSeverity high conflictDetails then high
      else if someSeverity medium conflictDetails then medium
      else low in
    [Group.mk
       ("conflict-" +:+ show (Entity.name entity1) +:+ "-"
          +:+ show (Entity.name entity2))
       ("Potential conflict between " +:+ dq +:+ show (Entity.name entity1)
          +:+ dq +:+ " and " +:+ dq +:+ show (Entity.name entity2) +:+ dq)
       [refOf entity1; refOf entity2]
       conflictDetails
       severity]
  else [].

Definition pairwiseConflicts (entities : list YextEntity) : list ConflictGroup :=
  let nonFaqEntities := List.filter isCompared entities in
  if (0 <? length nonFaqEntities)%nat then
    let entityGroups := groupBy typeKey nonFaqEntities in
    flat_map (fun '(entityType, entityGroup) =>
      flat_map (fun '(entity1, entity2) =>
                  pairConflicts entityType entity1 entity2)
               (pairsOf entityGroup))
      entityGroups
  else [].

(** [detectConflicts] *)
Definition detectConflicts (entities : list YextEntity) : list ConflictGroup :=
  faqConflicts entities ++ pairwiseConflicts entities.

End Legacy.


(** ** The entities route

    [POST] of the route that fetches the records of an account page by page.
    The remote service is a function from the offset of a page to what
    [fetch] yields for it: within one call every offset is requested at most
    once. *)

Module Route.

Inductive FetchResult : Type :=
| Thrown (message : string)                 (* [fetch] or [json()] throws *)
| NotOk (status : nat) (errorText : string) (* [!response.ok] *)
| Ok (entities : list YextEntity) (totalCount : nat).
    (* [data.response?.entities || []], [data.response?.count || 0] *)

Inductive Response : Type :=
| Failure (status : nat) (error : string) (details : option string)
| Success (entities : list YextEntity) (count pagesFetched : nat).

Definition limit : nat := 50.

(** The answer to a page that is not ok. *)
Definition notOkResponse (status : nat) (errorText : string) : Response :=
  if (status =? 401)%nat then
    Failure 401
      "Invalid API key. Please ensure you're using a valid API key from the API Credentials tab with 'Entities (Management API)' permissions."
      (Some errorText)
  else if (status =? 403)%nat then
    Failure 403
      "Access forbidden. Please ensure your API key has 'Entities (Management API)' permissions."
      (Some errorText)
  else if (status =? 404)%nat then
    Failure 404
      "Account not found. Please verify the business ID is correct."
      (Some errorText)
  else
    Failure status ("API request failed with status " +:+ showNat status)
            (Some errorText).

(** [e.meta?.id || e.id] *)
Definition entityKey (e : YextEntity) : option string :=
  orStr (match Entity.meta e with Some m => Meta.id m | None => None end)
        (Entity.id e).

(** [allEntities.filter(...)] with the set [seenIds]. *)
Fixpoint keepFirst (seenIds : gset (option string)) (allEntities : list YextEntity)
  : list YextEntity :=
  match allEntities with
  | [] => []
  | entity :: rest =>
      let id := entityKey entity in
      if bool_decide (id ∈ seenIds) then keepFirst seenIds rest
      else entity :: keepFirst (seenIds ∪ {[ id ]}) rest
  end.

Definition deduplicate (allEntities : list YextEntity) : list YextEntity :=
  let entityIds := map entityKey allEntities in
  let uniqueIds : gset (option string) := list_to_set entityIds in
  let duplicateCount := length entityIds - size uniqueIds in
  if (0 <? duplicateCount)%nat then keepFirst ∅ allEntities else allEntities.

Section Handler.

Variable fetch : nat -> FetchResult.

(** The [while (hasMorePages)] loop from the state [(allEntities, page)];
    it ends with a response, or with the records and the page counter.
    [fuel] bounds the number of rounds. *)
Fixpoint fetchPages (fuel page : nat) (allEntities : list YextEntity)
  : Response + (list YextEntity * nat) :=
  match fuel with
  | O => inr (allEntities, page)
  | S fuel' =>
      match fetch ((page - 1) * limit) with
      | Thrown message =>
          inl (Failure 500 "Network error occurred while connecting to Yext API"
                       (Some message))
      | NotOk status errorText => inl (notOkResponse status errorText)
      | Ok entities totalCount =>
          let allEntities := allEntities ++ entities in
          let hasMorePages :=
            (length entities =? limit)%nat
            && (length allEntities <? totalCount)%nat in
          let page := page + 1 in
          if (200 <? page)%nat then inr (allEntities, page)
          else if hasMorePages then fetchPages fuel' page allEntities
          else inr (allEntities, page)
      end
  end.

(** [POST]; the request body is [None] when it cannot be read, and holds
    [businessId] and [apiKey] otherwise. *)
Definition POST (request : option (option string * option string)) : Response :=
  match request with
  | None => Failure 500 "Internal server error" None
  | Some (businessId, apiKey) =>
      if negb (isTruthy apiKey) then Failure 400 "API key is required" None
      else if negb (isTruthy businessId)
      then Failure 400 "Business ID is required" None
      else
        match fetchPages 200 1 [] with
        | inl response => response
        | inr (allEntities, page) =>
            let allEntities := deduplicate allEntities in
            Success allEntities (length allEntities) (page - 1)
        end
  end.

End Handler.

End Route.


(** ** The page: from the input to the request *)

Module Page.

(** [/^r$/.test(text)]: a match of [r] from the start of [text] to its
    end. *)
Definition testAnchored (r : regex) (text : list ascii) : bool :=
  match rmatch r (MState 0 None text [])
               (fun st => if isEmpty (rest st) then Some st else None) with
  | Some _ => true
  | None => false
  end.

(** The expression of the URL path: [/s/], one or more digits (group 1),
    and a slash. *)
Definition reBusinessId : regex :=
  seqs [lits false "/s/"; Group 1 (plus digit); lit false "/"].

(** What [handleUrlSubmit] ends with: [setError(message)], or
    [setBusinessId(businessId)] and the step to the API key. *)
Inductive Outcome : Type :=
| ShowError (message : string)
| UseBusinessId (businessId : string).

(** [handleUrlSubmit] on the text of the input field. *)
Definition handleUrlSubmit (url : string) : Outcome :=
  let trimmed := trim (chars url) in
  if isEmpty trimmed then
    ShowError "Please enter a valid Yext knowledge graph URL or business ID"
  else if testAnchored (plus digit) trimmed then UseBusinessId (str trimmed)
  else if negb (includes url "yext.com") then
    ShowError
      "Please enter a valid Yext knowledge graph URL (should contain 'yext.com') or just the business ID (numbers only)"
  else
    match search reBusinessId 0 None (chars url) with
    | None =>
        ShowError
          "Could not extract business ID from URL. Please ensure the URL follows the pattern: https://www.yext.com/s/{businessId}/... or just enter the business ID directly"
    | Some businessIdMatch =>
        UseBusinessId (str (group 1 (chars url) businessIdMatch))
    end.

(** [handleSubmit] of the API key form: the key handed to
    [onApiKeySubmit], if any. *)
Definition handleSubmit (apiKey : string) : option string :=
  let trimmed := trim (chars apiKey) in
  if isEmpty trimmed then None else Some (str trimmed).

(** The body that [handleApiKeySubmit] posts to the entities route. *)
Definition requestBody (businessId apiKey : string)
  : option (option string * option string) :=
  Some (Some businessId, Some apiKey).

End Page.


(** ** The results component *)

Module Results.

(** [getConflictTypeLabel]: the heading of a detail card; the [switch] has
    no default, so any other type gives [undefined]. *)
Definition getConflictTypeLabel (type : string) : option string :=
  match type with
  | "duplicate_name" => Some "Duplicate Names"
  | "similar_address" => Some "Similar Addresses"
  | "phone_mismatch" => Some "Phone Conflicts"
  | "inconsistent_data" => Some "Data Inconsistency"
  | "faq_answer_conflict" => Some "FAQ Answer Conflicts"
  | _ => None
  end.

End Results.


(** * Sample records *)

(** A record with a type, a name and the optional text, phone and website
    fields. *)
Definition sampleRecord (type name : string)
  (description mainPhone websiteUrl : option string) : YextEntity :=
  Entity.mk None (Some name) description None None mainPhone websiteUrl
            None None None None (Some (Meta.mk None (Some type))).

(** A FAQ record with an identifier, a question and an answer. *)
Definition sampleFaq (id question answer : string) : YextEntity :=
  Entity.mk (Some id) (Some question) None None (Some answer) None None
            None None None None (Some (Meta.mk None (Some "faq"))).

(** Three restaurants on one phone number, two of them of the same name. *)
Definition sharedPhone : list YextEntity :=
  [sampleRecord "restaurant" "Alpha" None (Some "555-0100") None;
   sampleRecord "restaurant" "Alpha" None (Some "555-0100") None;
   sampleRecord "restaurant" "Beta" None (Some "555 0100") None].

Definition sharedPhoneGroup : ConflictGroup :=
  Group.mk "conflict-Alpha-Beta"
    ("Potential conflict between " +:+ dq +:+ "Alpha" +:+ dq +:+ " and "
       +:+ dq +:+ "Beta" +:+ dq)
    [Ref.mk (Some "unknown") (Some "Alpha") (Some "restaurant");
     Ref.mk (Some "unknown") (Some "Beta") (Some "restaurant")]
    [Detail.mk "mainPhone"
       [Value.mk (Some "unknown") (Some "Alpha") "555-0100";
        Value.mk (Some "unknown") (Some "Beta") "555 0100"]
       "phone_mismatch" medium
       "Different entities sharing the same phone number"]
    medium.

(** Two FAQ records with the same question and different answers. *)
Definition faq5pm : YextEntity :=
  sampleFaq "faq-1" "What are your hours?" "We close at 5pm".
Definition faq9pm : YextEntity :=
  sampleFaq "faq-2" "what are your hours" "We close at 9pm".

(** The two texts about Sundays, and two records that carry them. *)
Definition sundayOpen : string := "The store is open on Sundays".
Definition sundayClosed : string := "The store is not open on Sundays".

Definition mainStreet : YextEntity :=
  sampleRecord "product" "Main Street Store" (Some sundayOpen) None None.
Definition mainSt : YextEntity :=
  sampleRecord "product" "Main St Store" (Some sundayClosed) None None.


(** Two records of different names whose phone and website fields are
    empty strings. *)
Definition alphaNoContact : YextEntity :=
  sampleRecord "restaurant" "Alpha" None (Some "") (Some "").
Definition betaNoContact : YextEntity :=
  sampleRecord "restaurant" "Beta" None (Some "") (Some "").

(** Two records of different, dissimilar names on one phone number and one
    website. *)
Definition alphaGrill : YextEntity :=
  sampleRecord "restaurant" "Alpha" None (Some "(555) 0100")
               (Some "https://example.com").
Definition zetaGrill : YextEntity :=
  sampleRecord "restaurant" "Zeta Grill" None (Some "555-0100")
               (Some "https://example.com").

(** * Auxiliary definitions for the proofs *)

(** A nested minimum is below each of its leaves. *)
Ltac min_le :=
  solve [ lia
        | etransitivity; [apply Nat.le_min_l|]; min_le
        | etransitivity; [apply Nat.le_min_r|]; min_le ].

(** [edits a b n]: [a] can be turned into [b] by insertions, deletions and
    substitutions of one character, [n] of them in all. *)
Inductive edits : list ascii -> list ascii -> nat -> Prop :=
| edits_nil : edits [] [] 0
| edits_insert (y : ascii) (a b : list ascii) (n : nat) :
    edits a b n -> edits a (y :: b) (S n)
| edits_delete (x : ascii) (a b : list ascii) (n : nat) :
    edits a b n -> edits (x :: a) b (S n)
| edits_replace (x y : ascii) (a b : list ascii) (n : nat) :
    edits a b n -> edits (x :: a) (y :: b) (n + substCost x y).

(** Row [length t] of the table, in terms of the distance: the cell of
    column [length p], and the cells to its right. *)
Fixpoint levTail (p rest t : list ascii) : list nat :=
  match rest with
  | [] => []
  | a :: r => levenshtein (p ++ [a]) t :: levTail (p ++ [a]) r t
  end.

Definition levRow (p rest t : list ascii) : list nat :=
  levenshtein p t :: levTail p rest t.

(** The characters a normalised string is made of: word characters and
    white space that [toLowerCase] leaves alone. *)
Definition normalChar (c : ascii) : bool :=
  (isWordChar c || isSpace c) && Ascii.eqb (lowerChar c) c.

(** Every white-space character is a single space, none follows another;
    [afterSpace] says that the list comes right after one. *)
Fixpoint tidy (afterSpace : bool) (l : list ascii) : bool :=
  match l with
  | [] => true
  | c :: l' =>
      if isSpace c then Ascii.eqb c " " && negb afterSpace && tidy true l'
      else tidy false l'
  end.

Definition headNotSpace (l : list ascii) : bool :=
  match l with
  | [] => true
  | c :: _ => negb (isSpace c)
  end.

(** The order [high > medium > low] and the greatest severity of a list of
    details. *)
Definition severityRank (s : Severity) : nat :=
  match s with high => 2 | medium => 1 | low => 0 end.

Definition severityMax (a b : Severity) : Severity :=
  if (severityRank a <? severityRank b)%nat then b else a.

Definition maxSeverity (ds : list ConflictDetail) : Severity :=
  fold_right (fun d acc => severityMax (Detail.severity d) acc) low ds.

(** The conflict types of the content check. *)
Definition contentConflictTypes : list string :=
  ["body_content_contradiction"; "content_contradiction";
   "description_contradiction"; "body_content_conflict"; "content_conflict";
   "description_conflict"; "inconsistent_data"].

Definition hasConflictType (t : string) (d : ConflictDetail) : bool :=
  String.eqb (Detail.conflictType d) t.

Definition isContentDetail (d : ConflictDetail) : bool :=
  existsb (fun t => hasConflictType t d) contentConflictTypes.

(** The identifiers of the entities of all groups, in order: those that
    pass [keep]. *)
Definition idsOf (keep : option string -> option string)
  (conflicts : list ConflictGroup) : list string :=
  flat_map (fun c =>
    flat_map (fun r => match keep (Ref.id r) with Some i => [i] | None => [] end)
             (Group.entities c))
    conflicts.

(** All identifiers that are present, and those that are not empty. *)
Definition definedIds : list ConflictGroup -> list string := idsOf (fun o => o).
Definition nonEmptyIds : list ConflictGroup -> list string := idsOf truthy.

(** A group that names a record with an empty identifier. *)
Definition emptyIdGroup : ConflictGroup :=
  Group.mk "conflict-Alpha-Beta" "Potential conflict"
    [Ref.mk (Some "") (Some "Alpha") (Some "restaurant");
     Ref.mk (Some "b") (Some "Beta") (Some "restaurant")]
    [Detail.mk "mainPhone"
       [Value.mk (Some "") (Some "Alpha") "555-0100";
        Value.mk (Some "b") (Some "Beta") "555 0100"]
       "phone_mismatch" medium
       "Different entities sharing the same phone number"]
    medium.

(** The group stored under a key of an insertion-ordered map (empty when the
    key is absent). *)
Fixpoint groupOf (key : string) (groups : list (string * list YextEntity))
  : list YextEntity :=
  match groups with
  | [] => []
  | (k, es) :: groups' => if String.eqb k key then es else groupOf key groups'
  end.

(** The group that the FAQ path reports for a question. *)
Definition isGroupFor (question : string) (g : ConflictGroup) : bool :=
  String.eqb (Group.id g) ("faq-conflict-" +:+ question).

(** The FAQ records of a list that ask a given question, in input order. *)
Definition faqsAsking (question : string) (entities : list YextEntity)
  : list YextEntity :=
  List.filter (fun e => String.eqb (faqQuestion e) question)
              (List.filter isFaq entities).

(** The characters of a normalised string: a lower-case letter, a digit, the
    underscore or the space. *)
Definition isNormalOutput (c : ascii) : bool :=
  inRange 97 122 c || isDigit c || Ascii.eqb c "_" || Ascii.eqb c " ".

(** The records that [detectConflicts] leaves out of both paths: those of a
    location or bufo type. *)
Definition isLeftOut (e : YextEntity) : bool :=
  hasType e ["location"; "ce_location"; "bufo"; "ce_bufo"].

(** A detail with its values in reverse order. *)
Definition swapValues (d : ConflictDetail) : ConflictDetail :=
  Detail.mk (Detail.field d) (rev (Detail.values d)) (Detail.conflictType d)
            (Detail.severity d) (Detail.description d).


(** All characters, and a sufficient test that every match of an expression
    consumes a character of the class [q]. *)
Definition allAscii : list ascii := map ascii_of_nat (seq 0 256).

Fixpoint consumes (q : ascii -> bool) (r : regex) : bool :=
  match r with
  | Eps | Bol | Star _ _ => false
  | Chr p => forallb (fun c => implb (p c) (q c)) allAscii
  | Seq r1 r2 => consumes q r1 || consumes q r2
  | Alt r1 r2 => consumes q r1 && consumes q r2
  | Group _ r' => consumes q r'
  end.

(** The characters that the expressions of [extractTextContent] look for:
    angle brackets, asterisk, underscore, backquote, hash, opening square
    bracket, hyphen, plus, the line feed and the digits. *)
Definition isMarkupChar (c : ascii) : bool :=
  existsb (Ascii.eqb c) (chars "<>*_`#[-+") || Ascii.eqb c newline || isDigit c.

Definition isPlainText (s : string) : bool :=
  forallb (fun c => negb (isMarkupChar c)) (chars s).


(** The types on which the two variants of the detector differ: the [ce_]
    FAQ and location types, the bufo types and the book types. *)
Definition isNewerType (e : YextEntity) : bool :=
  hasType e ["ce_faq"; "ce_location"; "bufo"; "ce_bufo"; "book"; "ce_book"].


(** The records of the pages [first], ..., [first + n - 1] of a service, in
    order (nothing for a page that is not ok). *)
Definition pageEntities (r : Route.FetchResult) : list YextEntity :=
  match r with Route.Ok entities _ => entities | _ => [] end.

Definition pageCount (r : Route.FetchResult) : nat :=
  match r with Route.Ok _ totalCount => totalCount | _ => 0 end.

Definition isOk (r : Route.FetchResult) : bool :=
  match r with Route.Ok _ _ => true | _ => false end.

Definition pagesFrom (fetch : nat -> Route.FetchResult) (first n : nat)
  : list YextEntity :=
  flat_map (fun page => pageEntities (fetch ((page - 1) * Route.limit)))
           (seq first n).

(** A service with a single short page. *)
Definition onePage (entities : list YextEntity) (_ : nat) : Route.FetchResult :=
  Route.Ok entities (length entities).


(** The words of an expression, whatever the position they stand at. *)
Inductive lang : regex -> list ascii -> Prop :=
| lang_Eps : lang Eps []
| lang_Chr (p : ascii -> bool) (c : ascii) : p c = true -> lang (Chr p) [c]
| lang_Bol : lang Bol []
| lang_Seq (r1 r2 : regex) (w1 w2 : list ascii) :
    lang r1 w1 -> lang r2 w2 -> lang (Seq r1 r2) (w1 ++ w2)
| lang_Alt_l (r1 r2 : regex) (w : list ascii) : lang r1 w -> lang (Alt r1 r2) w
| lang_Alt_r (r1 r2 : regex) (w : list ascii) : lang r2 w -> lang (Alt r1 r2) w
| lang_Star_nil (greedy : bool) (r : regex) : lang (Star greedy r) []
| lang_Star_cons (greedy : bool) (r : regex) (w1 w2 : list ascii) :
    lang r w1 -> lang (Star greedy r) w2 -> lang (Star greedy r) (w1 ++ w2)
| lang_Group (n : nat) (r : regex) (w : list ascii) :
    lang r w -> lang (Group n r) w.

(** The loop of a repetition in [rmatch], by itself. *)
Definition starLoop (greedy : bool) (r' : regex) (k : mstate -> option mstate)
  : nat -> mstate -> option mstate :=
  fix loop (fuel : nat) (st : mstate) : option mstate :=
    match fuel with
    | O => k st
    | S fuel' =>
        let again :=
          rmatch r' st (fun st' =>
            if (pos st' =? pos st)%nat then None else loop fuel' st') in
        if greedy then orElse again (k st) else orElse (k st) again
    end.


(** A service that refuses the key. *)
Definition refused (_ : nat) : Route.FetchResult := Route.NotOk 401 "denied".


(** Each record of a list with every later one, once: what [f] gives for
    these pairs, in the order of the earlier record. *)
Fixpoint laterPairs {B} (f : YextEntity -> YextEntity -> list B)
  (l : list YextEntity) : list B :=
  match l with
  | [] => []
  | e :: l' => flat_map (f e) l' ++ laterPairs f l'
  end.


(** * Properties *)

#[local] Arguments normalizeString : simpl never.
#[local] Arguments calculateSimilarity : simpl never.
#[local] Arguments extractTextContent : simpl never.
#[local] Arguments detectSemanticContradictions : simpl never.
#[local] Arguments selectContent : simpl never.
#[local] Arguments contentDetails : simpl never.
#[local] Arguments phoneDetails : simpl never.
#[local] Arguments urlDetails : simpl never.
#[local] Arguments pairDetails : simpl never.
#[local] Arguments pairConflicts : simpl never.
#[local] Arguments faqGroupConflicts : simpl never.
#[local] Arguments typeKey : simpl never.
#[local] Arguments faqQuestion : simpl never.
#[local] Arguments faqAnswer : simpl never.

(** ** The edit distance *)

Section Levenshtein.

Lemma levenshtein_nil_l (b : list ascii) : levenshtein [] b = length b.
Proof. reflexivity. Qed.

Lemma levenshtein_nil_r (a : list ascii) : levenshtein a [] = length a.
Proof. destruct a; reflexivity. Qed.

Lemma levenshtein_cons (x y : ascii) (a b : list ascii) :
  levenshtein (x :: a) (y :: b)
  = min3 (levenshtein a (y :: b) + 1) (levenshtein (x :: a) b + 1)
         (levenshtein a b + substCost x y).
Proof. reflexivity. Qed.

Lemma substCost_sym (x y : ascii) : substCost x y = substCost y x.
Proof. unfold substCost. now rewrite Ascii.eqb_sym. Qed.

Lemma substCost_le (x y : ascii) : substCost x y <= 1.
Proof. unfold substCost. destruct (Ascii.eqb x y); lia. Qed.

Lemma substCost_refl (x : ascii) : substCost x x = 0.
Proof. unfold substCost. now rewrite Ascii.eqb_refl. Qed.

Lemma levenshtein_sym (a b : list ascii) : levenshtein a b = levenshtein b a.
Proof.
  revert b. induction a as [|x a IHa]; intros b.
  - now rewrite levenshtein_nil_r.
  - induction b as [|y b IHb].
    + reflexivity.
    + rewrite !levenshtein_cons, IHb, (IHa (y :: b)), (IHa b),
        (substCost_sym x y).
      unfold min3. lia.
Qed.

Lemma levenshtein_refl (a : list ascii) : levenshtein a a = 0.
Proof.
  induction a as [|x a IH]; [reflexivity|].
  rewrite levenshtein_cons, IH, substCost_refl. unfold min3. lia.
Qed.

Lemma levenshtein_le_max (a b : list ascii) :
  levenshtein a b <= Nat.max (length a) (length b).
Proof.
  revert b. induction a as [|x a IHa]; intros b.
  - simpl. lia.
  - destruct b as [|y b].
    + simpl. lia.
    + rewrite levenshtein_cons. specialize (IHa b).
      pose proof (substCost_le x y). unfold min3. simpl length. lia.
Qed.

(** The recurrence gives the least number of edits. *)
Lemma levenshtein_edits (a b : list ascii) : edits a b (levenshtein a b).
Proof.
  revert b. induction a as [|x a IHa]; intros b.
  - induction b as [|y b IHb]; [constructor|].
    rewrite levenshtein_nil_l in *. simpl length. now constructor.
  - induction b as [|y b IHb].
    + rewrite levenshtein_nil_r. simpl length. constructor.
      specialize (IHa []). now rewrite levenshtein_nil_r in IHa.
    + rewrite levenshtein_cons. unfold min3.
      destruct (Nat.min_spec (levenshtein a (y :: b) + 1)
                             (levenshtein (x :: a) b + 1)) as [[_ ->]|[_ ->]];
        match goal with
        | |- edits _ _ (Nat.min ?u ?v) =>
            destruct (Nat.min_spec u v) as [[_ ->]|[_ ->]]
        end;
        rewrite ?Nat.add_1_r; try (constructor; auto; fail).
Qed.

Lemma levenshtein_least (a b : list ascii) (n : nat) :
  edits a b n -> levenshtein a b <= n.
Proof.
  induction 1 as [|y a b n _ IH|x a b n _ IH|x y a b n _ IH].
  - reflexivity.
  - destruct a as [|x a]; [simpl in *; lia|].
    rewrite levenshtein_cons. unfold min3. lia.
  - destruct b as [|y b]; [rewrite levenshtein_nil_r in *; simpl; lia|].
    rewrite levenshtein_cons. unfold min3. lia.
  - rewrite levenshtein_cons. unfold min3. lia.
Qed.

(** The recurrence also holds on the last characters: this is the form in
    which the table is filled, prefix by prefix. *)
Lemma levenshtein_snoc_nil (x y : ascii) (b : list ascii) :
  levenshtein [x] (b ++ [y])
  = min3 (length (b ++ [y]) + 1) (levenshtein [x] b + 1)
         (length b + substCost x y).
Proof.
  induction b as [|y0 b IH].
  - simpl. unfold min3. pose proof (substCost_le x y). lia.
  - change ((y0 :: b) ++ [y]) with (y0 :: (b ++ [y])).
    rewrite !levenshtein_cons, IH, !levenshtein_nil_l.
    rewrite !length_app. simpl length. unfold min3. lia.
Qed.

Lemma levenshtein_snoc (x y : ascii) (a b : list ascii) :
  levenshtein (a ++ [x]) (b ++ [y])
  = min3 (levenshtein a (b ++ [y]) + 1) (levenshtein (a ++ [x]) b + 1)
         (levenshtein a b + substCost x y).
Proof.
  revert b. induction a as [|x0 a IHa]; intros b.
  - simpl app at 1 3. rewrite levenshtein_snoc_nil. reflexivity.
  - induction b as [|y0 b IHb].
    + change ([] ++ [y]) with [y].
      rewrite (levenshtein_sym _ [y]), (levenshtein_sym (x0 :: a) [y]).
      rewrite (levenshtein_snoc_nil y x (x0 :: a)).
      rewrite !levenshtein_nil_r, (substCost_sym y x).
      unfold min3. lia.
    + change ((x0 :: a) ++ [x]) with (x0 :: (a ++ [x])) in *.
      change ((y0 :: b) ++ [y]) with (y0 :: (b ++ [y])).
      rewrite !levenshtein_cons.
      rewrite IHb.
      pose proof (IHa (y0 :: b)) as H1.
      change ((y0 :: b) ++ [y]) with (y0 :: (b ++ [y])) in H1.
      rewrite H1, (IHa b).
      generalize (substCost x y) (substCost x0 y0).
      repeat match goal with
             | |- context [levenshtein ?u ?v] =>
                 generalize (levenshtein u v)
             end.
      intros. unfold min3. rewrite <- !Nat.add_min_distr_r.
      apply Nat.le_antisymm; repeat apply Nat.min_glb; min_le.
Qed.

(** The table holds the distances between the prefixes. *)
Lemma fillRow_levTail (c2 : ascii) (rest p t : list ascii) :
  fillRow c2 rest (levRow p rest t) (levenshtein p (t ++ [c2]))
  = levTail p rest (t ++ [c2]).
Proof.
  revert p. induction rest as [|a r IH]; intros p; [reflexivity|].
  unfold levRow. simpl levTail. cbn [fillRow].
  rewrite <- levenshtein_snoc. f_equal. apply IH.
Qed.

Lemma seq_levRow (p rest : list ascii) :
  seq (length p) (S (length rest)) = levRow p rest [].
Proof.
  revert p. induction rest as [|a r IH]; intros p.
  - unfold levRow. simpl. now rewrite levenshtein_nil_r.
  - specialize (IH (p ++ [a])). rewrite length_app in IH. simpl in IH.
    replace (length p + 1) with (S (length p)) in IH by lia.
    unfold levRow in *. simpl levTail. simpl length.
    rewrite (levenshtein_nil_r p). cbn [seq]. f_equal. exact IH.
Qed.

Lemma fillMatrix_levRow (s1 s2 t : list ascii) :
  nth (length s2)
      (levRow [] s1 t :: fillMatrix s1 s2 (S (length t)) (levRow [] s1 t)) []
  = levRow [] s1 (t ++ s2).
Proof.
  revert t. induction s2 as [|c2 s2 IH]; intros t.
  - simpl. now rewrite app_nil_r.
  - cbn [length nth fillMatrix].
    assert (Hrow : S (length t) :: fillRow c2 s1 (levRow [] s1 t) (S (length t))
                   = levRow [] s1 (t ++ [c2])).
    { unfold levRow at 2. rewrite levenshtein_nil_l, length_app. simpl length.
      replace (length t + 1) with (S (length t)) by lia. f_equal.
      rewrite <- (fillRow_levTail c2 s1 [] t), levenshtein_nil_l, length_app.
      simpl length. now replace (length t + 1) with (S (length t)) by lia. }
    rewrite Hrow. specialize (IH (t ++ [c2])).
    rewrite length_app in IH. simpl length in IH.
    replace (length t + 1) with (S (length t)) in IH by lia.
    rewrite <- app_assoc in IH. exact IH.
Qed.

Lemma nth_levRow (rest p t : list ascii) :
  nth (length rest) (levRow p rest t) 0 = levenshtein (p ++ rest) t.
Proof.
  revert p. induction rest as [|a r IH]; intros p.
  - simpl. now rewrite app_nil_r.
  - specialize (IH (p ++ [a])). rewrite <- app_assoc in IH. exact IH.
Qed.

(** The dynamic programme computes the Levenshtein distance. *)
Lemma distance_levenshtein (s1 s2 : list ascii) :
  distance s1 s2 = levenshtein s1 s2.
Proof.
  unfold distance, matrix. cbv zeta.
  change (seq 0 (S (length s1))) with (seq (length (@nil ascii)) (S (length s1))).
  rewrite (seq_levRow [] s1).
  change 1 with (S (length (@nil ascii))).
  rewrite (fillMatrix_levRow s1 s2 []).
  apply (nth_levRow s1 [] s2).
Qed.

End Levenshtein.

(** ** Similarity *)

Section Similarity.

Lemma length_chars (s : string) : length (chars s) = String.length s.
Proof. induction s as [|c s IH]; simpl; [reflexivity | now rewrite IH]. Qed.

Lemma ratio_div (num : Z) (den : nat) :
  (0 < den)%nat ->
  (ratio num den == inject_Z num / inject_Z (Z.of_nat den))%Q.
Proof.
  intros Hden. unfold ratio. rewrite Qmake_Qdiv.
  replace (Z.pos (Pos.of_nat den)) with (Z.of_nat den) by lia. reflexivity.
Qed.

Lemma ratio_bounds (m d : nat) :
  (0 < m)%nat -> (d <= m)%nat ->
  (0 <= ratio (Z.of_nat m - Z.of_nat d) m <= 1)%Q.
Proof.
  intros Hm Hd. unfold ratio, Qle. simpl. split; lia.
Qed.

(** What [calculateSimilarity] returns, case by case. *)
Lemma calculateSimilarity_unfold (s1 s2 : string) :
  calculateSimilarity s1 s2
  = let len1 := length (chars s1) in
    let len2 := length (chars s2) in
    if (len1 =? 0)%nat then (if (len2 =? 0)%nat then 1%Q else 0%Q)
    else if (len2 =? 0)%nat then 0%Q
    else ratio (Z.of_nat (Nat.max len1 len2)
                - Z.of_nat (levenshtein (chars s1) (chars s2)))
               (Nat.max len1 len2).
Proof.
  unfold calculateSimilarity. cbv zeta.
  destruct (length (chars s1) =? 0)%nat eqn:H1; [reflexivity|].
  destruct (length (chars s2) =? 0)%nat eqn:H2; [reflexivity|].
  apply Nat.eqb_neq in H1, H2.
  destruct (Nat.max (length (chars s1)) (length (chars s2)) =? 0)%nat eqn:H3.
  - apply Nat.eqb_eq in H3. lia.
  - now rewrite distance_levenshtein.
Qed.

End Similarity.

(** C7. [calculateSimilarity] is 1 on equal strings and on two empty
    strings, 0 on the empty string against ["abc"], symmetric, equal to
    [(max(len1, len2) - distance) / max(len1, len2)] for the Levenshtein
    distance whenever a string is not empty (and 1 by the special rule when
    both are), and it lies between 0 and 1. *)
Theorem calculateSimilarity_properties :
  (forall s, calculateSimilarity s s == 1)%Q
  /\ calculateSimilarity "" "" = 1%Q
  /\ calculateSimilarity "" "abc" = 0%Q
  /\ (forall s1 s2, calculateSimilarity s1 s2 = calculateSimilarity s2 s1)
  /\ (forall s1 s2,
        let maxLen := Nat.max (String.length s1) (String.length s2) in
        calculateSimilarity s1 s2
        == if (maxLen =? 0)%nat then 1
           else (inject_Z (Z.of_nat maxLen)
                 - inject_Z (Z.of_nat (levenshtein (chars s1) (chars s2))))
                / inject_Z (Z.of_nat maxLen))%Q
  /\ (forall s1 s2, 0 <= calculateSimilarity s1 s2 <= 1)%Q.
Proof.
  repeat split.
  - intros s. rewrite calculateSimilarity_unfold. cbv zeta.
    destruct (length (chars s) =? 0)%nat eqn:H; [reflexivity|].
    apply Nat.eqb_neq in H.
    rewrite levenshtein_refl, Nat.max_id. unfold ratio, Qeq. simpl. lia.
  - intros s1 s2. rewrite !calculateSimilarity_unfold. cbv zeta.
    rewrite (levenshtein_sym (chars s2)), (Nat.max_comm (length (chars s2))).
    destruct (length (chars s1) =? 0)%nat, (length (chars s2) =? 0)%nat;
      reflexivity.
  - intros s1 s2 maxLen. subst maxLen. rewrite calculateSimilarity_unfold.
    cbv zeta. rewrite <- !length_chars.
    destruct (Nat.eqb_spec (length (chars s1)) 0) as [H1|H1];
      destruct (Nat.eqb_spec (length (chars s2)) 0) as [H2|H2].
    + rewrite H1, H2. reflexivity.
    + rewrite H1. cbn [Nat.max].
      destruct (Nat.eqb_spec (length (chars s2)) 0) as [H3|H3]; [lia|].
      destruct (chars s1); [|discriminate]. rewrite levenshtein_nil_l.
      unfold Qminus. rewrite Qplus_opp_r. unfold Qdiv. now rewrite Qmult_0_l.
    + rewrite H2, Nat.max_0_r.
      destruct (Nat.eqb_spec (length (chars s1)) 0) as [H3|H3]; [lia|].
      destruct (chars s2); [|discriminate]. rewrite levenshtein_nil_r.
      unfold Qminus. rewrite Qplus_opp_r. unfold Qdiv. now rewrite Qmult_0_l.
    + destruct (Nat.eqb_spec (Nat.max (length (chars s1)) (length (chars s2))) 0)
        as [H3|H3]; [lia|].
      rewrite ratio_div by lia. unfold Qminus, Z.sub.
      now rewrite inject_Z_plus, inject_Z_opp.
  - rewrite calculateSimilarity_unfold. cbv zeta.
    destruct (length (chars s1) =? 0)%nat eqn:H1;
      [destruct (length (chars s2) =? 0)%nat; discriminate|].
    destruct (length (chars s2) =? 0)%nat eqn:H2; [discriminate|].
    apply Nat.eqb_neq in H1.
    apply ratio_bounds; [lia | apply levenshtein_le_max].
  - rewrite calculateSimilarity_unfold. cbv zeta.
    destruct (length (chars s1) =? 0)%nat eqn:H1;
      [destruct (length (chars s2) =? 0)%nat; discriminate|].
    destruct (length (chars s2) =? 0)%nat eqn:H2; [discriminate|].
    apply Nat.eqb_neq in H1.
    apply ratio_bounds; [lia | apply levenshtein_le_max].
Qed.

(** ** Normalisation *)

Section Normalisation.

Lemma chars_str (l : list ascii) : chars (str l) = l.
Proof. apply list_ascii_of_string_of_list_ascii. Qed.

Lemma lowerChar_normal (c : ascii) :
  isWordChar (lowerChar c) || isSpace (lowerChar c) = true ->
  normalChar (lowerChar c) = true.
Proof. destruct c as [[] [] [] [] [] [] [] []]; vm_compute; auto. Qed.

Lemma Forall_trimStart (P : ascii -> Prop) (l : list ascii) :
  Forall P l -> Forall P (trimStart l).
Proof.
  induction 1 as [|c l Hc Hl IH]; simpl; [constructor|].
  destruct (isSpace c); [exact IH | now constructor].
Qed.

Lemma Forall_trimEnd (P : ascii -> Prop) (l : list ascii) :
  Forall P l -> Forall P (trimEnd l).
Proof.
  induction 1 as [|c l Hc Hl IH]; simpl; [constructor|].
  destruct (trimEnd l) as [|d r].
  - destruct (isSpace c); repeat constructor; assumption.
  - now constructor.
Qed.

Lemma Forall_collapseSpaces (b : bool) (l : list ascii) :
  Forall (fun c => normalChar c = true) l ->
  Forall (fun c => normalChar c = true) (collapseSpaces b l).
Proof.
  intros H. revert b. induction H as [|c l Hc Hl IH]; intros b; simpl;
    [constructor|].
  destruct (isSpace c); [destruct b|]; try constructor; auto.
Qed.

Lemma normalizeChars_normal (l : list ascii) :
  Forall (fun c => normalChar c = true) (normalizeChars l).
Proof.
  unfold normalizeChars. apply Forall_collapseSpaces.
  unfold removeNonWordNonSpace.
  assert (H : Forall (fun c => exists d, c = lowerChar d)
                     (trim (toLowerCase l))).
  { apply Forall_trimEnd, Forall_trimStart. unfold toLowerCase.
    induction l; simpl; constructor; eauto. }
  induction H as [|c t [d ->] Ht IH]; simpl; [constructor|].
  destruct (isWordChar (lowerChar d) || isSpace (lowerChar d)) eqn:E;
    [|exact IH].
  constructor; [now apply lowerChar_normal | exact IH].
Qed.

Lemma tidy_collapseSpaces (b : bool) (l : list ascii) :
  tidy b (collapseSpaces b l) = true.
Proof.
  revert b. induction l as [|c l IH]; intros b; simpl; [reflexivity|].
  destruct (isSpace c) eqn:E.
  - destruct b; [apply IH|]. simpl. apply IH.
  - simpl. rewrite E. apply IH.
Qed.

Lemma collapseSpaces_tidy (b : bool) (l : list ascii) :
  tidy b l = true -> collapseSpaces b l = l.
Proof.
  revert b. induction l as [|c l IH]; intros b; simpl; [reflexivity|].
  destruct (isSpace c).
  - intros H. apply andb_prop in H as [H Hl]. apply andb_prop in H as [Hc Hb].
    apply Ascii.eqb_eq in Hc. destruct b; [discriminate|].
    rewrite (IH true Hl). now subst c.
  - intros H. now rewrite (IH false H).
Qed.

Lemma tidy_trimStart (b : bool) (l : list ascii) :
  tidy b l = true -> tidy false (trimStart l) = true.
Proof.
  revert b. induction l as [|c l IH]; intros b; simpl; [reflexivity|].
  destruct (isSpace c) eqn:E.
  - intros H. apply andb_prop in H as [_ Hl]. exact (IH true Hl).
  - intros H. simpl. now rewrite E.
Qed.

Lemma tidy_trimEnd (b : bool) (l : list ascii) :
  tidy b l = true -> tidy b (trimEnd l) = true.
Proof.
  revert b. induction l as [|c l IH]; intros b; simpl; [reflexivity|].
  destruct (isSpace c) eqn:E.
  - intros H. apply andb_prop in H as [H Hl]. specialize (IH true Hl).
    destruct (trimEnd l) as [|d r]; [reflexivity|].
    simpl in *. rewrite E, H. exact IH.
  - intros H. specialize (IH false H).
    destruct (trimEnd l) as [|d r]; simpl in *; rewrite E; [reflexivity|].
    exact IH.
Qed.

Lemma toLowerCase_normal (l : list ascii) :
  Forall (fun c => normalChar c = true) l -> toLowerCase l = l.
Proof.
  induction 1 as [|c l Hc Hl IH]; simpl; [reflexivity|].
  apply andb_prop in Hc as [_ Hc]. apply Ascii.eqb_eq in Hc.
  now rewrite Hc, IH.
Qed.

Lemma removeNonWordNonSpace_normal (l : list ascii) :
  Forall (fun c => normalChar c = true) l -> removeNonWordNonSpace l = l.
Proof.
  induction 1 as [|c l Hc Hl IH]; simpl; [reflexivity|].
  apply andb_prop in Hc as [Hc _]. now rewrite Hc, IH.
Qed.

(** On a string that is already in normal form only [trim] acts. *)
Lemma normalizeChars_trim (l : list ascii) :
  Forall (fun c => normalChar c = true) l -> tidy false l = true ->
  normalizeChars l = trim l.
Proof.
  intros Hn Ht. unfold normalizeChars.
  rewrite (toLowerCase_normal l Hn).
  rewrite removeNonWordNonSpace_normal
    by (apply Forall_trimEnd, Forall_trimStart, Hn).
  apply collapseSpaces_tidy. unfold trim.
  apply tidy_trimEnd. exact (tidy_trimStart false l Ht).
Qed.

Lemma headNotSpace_trimStart (l : list ascii) :
  headNotSpace (trimStart l) = true.
Proof.
  induction l as [|c l IH]; simpl; [reflexivity|].
  destruct (isSpace c) eqn:E; [exact IH | simpl; now rewrite E].
Qed.

Lemma headNotSpace_trimEnd (l : list ascii) :
  headNotSpace l = true -> headNotSpace (trimEnd l) = true.
Proof.
  destruct l as [|c l]; simpl; [reflexivity|]. intros H.
  destruct (trimEnd l); [|exact H].
  destruct (isSpace c) eqn:E; [reflexivity | simpl; now rewrite E].
Qed.

Lemma trimStart_id (l : list ascii) :
  headNotSpace l = true -> trimStart l = l.
Proof.
  destruct l as [|c l]; simpl; [reflexivity|].
  now destruct (isSpace c).
Qed.

Lemma trimEnd_idem (l : list ascii) : trimEnd (trimEnd l) = trimEnd l.
Proof.
  induction l as [|c l IH]; simpl; [reflexivity|].
  destruct (trimEnd l) as [|d r] eqn:E.
  - destruct (isSpace c) eqn:Ec; simpl; [reflexivity | now rewrite Ec].
  - change (trimEnd (c :: d :: r)) with
      (match trimEnd (d :: r) with
       | [] => if isSpace c then [] else [c]
       | x => c :: x
       end).
    now rewrite IH.
Qed.

Lemma trim_idem (l : list ascii) : trim (trim l) = trim l.
Proof.
  unfold trim.
  rewrite (trimStart_id (trimEnd (trimStart l)))
    by apply headNotSpace_trimEnd, headNotSpace_trimStart.
  apply trimEnd_idem.
Qed.

Lemma normalizeChars_twice (l : list ascii) :
  normalizeChars (normalizeChars l) = trim (normalizeChars l).
Proof.
  apply normalizeChars_trim; [apply normalizeChars_normal|].
  apply tidy_collapseSpaces.
Qed.

End Normalisation.

(** How far the code is from idempotent.  A second [normalizeString] only
    trims the result of the first (stripping punctuation after [trim] can
    leave a space at either end), and from the second application on the
    function is idempotent. *)
Theorem normalizeString_twice (s : string) :
  normalizeString (normalizeString s) = str (trim (chars (normalizeString s)))
  /\ normalizeString (normalizeString (normalizeString s))
     = normalizeString (normalizeString s).
Proof.
  unfold normalizeString. rewrite !chars_str, !normalizeChars_twice. split.
  - reflexivity.
  - f_equal. rewrite normalizeChars_trim.
    + apply trim_idem.
    + apply Forall_trimEnd, Forall_trimStart, normalizeChars_normal.
    + apply tidy_trimEnd. eapply tidy_trimStart. apply tidy_collapseSpaces.
Qed.

(** C8 at the failing input: [trim] runs before the punctuation is
    stripped, so on ["! a"] the first pass leaves a leading space, which only
    a second pass trims.  The same slip makes two texts that differ in a
    space before the closing punctuation compare as different. *)
Lemma normalizeString_not_idempotent :
  normalizeString "! a" = " a"
  /\ normalizeString (normalizeString "! a") = "a"
  /\ normalizeString (normalizeString "! a") <> normalizeString "! a"
  /\ normalizeString "Hello !" = "hello "
  /\ normalizeString "Hello!" = "hello"
  /\ normalizeString "Hello !" <> normalizeString "Hello!".
Proof. repeat split; discriminate. Qed.

(** ** The shape of the groups *)

Section Groups.

Lemma severity_rollup (ds : list ConflictDetail) :
  (if someSeverity high ds then high
   else if someSeverity medium ds then medium else low)
  = maxSeverity ds.
Proof.
  induction ds as [|d ds IH]; [reflexivity|].
  unfold someSeverity in *. simpl. rewrite <- IH.
  destruct (Detail.severity d); simpl;
    repeat match goal with
           | |- context [existsb ?f ds] => destruct (existsb f ds)
           end; reflexivity.
Qed.

(** [maxSeverity] of a non-empty list is the severity of one of its details,
    and no detail ranks above it. *)
Lemma maxSeverity_upper (ds : list ConflictDetail) (d : ConflictDetail) :
  In d ds -> severityRank (Detail.severity d) <= severityRank (maxSeverity ds).
Proof.
  induction ds as [|d0 ds IH]; intros Hd; [destruct Hd|].
  cbn [maxSeverity fold_right]. fold (maxSeverity ds). unfold severityMax.
  destruct Hd as [->|Hd].
  - destruct (Nat.ltb_spec (severityRank (Detail.severity d))
                           (severityRank (maxSeverity ds))); lia.
  - specialize (IH Hd).
    destruct (Nat.ltb_spec (severityRank (Detail.severity d0))
                           (severityRank (maxSeverity ds))); lia.
Qed.

Lemma maxSeverity_attained (ds : list ConflictDetail) :
  ds <> [] -> exists d, In d ds /\ Detail.severity d = maxSeverity ds.
Proof.
  induction ds as [|d0 ds IH]; intros Hne; [contradiction|].
  cbn [maxSeverity fold_right]. fold (maxSeverity ds). unfold severityMax.
  destruct (Nat.ltb_spec (severityRank (Detail.severity d0))
                         (severityRank (maxSeverity ds))) as [Hlt|Hge].
  - destruct ds as [|d1 ds]; [simpl in Hlt; lia|].
    destruct IH as (d & Hd & Heq); [discriminate|].
    exists d. split; [now right | exact Heq].
  - exists d0. split; [now left | reflexivity].
Qed.

(** The three checks of a pair give at most one detail each. *)
Lemma contentDetails_cases (entityType : string) (e1 e2 : YextEntity) :
  contentDetails entityType e1 e2 = []
  \/ exists d, contentDetails entityType e1 e2 = [d]
               /\ isContentDetail d = true
               /\ hasConflictType "phone_mismatch" d = false
               /\ hasConflictType "url_mismatch" d = false.
Proof.
  unfold contentDetails. cbv zeta.
  destruct (gtQ _ _); [|now left].
  destruct (negb _ && negb _); [|now left].
  destruct (negb (String.eqb _ _)); simpl; [|now left].
  unfold conflictFieldAndType.
  destruct (detectSemanticContradictions _ _);
    destruct (richTruthy (Entity.body e1) && richTruthy (Entity.body e2));
    destruct (isTruthy (Entity.content e1) && isTruthy (Entity.content e2));
    destruct (isTruthy (Entity.description e1)
              && isTruthy (Entity.description e2));
    right; eexists; repeat split.
Qed.

Lemma phoneDetails_cases (e1 e2 : YextEntity) :
  phoneDetails e1 e2 = []
  \/ exists d, phoneDetails e1 e2 = [d]
               /\ Detail.conflictType d = "phone_mismatch"
               /\ Detail.severity d = medium.
Proof.
  unfold phoneDetails.
  destruct (truthy (Entity.mainPhone e1)); [|now left].
  destruct (truthy (Entity.mainPhone e2)); [|now left].
  destruct (_ && _); [|now left].
  right; eexists; repeat split.
Qed.

Lemma urlDetails_cases (e1 e2 : YextEntity) :
  urlDetails e1 e2 = []
  \/ exists d, urlDetails e1 e2 = [d]
               /\ Detail.conflictType d = "url_mismatch"
               /\ Detail.severity d = medium.
Proof.
  unfold urlDetails.
  destruct (truthy (Entity.websiteUrl e1)); [|now left].
  destruct (truthy (Entity.websiteUrl e2)); [|now left].
  destruct (_ && _); [|now left].
  right; eexists; repeat split.
Qed.

(** Where a returned group comes from. *)
Lemma in_pairConflicts (entityType : string) (e1 e2 : YextEntity)
  (g : ConflictGroup) :
  In g (pairConflicts entityType e1 e2) ->
  pairDetails entityType e1 e2 <> []
  /\ g = Group.mk
           ("conflict-" +:+ show (Entity.name e1) +:+ "-"
              +:+ show (Entity.name e2))
           ("Potential conflict between " +:+ dq +:+ show (Entity.name e1)
              +:+ dq +:+ " and " +:+ dq +:+ show (Entity.name e2) +:+ dq)
           [refOf e1; refOf e2]
           (pairDetails entityType e1 e2)
           (maxSeverity (pairDetails entityType e1 e2)).
Proof.
  unfold pairConflicts. cbv zeta. rewrite severity_rollup.
  destruct (pairDetails entityType e1 e2) as [|d ds]; simpl.
  - intros [].
  - intros [<-|[]]. split; [discriminate | reflexivity].
Qed.

Lemma in_pairwiseConflicts (entities : list YextEntity) (g : ConflictGroup) :
  In g (pairwiseConflicts entities) ->
  exists entityType e1 e2, In g (pairConflicts entityType e1 e2).
Proof.
  unfold pairwiseConflicts. cbv zeta.
  destruct (0 <? _)%nat; [|intros []].
  intros H. apply in_flat_map in H as [[entityType entityGroup] [_ H]].
  apply in_flat_map in H as [[e1 e2] [_ H]].
exists entityType, e1, e2. exact H.
Qed.

Lemma in_faqGroupConflicts (question : string) (faqs : list YextEntity)
  (g : ConflictGroup) :
  In g (faqGroupConflicts question faqs) ->
  exists d,
    Detail.conflictType d = "faq_answer_conflict"
    /\ Detail.severity d = high
    /\ g = Group.mk ("faq-conflict-" +:+ question)
             ("FAQ Conflict: " +:+ dq +:+ question +:+ dq)
             (map refOf faqs) [d] high.
Proof.
  unfold faqGroupConflicts. cbv zeta.
  destruct (1 <? length faqs)%nat; [|intros []].
  destruct (1 <? size _)%nat; [|intros []].
  intros [<-|[]]. eexists. refine (conj _ (conj _ eq_refl)); reflexivity.
Qed.

Lemma in_faqConflicts (entities : list YextEntity) (g : ConflictGroup) :
  In g (faqConflicts entities) ->
  exists question faqs, In g (faqGroupConflicts question faqs).
Proof.
  unfold faqConflicts. cbv zeta.
  destruct (0 <? _)%nat; [|intros []].
  intros H. apply in_flat_map in H as [[question faqs] [_ H]]. eauto.
Qed.

End Groups.

(** C5. Every group returned by [detectConflicts] has at least one detail,
    and its severity is the greatest severity among its details under
    [high > medium > low]: it is the severity of one of the details and no
    detail ranks above it.  A pair whose checks give no detail gives no
    group. *)
Theorem group_severity_is_max (entities : list YextEntity) (g : ConflictGroup)
  (Hg : In g (detectConflicts entities)) :
  Group.conflictDetails g <> []
  /\ Group.severity g = maxSeverity (Group.conflictDetails g)
  /\ (exists d, In d (Group.conflictDetails g)
                /\ Detail.severity d = Group.severity g)
  /\ (forall d, In d (Group.conflictDetails g) ->
                severityRank (Detail.severity d)
                <= severityRank (Group.severity g))
  /\ (forall entityType e1 e2,
        pairDetails entityType e1 e2 = [] ->
        pairConflicts entityType e1 e2 = []).
Proof.
  assert (Hshape : Group.conflictDetails g <> []
                   /\ Group.severity g = maxSeverity (Group.conflictDetails g)).
  { unfold detectConflicts in Hg. apply in_app_or in Hg as [Hg|Hg].
    - apply in_faqConflicts in Hg as (question & faqs & Hg).
      apply in_faqGroupConflicts in Hg as (d & _ & Hsev & ->).
      cbn [Group.conflictDetails Group.severity maxSeverity fold_right].
      split; [discriminate|]. now rewrite Hsev.
    - apply in_pairwiseConflicts in Hg as (entityType & e1 & e2 & Hg).
      apply in_pairConflicts in Hg as [Hne ->].
      cbn [Group.conflictDetails Group.severity]. now split. }
  destruct Hshape as [H1 H2]. repeat split; try assumption.
  - rewrite H2. now apply maxSeverity_attained.
  - intros d Hd. rewrite H2. now apply maxSeverity_upper.
  - intros entityType e1 e2 Hnil. unfold pairConflicts. now rewrite Hnil.
Qed.

Lemma group_severity_is_max_witness :
  Group.conflictDetails sharedPhoneGroup <> []
  /\ Group.severity sharedPhoneGroup
     = maxSeverity (Group.conflictDetails sharedPhoneGroup)
  /\ (exists d, In d (Group.conflictDetails sharedPhoneGroup)
                /\ Detail.severity d = Group.severity sharedPhoneGroup)
  /\ (forall d, In d (Group.conflictDetails sharedPhoneGroup) ->
                severityRank (Detail.severity d)
                <= severityRank (Group.severity sharedPhoneGroup))
  /\ (forall entityType e1 e2,
        pairDetails entityType e1 e2 = [] ->
        pairConflicts entityType e1 e2 = []).
Proof.
  apply (group_severity_is_max sharedPhone sharedPhoneGroup).
  vm_compute. left. reflexivity.
Defined.

(** C10. A group of the pairwise path names exactly two entities and holds
    at most three details: at most one of the content check, at most one
    [phone_mismatch] and at most one [url_mismatch]. *)
Theorem pairwise_group_shape (entities : list YextEntity) (g : ConflictGroup)
  (Hg : In g (pairwiseConflicts entities)) :
  length (Group.entities g) = 2
  /\ length (Group.conflictDetails g) <= 3
  /\ length (List.filter isContentDetail (Group.conflictDetails g)) <= 1
  /\ length (List.filter (hasConflictType "phone_mismatch")
                         (Group.conflictDetails g)) <= 1
  /\ length (List.filter (hasConflictType "url_mismatch")
                         (Group.conflictDetails g)) <= 1.
Proof.
  apply in_pairwiseConflicts in Hg as (entityType & e1 & e2 & Hg).
  apply in_pairConflicts in Hg as [_ ->]. cbn [Group.entities Group.conflictDetails].
  split; [reflexivity|]. unfold pairDetails.
  destruct (contentDetails_cases entityType e1 e2)
    as [-> | (dc & -> & Hc & Hcp & Hcu)];
    destruct (phoneDetails_cases e1 e2) as [-> | (dp & -> & Hp & _)];
    destruct (urlDetails_cases e1 e2) as [-> | (du & -> & Hu & _)];
    cbn [app List.filter length];
    unfold isContentDetail, hasConflictType in *;
    rewrite ?Hp, ?Hu, ?Hc, ?Hcp, ?Hcu; cbn; repeat split; lia.
Qed.

Lemma pairwise_group_shape_witness :
  length (Group.entities sharedPhoneGroup) = 2
  /\ length (Group.conflictDetails sharedPhoneGroup) <= 3
  /\ length (List.filter isContentDetail
                         (Group.conflictDetails sharedPhoneGroup)) <= 1
  /\ length (List.filter (hasConflictType "phone_mismatch")
                         (Group.conflictDetails sharedPhoneGroup)) <= 1
  /\ length (List.filter (hasConflictType "url_mismatch")
                         (Group.conflictDetails sharedPhoneGroup)) <= 1.
Proof.
  apply (pairwise_group_shape sharedPhone sharedPhoneGroup).
  vm_compute. left. reflexivity.
Defined.

(** ** The summary *)

Section SummaryAggregator.

Lemma count_severities (conflicts : list ConflictGroup) :
  length (List.filter (fun c => severityEqb (Group.severity c) high) conflicts)
  + length (List.filter (fun c => severityEqb (Group.severity c) medium)
                        conflicts)
  + length (List.filter (fun c => severityEqb (Group.severity c) low) conflicts)
  = length conflicts.
Proof.
  induction conflicts as [|c cs IH]; [reflexivity|].
  simpl. destruct (Group.severity c); simpl; lia.
Qed.

Lemma fold_entities (keep : option string -> option string)
  (refs : list Ref.t) (acc : gset string) :
  fold_left (fun acc entity =>
               match keep (Ref.id entity) with
               | Some i => acc ∪ {[ i ]}
               | None => acc
               end) refs acc
  = acc ∪ list_to_set
            (flat_map (fun r => match keep (Ref.id r) with
                                | Some i => [i]
                                | None => []
                                end) refs).
Proof.
  revert acc. induction refs as [|r refs IH]; intros acc; simpl.
  - set_solver.
  - rewrite IH. destruct (keep (Ref.id r)); simpl; set_solver.
Qed.

Lemma fold_conflicts (conflicts : list ConflictGroup) (acc : gset string) :
  fold_left (fun acc conflict =>
    fold_left (fun acc entity =>
      match truthy (Ref.id entity) with
      | Some i => acc ∪ {[ i ]}
      | None => acc
      end) (Group.entities conflict) acc) conflicts acc
  = acc ∪ list_to_set (nonEmptyIds conflicts).
Proof.
  revert acc. induction conflicts as [|c cs IH]; intros acc; simpl.
  - set_solver.
  - rewrite IH, (fold_entities truthy). unfold nonEmptyIds, idsOf. simpl.
    rewrite list_to_set_app_L. set_solver.
Qed.

Lemma size_list_to_set_remove_dups (l : list string) :
  size (list_to_set l : gset string) = length (remove_dups l).
Proof.
  rewrite <- (size_list_to_set (C := gset string) (remove_dups l))
    by apply NoDup_remove_dups.
  f_equal. apply set_eq. intros x.
  now rewrite !elem_of_list_to_set, elem_of_remove_dups.
Qed.

Lemma orLit_not_empty (a : option string) (d : string) :
  d <> "" -> truthy (Some (orLit a d)) = Some (orLit a d).
Proof.
  intros Hd. unfold orLit.
  destruct a as [[|c s]|]; simpl; try reflexivity; now destruct d.
Qed.

Lemma refOf_id_truthy (e : YextEntity) :
  truthy (Ref.id (refOf e)) = Ref.id (refOf e).
Proof. apply orLit_not_empty. discriminate. Qed.

Lemma flat_map_ext_in {A B} (f g : A -> list B) (l : list A) :
  (forall x, In x l -> f x = g x) -> flat_map f l = flat_map g l.
Proof.
  induction l as [|x l IH]; intros H; simpl; [reflexivity|].
  rewrite (H x) by now left. f_equal. apply IH. intros y Hy. apply H. now right.
Qed.

(** The entities of a returned group have non-empty identifiers. *)
Lemma detectConflicts_refs (entities : list YextEntity) (g : ConflictGroup)
  (r : Ref.t) :
  In g (detectConflicts entities) -> In r (Group.entities g) ->
  exists e, r = refOf e.
Proof.
  intros Hg Hr. unfold detectConflicts in Hg. apply in_app_or in Hg as [Hg|Hg].
  - apply in_faqConflicts in Hg as (question & faqs & Hg).
    apply in_faqGroupConflicts in Hg as (d & _ & _ & ->). simpl in Hr.
    apply in_map_iff in Hr as (e & <- & _). eauto.
  - apply in_pairwiseConflicts in Hg as (entityType & e1 & e2 & Hg).
    apply in_pairConflicts in Hg as [_ ->]. simpl in Hr.
    destruct Hr as [<-|[<-|[]]]; eauto.
Qed.

Lemma detectConflicts_nonEmptyIds (entities : list YextEntity) :
  nonEmptyIds (detectConflicts entities) = definedIds (detectConflicts entities).
Proof.
  unfold nonEmptyIds, definedIds, idsOf.
  apply flat_map_ext_in. intros g Hg.
  apply flat_map_ext_in. intros r Hr.
  destruct (detectConflicts_refs entities g r Hg Hr) as [e ->].
  now rewrite refOf_id_truthy.
Qed.

End SummaryAggregator.

(** C6, as the code has it.  [totalConflicts] is the number of groups, the
    three severity counts add up to it, and [affectedEntities] is the number
    of distinct non-empty identifiers among the groups' entities (an entity
    whose [id] is absent or empty is skipped).  On the result of
    [detectConflicts] no identifier is empty, so there it is the number of
    distinct identifiers. *)
Theorem getConflictSummary_counts :
  (forall conflicts : list ConflictGroup,
     let s := getConflictSummary conflicts in
     Summary.totalConflicts s = length conflicts
     /\ Summary.highSeverity s + Summary.mediumSeverity s + Summary.lowSeverity s
        = Summary.totalConflicts s
     /\ Summary.affectedEntities s = length (remove_dups (nonEmptyIds conflicts)))
  /\ (forall entities : list YextEntity,
        Summary.affectedEntities (getConflictSummary (detectConflicts entities))
        = length (remove_dups (definedIds (detectConflicts entities)))).
Proof.
  assert (H : forall conflicts,
             Summary.affectedEntities (getConflictSummary conflicts)
             = length (remove_dups (nonEmptyIds conflicts))).
  { intros conflicts. unfold getConflictSummary. cbn [Summary.affectedEntities].
    rewrite fold_conflicts, <- size_list_to_set_remove_dups.
    f_equal. set_solver. }
  split.
  - intros conflicts s. subst s. repeat split.
    + apply count_severities.
    + apply H.
  - intros entities. now rewrite H, detectConflicts_nonEmptyIds.
Qed.

(** C6 fails as stated: [emptyIdGroup] names two distinct identifiers, the
    empty one and ["b"], and the summary counts one affected entity. *)
Lemma getConflictSummary_skips_empty_id :
  length (remove_dups (definedIds [emptyIdGroup])) = 2
  /\ Summary.affectedEntities (getConflictSummary [emptyIdGroup]) = 1
  /\ Summary.affectedEntities (getConflictSummary [emptyIdGroup])
     <> length (remove_dups (definedIds [emptyIdGroup])).
Proof. repeat split. vm_compute. discriminate. Qed.

(** ** Grouping *)

Section Grouping.

Lemma groupOf_groupPush (k k' : string) (e : YextEntity)
  (groups : list (string * list YextEntity)) :
  groupOf k' (groupPush k e groups)
  = if String.eqb k k' then groupOf k groups ++ [e] else groupOf k' groups.
Proof.
  induction groups as [|[k0 es] groups IH]; simpl.
  - now destruct (String.eqb k k').
  - destruct (String.eqb_spec k0 k) as [->|Hk0]; simpl.
    + now destruct (String.eqb k k').
    + rewrite IH. destruct (String.eqb_spec k0 k') as [->|Hk0']; [|reflexivity].
      destruct (String.eqb_spec k k') as [->|_]; [contradiction | reflexivity].
Qed.

Lemma keys_groupPush (k : string) (e : YextEntity)
  (groups : list (string * list YextEntity)) :
  List.NoDup (map fst groups) -> List.NoDup (map fst (groupPush k e groups))
  /\ (forall k', In k' (map fst (groupPush k e groups)) ->
                 k' = k \/ In k' (map fst groups)).
Proof.
  induction groups as [|[k0 es] groups IH]; simpl; intros Hnd.
  - split; [repeat constructor; intros [] | intros k' [<-|[]]; now left].
  - apply NoDup_cons_iff in Hnd as [Hin Hnd]. destruct (IH Hnd) as [IH1 IH2].
    destruct (String.eqb_spec k0 k) as [->|Hk0]; simpl.
    + split; [now constructor | intros k' Hk'; now right].
    + split.
      * constructor; [|exact IH1]. intros Hk.
        destruct (IH2 k0 Hk) as [->|Hk']; contradiction.
      * intros k' [<-|Hk']; [right; now left|].
        destruct (IH2 k' Hk'); [now left | right; now right].
Qed.

Lemma groupBy_snoc (key : YextEntity -> string) (es : list YextEntity)
  (e : YextEntity) :
  groupBy key (es ++ [e]) = groupPush (key e) e (groupBy key es).
Proof. unfold groupBy. now rewrite fold_left_app. Qed.

Lemma keys_groupBy (key : YextEntity -> string) (es : list YextEntity) :
  List.NoDup (map fst (groupBy key es)).
Proof.
  induction es as [|e es IH] using rev_ind; [constructor|].
  rewrite groupBy_snoc. now apply keys_groupPush.
Qed.

(** The group of a key holds the records of that key, in input order. *)
Lemma groupOf_groupBy (key : YextEntity -> string) (es : list YextEntity)
  (k : string) :
  groupOf k (groupBy key es)
  = List.filter (fun e => String.eqb (key e) k) es.
Proof.
  induction es as [|e es IH] using rev_ind; [reflexivity|].
  rewrite groupBy_snoc, groupOf_groupPush, List.filter_app. simpl.
  destruct (String.eqb_spec (key e) k) as [Hk|Hk].
  - rewrite <- IH. now subst k.
  - now rewrite IH, app_nil_r.
Qed.

Lemma in_groupOf (k : string) (groups : list (string * list YextEntity)) :
  groupOf k groups <> [] -> In (k, groupOf k groups) groups.
Proof.
  induction groups as [|[k0 es] groups IH]; simpl; [congruence|].
  destruct (String.eqb_spec k0 k) as [->|_]; auto.
Qed.

Lemma filter_flat_map_absent {B} (P : B -> bool)
  (f : string * list YextEntity -> list B) (k : string)
  (groups : list (string * list YextEntity)) :
  (forall k' es, k' <> k -> List.filter P (f (k', es)) = []) ->
  ~ In k (map fst groups) ->
  List.filter P (flat_map f groups) = [].
Proof.
  intros Hother. induction groups as [|[k1 es1] groups IH]; intros Hin;
    [reflexivity|].
  cbn [flat_map]. rewrite List.filter_app, Hother, IH; [reflexivity| |].
  - intros Hk. apply Hin. now right.
  - intros ->. apply Hin. now left.
Qed.

(** Among the groups of a map with distinct keys, a test that only the
    groups of one key can pass selects from that key alone. *)
Lemma filter_flat_map_key {B} (P : B -> bool)
  (f : string * list YextEntity -> list B) (k : string)
  (groups : list (string * list YextEntity)) :
  List.NoDup (map fst groups) ->
  (forall k' es, k' <> k -> List.filter P (f (k', es)) = []) ->
  groupOf k groups <> [] ->
  List.filter P (flat_map f groups) = List.filter P (f (k, groupOf k groups)).
Proof.
  intros Hnd Hother.
  induction groups as [|[k0 es] groups IH]; [simpl; congruence|].
  cbn [map fst] in Hnd. apply NoDup_cons_iff in Hnd as [Hin Hnd].
  cbn [flat_map groupOf]. rewrite List.filter_app.
  destruct (String.eqb_spec k0 k) as [->|Hk0]; intros Hne.
  - now rewrite (filter_flat_map_absent P f k groups Hother Hin), app_nil_r.
  - rewrite (Hother k0 es Hk0). simpl. apply IH; assumption.
Qed.

Lemma two_members {A} (x y : A) (l : list A) :
  In x l -> In y l -> x <> y -> (1 <? length l)%nat = true.
Proof.
  intros Hx Hy Hxy. destruct l as [|a [|b l]]; simpl in *; try tauto.
  destruct Hx as [<-|[]], Hy as [<-|[]]. contradiction.
Qed.

Lemma two_elements (a b : string) (S : gset string) :
  a ∈ S -> b ∈ S -> a <> b -> (1 <? size S)%nat = true.
Proof.
  intros Ha Hb Hab. apply Nat.ltb_lt.
  assert (H : size ({[ a ]} ∪ {[ b ]} : gset string) = 2).
  { rewrite size_union by set_solver. now rewrite !size_singleton. }
  assert (Hsub : ({[ a ]} ∪ {[ b ]} : gset string) ⊆ S) by set_solver.
  apply subseteq_size in Hsub. lia.
Qed.

Lemma pairwiseConflicts_no_faq_id (question : string)
  (entities : list YextEntity) :
  List.filter (isGroupFor question) (pairwiseConflicts entities) = [].
Proof.
  assert (H : forall g, In g (pairwiseConflicts entities) ->
                        isGroupFor question g = false).
  { intros g Hg. apply in_pairwiseConflicts in Hg as (t & e1 & e2 & Hg).
    apply in_pairConflicts in Hg as [_ ->]. reflexivity. }
  induction (pairwiseConflicts entities) as [|g gs IH]; simpl; [reflexivity|].
  rewrite (H g) by now left. apply IH. intros g' Hg'. apply H. now right.
Qed.

Lemma faqGroupConflicts_other (question k : string) (es : list YextEntity) :
  k <> question ->
  List.filter (isGroupFor question)
              ((fun '(q, faqs) => faqGroupConflicts q faqs) (k, es)) = [].
Proof.
  intros Hk. unfold faqGroupConflicts. cbv zeta.
  destruct (1 <? length es)%nat; [|reflexivity].
  destruct (1 <? size _)%nat; [|reflexivity].
  unfold isGroupFor. cbn [List.filter Group.id].
  destruct (String.eqb_spec ("faq-conflict-" +:+ k) ("faq-conflict-" +:+ question))
    as [Heq|_]; [|reflexivity].
  apply String.app_inj in Heq. contradiction.
Qed.

(** The groups of the FAQ path have distinct identifiers: one per question
    of the map. *)
Lemma faqConflicts_ids (groups : list (string * list YextEntity)) :
  List.NoDup (map fst groups) ->
  List.NoDup (map Group.id
                  (flat_map (fun '(q, faqs) => faqGroupConflicts q faqs) groups))
  /\ (forall i,
        In i (map Group.id
                  (flat_map (fun '(q, faqs) => faqGroupConflicts q faqs) groups)) ->
        exists k, In k (map fst groups) /\ i = "faq-conflict-" +:+ k).
Proof.
  induction groups as [|[k es] groups IH]; intros Hnd.
  - split; [constructor | intros i []].
  - cbn [map fst] in Hnd. apply NoDup_cons_iff in Hnd as [Hin Hnd].
    destruct (IH Hnd) as [IH1 IH2]. cbn [flat_map map fst].
    assert (Hhead : faqGroupConflicts k es = []
                    \/ exists g, faqGroupConflicts k es = [g]
                                 /\ Group.id g = "faq-conflict-" +:+ k).
    { unfold faqGroupConflicts. cbv zeta.
      destruct (1 <? length es)%nat; [|now left].
      destruct (1 <? size _)%nat; [|now left].
      right. eexists. split; reflexivity. }
    destruct Hhead as [-> | (g & -> & Hid)]; cbn [app map].
    + split; [exact IH1|]. intros i Hi.
      destruct (IH2 i Hi) as (k' & Hk' & ->). exists k'. split; [now right|reflexivity].
    + split.
      * constructor; [|exact IH1]. intros Hi.
        destruct (IH2 _ Hi) as (k' & Hk' & Heq). rewrite Hid in Heq.
        apply String.app_inj in Heq. now subst k'.
      * intros i [<-|Hi].
        -- exists k. split; [now left | exact Hid].
        -- destruct (IH2 i Hi) as (k' & Hk' & ->). exists k'.
           split; [now right | reflexivity].
Qed.

Lemma faqConflicts_distinct_ids (entities : list YextEntity) :
  List.NoDup (map Group.id (faqConflicts entities)).
Proof.
  unfold faqConflicts. cbv zeta.
  destruct (0 <? _)%nat; [|constructor].
  apply faqConflicts_ids, keys_groupBy.
Qed.

End Grouping.

(** C1. If a list holds two FAQ records with the same normalised question
    and different normalised answers, [detectConflicts] returns exactly one
    group for that question; its single detail has type
    [faq_answer_conflict] and severity high, and its entities are the FAQ
    records asking that question, both records among them. *)
Theorem faq_conflict_reported (entities : list YextEntity) (e1 e2 : YextEntity)
  (Hin1 : In e1 entities) (Hin2 : In e2 entities)
  (Hfaq1 : isFaq e1 = true) (Hfaq2 : isFaq e2 = true)
  (Hquestion : faqQuestion e1 = faqQuestion e2)
  (Hanswer : faqAnswer e1 <> faqAnswer e2) :
  exists g d,
    List.filter (isGroupFor (faqQuestion e1)) (detectConflicts entities) = [g]
    /\ Group.conflictDetails g = [d]
    /\ Detail.conflictType d = "faq_answer_conflict"
    /\ Detail.severity d = high
    /\ Group.severity g = high
    /\ Group.entities g = map refOf (faqsAsking (faqQuestion e1) entities)
    /\ In e1 (faqsAsking (faqQuestion e1) entities)
    /\ In e2 (faqsAsking (faqQuestion e1) entities)
    /\ e1 <> e2.
Proof.
  set (q := faqQuestion e1).
  set (members := faqsAsking q entities).
  assert (Hm1 : In e1 members).
  { apply filter_In. split; [now apply filter_In | apply String.eqb_refl]. }
  assert (Hm2 : In e2 members).
  { apply filter_In. split; [now apply filter_In|].
    rewrite <- Hquestion. apply String.eqb_refl. }
  assert (Hne : e1 <> e2) by (intros ->; now apply Hanswer).
  assert (Hlen : (1 <? length members)%nat = true)
    by exact (two_members e1 e2 members Hm1 Hm2 Hne).
  assert (Hsize : (1 <? size (list_to_set
                     (map snd (map (fun faq => (faq, faqAnswer faq)) members))
                     : gset string))%nat = true).
  { apply (two_elements (faqAnswer e1) (faqAnswer e2)); [| |exact Hanswer];
      apply elem_of_list_to_set, list_elem_of_In; rewrite map_map; simpl;
      apply in_map_iff; eauto. }
  assert (Hfaqs : (0 <? length (List.filter isFaq entities))%nat = true).
  { apply Nat.ltb_lt. destruct (List.filter isFaq entities) eqn:E; simpl; [|lia].
    assert (H : In e1 (List.filter isFaq entities)) by now apply filter_In.
    rewrite E in H. destruct H. }
  assert (Hgroup : groupOf q (groupBy faqQuestion (List.filter isFaq entities))
                   = members) by apply groupOf_groupBy.
  eexists. eexists. split.
  - unfold detectConflicts. rewrite List.filter_app, pairwiseConflicts_no_faq_id.
    rewrite app_nil_r. unfold faqConflicts. cbv zeta. rewrite Hfaqs.
    rewrite (filter_flat_map_key _ _ q).
    + rewrite Hgroup. unfold faqGroupConflicts. cbv zeta.
      rewrite Hlen, Hsize. cbn [List.filter]. unfold isGroupFor at 1.
      cbn [Group.id]. rewrite String.eqb_refl. reflexivity.
    + apply keys_groupBy.
    + intros k es Hk. now apply faqGroupConflicts_other.
    + rewrite Hgroup. intros Hnil. rewrite Hnil in Hm1. destruct Hm1.
  - cbn. repeat split; assumption.
Qed.

Lemma faq_conflict_reported_witness :
  exists g d,
    List.filter (isGroupFor (faqQuestion faq5pm))
                (detectConflicts [faq5pm; faq9pm]) = [g]
    /\ Group.conflictDetails g = [d]
    /\ Detail.conflictType d = "faq_answer_conflict"
    /\ Detail.severity d = high
    /\ Group.severity g = high
    /\ Group.entities g
       = map refOf (faqsAsking (faqQuestion faq5pm) [faq5pm; faq9pm])
    /\ In faq5pm (faqsAsking (faqQuestion faq5pm) [faq5pm; faq9pm])
    /\ In faq9pm (faqsAsking (faqQuestion faq5pm) [faq5pm; faq9pm])
    /\ faq5pm <> faq9pm.
Proof.
  apply (faq_conflict_reported [faq5pm; faq9pm] faq5pm faq9pm).
  - simpl. auto.
  - simpl. auto.
  - vm_compute. reflexivity.
  - vm_compute. reflexivity.
  - vm_compute. reflexivity.
  - vm_compute. discriminate.
Defined.

(** C9 at the failing input: two pairs of [sharedPhone] carry the same two
    names, and both groups get the identifier ["conflict-Alpha-Beta"].  (The
    identifiers of the FAQ path are distinct, see
    [faqConflicts_distinct_ids].) *)
Lemma detectConflicts_duplicate_ids :
  map Group.id (detectConflicts sharedPhone)
  = ["conflict-Alpha-Beta"; "conflict-Alpha-Beta"]
  /\ ~ List.NoDup (map Group.id (detectConflicts sharedPhone)).
Proof.
  assert (H : map Group.id (detectConflicts sharedPhone)
              = ["conflict-Alpha-Beta"; "conflict-Alpha-Beta"])
    by (vm_compute; reflexivity).
  split; [exact H|]. rewrite H. intros Hnd.
  apply NoDup_cons_iff in Hnd as [Hin _]. apply Hin. now left.
Qed.

(** ** Pairs *)

Section Pairs.

Lemma isCompared_not_faq (e : YextEntity) :
  isCompared e = true -> isFaq e = false.
Proof.
  unfold isCompared, isFaq, hasType. simpl.
  destruct (optEqb (entityTypeOf e) (Some "faq")); [discriminate|].
  now destruct (optEqb (entityTypeOf e) (Some "ce_faq")).
Qed.

Lemma in_pairsOf (l1 l2 l3 : list YextEntity) (e1 e2 : YextEntity) :
  In (e1, e2) (pairsOf (l1 ++ e1 :: l2 ++ e2 :: l3)).
Proof.
  induction l1 as [|x l1 IH]; simpl.
  - apply in_or_app. left. apply in_map, in_or_app. right. now left.
  - apply in_or_app. now right.
Qed.

(** Every pair of compared records of one type, the first before the
    second in the input, goes through the body of the loops. *)
Lemma pairConflicts_in_detectConflicts (l1 l2 l3 : list YextEntity)
  (e1 e2 : YextEntity) (g : ConflictGroup) :
  isCompared e1 = true -> isCompared e2 = true -> typeKey e1 = typeKey e2 ->
  In g (pairConflicts (typeKey e1) e1 e2) ->
  In g (detectConflicts (l1 ++ e1 :: l2 ++ e2 :: l3)).
Proof.
  intros Hc1 Hc2 Hkey Hg. unfold detectConflicts. apply in_or_app. right.
  unfold pairwiseConflicts. cbv zeta.
  set (entities := l1 ++ e1 :: l2 ++ e2 :: l3).
  assert (Hsplit : List.filter isCompared entities
                   = List.filter isCompared l1
                       ++ e1 :: List.filter isCompared l2
                       ++ e2 :: List.filter isCompared l3).
  { unfold entities. rewrite List.filter_app. simpl. rewrite Hc1.
    rewrite List.filter_app. simpl. now rewrite Hc2. }
  assert (Hpos : (0 <? length (List.filter isCompared entities))%nat = true).
  { rewrite Hsplit, length_app. simpl. apply Nat.ltb_lt. lia. }
  rewrite Hpos. apply in_flat_map.
  set (k := typeKey e1).
  set (bucket := groupOf k (groupBy typeKey (List.filter isCompared entities))).
  assert (Hbucket : bucket
                    = List.filter (fun e => String.eqb (typeKey e) k)
                                  (List.filter isCompared entities))
    by apply groupOf_groupBy.
  exists (k, bucket). split.
  - apply in_groupOf. fold bucket. rewrite Hbucket, Hsplit.
    rewrite List.filter_app. simpl. unfold k at 2. rewrite String.eqb_refl.
    destruct (List.filter _ (List.filter isCompared l1)); discriminate.
  - apply in_flat_map. exists (e1, e2). split; [|exact Hg].
    rewrite Hbucket, Hsplit, List.filter_app. simpl.
    unfold k at 2. rewrite String.eqb_refl.
    rewrite List.filter_app. simpl. rewrite <- Hkey. unfold k at 3.
    rewrite String.eqb_refl. apply in_pairsOf.
Qed.

Lemma typeKey_same (e1 e2 : YextEntity) :
  entityTypeOf e1 = entityTypeOf e2 -> typeKey e1 = typeKey e2.
Proof. unfold typeKey. now intros ->. Qed.

Lemma optEqb_neq (a b : option string) : a <> b -> optEqb a b = false.
Proof.
  destruct a as [x|], b as [y|]; simpl; try congruence.
  intros H. destruct (String.eqb_spec x y); congruence.
Qed.


Lemma detectSemanticContradictions_equal (text1 text2 : string) :
  normalizeString text1 = normalizeString text2 ->
  detectSemanticContradictions text1 text2 = false.
Proof.
  intros H. unfold detectSemanticContradictions. cbv zeta.
  now rewrite H, String.eqb_refl.
Qed.

End Pairs.

(** ** The checks of a pair *)

Section PairChecks.

Lemma phoneDetails_shared (e1 e2 : YextEntity) (p1 p2 : string) :
  truthy (Entity.mainPhone e1) = Some p1 ->
  truthy (Entity.mainPhone e2) = Some p2 ->
  normalizePhone p1 = normalizePhone p2 ->
  Entity.name e1 <> Entity.name e2 ->
  phoneDetails e1 e2
  = [Detail.mk "mainPhone" [valueOf e1 p1; valueOf e2 p2] "phone_mismatch"
       medium "Different entities sharing the same phone number"].
Proof.
  intros H1 H2 Hp Hn. unfold phoneDetails.
  now rewrite H1, H2, Hp, String.eqb_refl, (optEqb_neq _ _ Hn).
Qed.

Lemma urlDetails_shared (e1 e2 : YextEntity) (u : string) :
  truthy (Entity.websiteUrl e1) = Some u ->
  truthy (Entity.websiteUrl e2) = Some u ->
  Entity.name e1 <> Entity.name e2 ->
  urlDetails e1 e2
  = [Detail.mk "websiteUrl" [valueOf e1 u; valueOf e2 u] "url_mismatch"
       medium "Different entities sharing the same website URL"].
Proof.
  intros H1 H2 Hn. unfold urlDetails.
  now rewrite H1, H2, String.eqb_refl, (optEqb_neq _ _ Hn).
Qed.




(** A pair that has details gives one group, made of them. *)
Lemma pairConflicts_some (entityType : string) (e1 e2 : YextEntity) :
  pairDetails entityType e1 e2 <> [] ->
  exists g, pairConflicts entityType e1 e2 = [g]
            /\ Group.entities g = [refOf e1; refOf e2]
            /\ Group.conflictDetails g = pairDetails entityType e1 e2
            /\ Group.severity g = maxSeverity (pairDetails entityType e1 e2).
Proof.
  intros Hne. unfold pairConflicts. cbv zeta. rewrite severity_rollup.
  destruct (pairDetails entityType e1 e2) as [|d ds]; [contradiction|].
  eexists. cbn [length Nat.ltb Nat.leb]. repeat split.
Qed.

End PairChecks.

(** C4, as the code has it.  Two compared records of one type with different
    names, wherever they stand in the input and however similar the names
    are: if both have a non-empty phone field and the digits agree, a group
    for the pair holds a medium [phone_mismatch] detail; if both have the
    same non-empty website, it holds a medium [url_mismatch] detail. *)
Theorem shared_contact_reported (l1 l2 l3 : list YextEntity) (e1 e2 : YextEntity)
  (Hc1 : isCompared e1 = true) (Hc2 : isCompared e2 = true)
  (Htype : entityTypeOf e1 = entityTypeOf e2)
  (Hname : Entity.name e1 <> Entity.name e2) :
  (forall p1 p2,
     truthy (Entity.mainPhone e1) = Some p1 ->
     truthy (Entity.mainPhone e2) = Some p2 ->
     normalizePhone p1 = normalizePhone p2 ->
     exists g d,
       In g (detectConflicts (l1 ++ e1 :: l2 ++ e2 :: l3))
       /\ Group.entities g = [refOf e1; refOf e2]
       /\ In d (Group.conflictDetails g)
       /\ Detail.field d = "mainPhone"
       /\ Detail.conflictType d = "phone_mismatch"
       /\ Detail.severity d = medium)
  /\ (forall u,
        truthy (Entity.websiteUrl e1) = Some u ->
        truthy (Entity.websiteUrl e2) = Some u ->
        exists g d,
          In g (detectConflicts (l1 ++ e1 :: l2 ++ e2 :: l3))
          /\ Group.entities g = [refOf e1; refOf e2]
          /\ In d (Group.conflictDetails g)
          /\ Detail.field d = "websiteUrl"
          /\ Detail.conflictType d = "url_mismatch"
          /\ Detail.severity d = medium).
Proof.
  pose proof (typeKey_same e1 e2 Htype) as Hkey.
  assert (Hgroup : forall d, In d (pairDetails (typeKey e1) e1 e2) ->
            exists g, In g (detectConflicts (l1 ++ e1 :: l2 ++ e2 :: l3))
                      /\ Group.entities g = [refOf e1; refOf e2]
                      /\ In d (Group.conflictDetails g)).
  { intros d Hd.
    destruct (pairConflicts_some (typeKey e1) e1 e2) as (g & Hg & He & Hds & _).
    { intros Hnil. rewrite Hnil in Hd. destruct Hd. }
    exists g. repeat split; [|exact He|now rewrite Hds].
    apply pairConflicts_in_detectConflicts; try assumption.
    rewrite Hg. now left. }
  split.
  - intros p1 p2 H1 H2 Hp.
    destruct (Hgroup (Detail.mk "mainPhone" [valueOf e1 p1; valueOf e2 p2]
                        "phone_mismatch" medium
                        "Different entities sharing the same phone number"))
      as (g & Hg & He & Hd).
    { unfold pairDetails. apply in_or_app. right. apply in_or_app. left.
      rewrite (phoneDetails_shared e1 e2 p1 p2) by assumption. now left. }
    exists g. eexists. repeat split; first [eassumption | reflexivity].
  - intros u H1 H2.
    destruct (Hgroup (Detail.mk "websiteUrl" [valueOf e1 u; valueOf e2 u]
                        "url_mismatch" medium
                        "Different entities sharing the same website URL"))
      as (g & Hg & He & Hd).
    { unfold pairDetails. apply in_or_app. right. apply in_or_app. right.
      rewrite (urlDetails_shared e1 e2 u) by assumption. now left. }
    exists g. eexists. repeat split; first [eassumption | reflexivity].
Qed.

Lemma shared_contact_reported_witness :
  (exists g d,
     In g (detectConflicts [alphaGrill; zetaGrill])
     /\ Group.entities g = [refOf alphaGrill; refOf zetaGrill]
     /\ In d (Group.conflictDetails g)
     /\ Detail.field d = "mainPhone"
     /\ Detail.conflictType d = "phone_mismatch"
     /\ Detail.severity d = medium)
  /\ (exists g d,
        In g (detectConflicts [alphaGrill; zetaGrill])
        /\ Group.entities g = [refOf alphaGrill; refOf zetaGrill]
        /\ In d (Group.conflictDetails g)
        /\ Detail.field d = "websiteUrl"
        /\ Detail.conflictType d = "url_mismatch"
        /\ Detail.severity d = medium).
Proof.
  destruct (shared_contact_reported [] [] [] alphaGrill zetaGrill)
    as [Hphone Hurl]; [reflexivity | reflexivity | reflexivity | discriminate |].
  split.
  - apply (Hphone "(555) 0100" "555-0100"); reflexivity.
  - apply (Hurl "https://example.com"); reflexivity.
Defined.

(** C4 fails as stated: phone and website fields that are empty strings are
    identical, also after [normalizePhone], and nothing is reported. *)
Lemma empty_contact_fields_not_reported :
  isCompared alphaNoContact = true
  /\ isCompared betaNoContact = true
  /\ entityTypeOf alphaNoContact = entityTypeOf betaNoContact
  /\ Entity.name alphaNoContact <> Entity.name betaNoContact
  /\ (exists p1 p2,
        Entity.mainPhone alphaNoContact = Some p1
        /\ Entity.mainPhone betaNoContact = Some p2
        /\ normalizePhone p1 = normalizePhone p2)
  /\ (exists u,
        Entity.websiteUrl alphaNoContact = Some u
        /\ Entity.websiteUrl betaNoContact = Some u)
  /\ detectConflicts [alphaNoContact; betaNoContact] = [].
Proof.
  repeat split; try discriminate.
  - exists "", "". repeat split.
  - exists "". repeat split.
Qed.




(** ** The two texts about Sundays *)

Section Sundays.

Lemma sunday_no_semantic_contradiction :
  detectSemanticContradictions sundayOpen sundayClosed = false.
Proof. vm_compute. reflexivity. Qed.

Lemma sunday_no_lexical_contradiction :
  detectContradictions sundayOpen sundayClosed = false.
Proof. vm_compute. reflexivity. Qed.

Lemma contentDetails_sunday (entityType : string) (e1 e2 : YextEntity) :
  gtQ (nameSimilarityOf e1 e2) (3 # 10) = true ->
  selectContent e1 = sundayOpen -> selectContent e2 = sundayClosed ->
  exists d,
    contentDetails entityType e1 e2 = [d]
    /\ In (Detail.conflictType d)
          ["body_content_conflict"; "content_conflict";
           "description_conflict"; "inconsistent_data"]
    /\ Detail.severity d = medium.
Proof.
  intros Hsim H1 H2. unfold contentDetails. cbv zeta.
  rewrite Hsim, H1, H2, sunday_no_semantic_contradiction.
  assert (Hdiff : String.eqb (normalizeString sundayOpen)
                             (normalizeString sundayClosed) = false)
    by (vm_compute; reflexivity).
  rewrite Hdiff. cbn [negb andb String.eqb sundayOpen sundayClosed Ascii.eqb
                      Bool.eqb].
  unfold conflictFieldAndType.
  destruct (richTruthy (Entity.body e1) && richTruthy (Entity.body e2));
    [eexists; split; [reflexivity|]; cbn; auto|].
  destruct (isTruthy (Entity.content e1) && isTruthy (Entity.content e2));
    [eexists; split; [reflexivity|]; cbn; auto|].
  destruct (isTruthy (Entity.description e1)
            && isTruthy (Entity.description e2));
    eexists; (split; [reflexivity|]); cbn; auto 6.
Qed.

End Sundays.

(** C2, as the code has it.  Two compared records of one type whose names
    are more than 0.3 similar and whose selected texts are "The store is open
    on Sundays" and "The store is not open on Sundays": neither
    [detectSemanticContradictions] nor the lexical patterns of
    [detectContradictions] find a contradiction, so the group of the pair
    holds a medium content detail ([..._conflict] or [inconsistent_data]) and
    no high detail. *)
Theorem sunday_texts_reported_medium (l1 l2 l3 : list YextEntity)
  (e1 e2 : YextEntity)
  (Hc1 : isCompared e1 = true) (Hc2 : isCompared e2 = true)
  (Htype : entityTypeOf e1 = entityTypeOf e2)
  (Hsim : gtQ (nameSimilarityOf e1 e2) (3 # 10) = true)
  (H1 : selectContent e1 = sundayOpen) (H2 : selectContent e2 = sundayClosed) :
  detectSemanticContradictions sundayOpen sundayClosed = false
  /\ detectContradictions sundayOpen sundayClosed = false
  /\ exists g d,
       In g (detectConflicts (l1 ++ e1 :: l2 ++ e2 :: l3))
       /\ Group.entities g = [refOf e1; refOf e2]
       /\ In d (Group.conflictDetails g)
       /\ In (Detail.conflictType d)
             ["body_content_conflict"; "content_conflict";
              "description_conflict"; "inconsistent_data"]
       /\ Detail.severity d = medium
       /\ someSeverity high (Group.conflictDetails g) = false
       /\ Group.severity g = medium.
Proof.
  split; [apply sunday_no_semantic_contradiction|].
  split; [apply sunday_no_lexical_contradiction|].
  pose proof (typeKey_same e1 e2 Htype) as Hkey.
  destruct (contentDetails_sunday (typeKey e1) e1 e2 Hsim H1 H2)
    as (d & Hd & Htype_d & Hsev).
  destruct (pairConflicts_some (typeKey e1) e1 e2) as (g & Hg & He & Hds & Hmax).
  { unfold pairDetails. rewrite Hd. discriminate. }
  exists g, d.
  assert (Hin : In g (detectConflicts (l1 ++ e1 :: l2 ++ e2 :: l3))).
  { apply pairConflicts_in_detectConflicts; try assumption.
    rewrite Hg. now left. }
  assert (Hall : pairDetails (typeKey e1) e1 e2
                 = d :: phoneDetails e1 e2 ++ urlDetails e1 e2).
  { unfold pairDetails. now rewrite Hd. }
  assert (Hhigh : someSeverity high (pairDetails (typeKey e1) e1 e2) = false
                  /\ maxSeverity (pairDetails (typeKey e1) e1 e2) = medium).
  { rewrite Hall. unfold someSeverity.
    destruct (phoneDetails_cases e1 e2) as [-> | (dp & -> & _ & Hp)];
      destruct (urlDetails_cases e1 e2) as [-> | (du & -> & _ & Hu)];
      cbn; rewrite ?Hsev, ?Hp, ?Hu; split; reflexivity. }
  destruct Hhigh as [Hhigh Hmed].
  repeat split; try assumption.
  - rewrite Hds, Hall. now left.
  - now rewrite Hds.
  - now rewrite Hmax.
Qed.

Lemma sunday_texts_reported_medium_witness :
  detectSemanticContradictions sundayOpen sundayClosed = false
  /\ detectContradictions sundayOpen sundayClosed = false
  /\ exists g d,
       In g (detectConflicts [mainStreet; mainSt])
       /\ Group.entities g = [refOf mainStreet; refOf mainSt]
       /\ In d (Group.conflictDetails g)
       /\ In (Detail.conflictType d)
             ["body_content_conflict"; "content_conflict";
              "description_conflict"; "inconsistent_data"]
       /\ Detail.severity d = medium
       /\ someSeverity high (Group.conflictDetails g) = false
       /\ Group.severity g = medium.
Proof.
  apply (sunday_texts_reported_medium [] [] [] mainStreet mainSt);
    vm_compute; reflexivity.
Defined.

(** C2 fails as stated: for the two Main Street records (same type, names
    13/17 similar) the detail for the two texts is a medium
    [description_conflict], and the group is of medium severity. *)
Lemma sunday_texts_not_high :
  isCompared mainStreet = true
  /\ isCompared mainSt = true
  /\ entityTypeOf mainStreet = entityTypeOf mainSt
  /\ (nameSimilarityOf mainStreet mainSt == 13 # 17)%Q
  /\ selectContent mainStreet = sundayOpen
  /\ selectContent mainSt = sundayClosed
  /\ map (fun g => (Group.severity g,
                    map (fun d => (Detail.conflictType d, Detail.severity d))
                        (Group.conflictDetails g)))
         (detectConflicts [mainStreet; mainSt])
     = [(medium, [("description_conflict", medium)])].
Proof. repeat split; vm_compute; reflexivity. Qed.

(** * Further properties *)

(** ** The edit distance as a metric *)

Section Metric.

Lemma levenshtein_zero (a b : list ascii) : levenshtein a b = 0 -> a = b.
Proof.
  revert b. induction a as [|x a IH]; intros b H.
  - rewrite levenshtein_nil_l in H. now destruct b.
  - destruct b as [|y b]; [discriminate|].
    rewrite levenshtein_cons in H. unfold min3 in H.
    assert (Hd : levenshtein a b + substCost x y = 0) by lia.
    assert (Hc : substCost x y = 0) by lia.
    unfold substCost in Hc. destruct (Ascii.eqb_spec x y); [|discriminate].
    subst y. f_equal. apply IH. lia.
Qed.

Lemma levenshtein_length_l (a b : list ascii) :
  length a <= length b + levenshtein a b.
Proof.
  revert b. induction a as [|x a IH]; intros b; [simpl; lia|].
  induction b as [|y b IHb]; [rewrite levenshtein_nil_r; lia|].
  rewrite levenshtein_cons. unfold min3.
  pose proof (IH (y :: b)). pose proof (IH b). simpl length in *. lia.
Qed.

Lemma levenshtein_length_r (a b : list ascii) :
  length b <= length a + levenshtein a b.
Proof. rewrite levenshtein_sym. apply levenshtein_length_l. Qed.

Lemma substCost_triangle (x y z : ascii) :
  substCost x z <= substCost x y + substCost y z.
Proof.
  unfold substCost.
  destruct (Ascii.eqb_spec x z), (Ascii.eqb_spec x y), (Ascii.eqb_spec y z);
    try lia; congruence.
Qed.

Lemma levenshtein_insert (y : ascii) (a b : list ascii) :
  levenshtein a (y :: b) <= levenshtein a b + 1.
Proof.
  destruct a as [|x a]; [simpl; lia|].
  rewrite levenshtein_cons. unfold min3. lia.
Qed.

Lemma levenshtein_delete (x : ascii) (a b : list ascii) :
  levenshtein (x :: a) b <= levenshtein a b + 1.
Proof.
  destruct b as [|y b]; [rewrite !levenshtein_nil_r; simpl; lia|].
  rewrite levenshtein_cons. unfold min3. lia.
Qed.

Lemma levenshtein_replace (x y : ascii) (a b : list ascii) :
  levenshtein (x :: a) (y :: b) <= levenshtein a b + substCost x y.
Proof. rewrite levenshtein_cons. unfold min3. lia. Qed.

(** Two edit scripts compose: the distance to the end is at most the sum of
    their lengths. *)
Lemma edits_compose (a b : list ascii) (n : nat) :
  edits a b n -> forall c m, edits b c m -> levenshtein a c <= n + m.
Proof.
  induction 1 as [|y a b n H1 IH1|x a b n H1 IH1|x y a b n H1 IH1]; intros c m H2.
  - apply levenshtein_least in H2. lia.
  - remember (y :: b) as yb eqn:E. revert y b H1 IH1 E.
    induction H2 as [|z b' c n' H2 IH2|y' b' c n' H2 IH2|y' z b' c n' H2 IH2];
      intros y b H1 IH1 E; try discriminate.
    + specialize (IH2 y b H1 IH1 E).
      pose proof (levenshtein_insert z a c). lia.
    + injection E as -> ->. specialize (IH1 c n' H2). lia.
    + injection E as -> ->. specialize (IH1 c n' H2).
      pose proof (levenshtein_insert z a c). lia.
  - specialize (IH1 c m H2). pose proof (levenshtein_delete x a c). lia.
  - remember (y :: b) as yb eqn:E. revert y b H1 IH1 E.
    induction H2 as [|z b' c n' H2 IH2|y' b' c n' H2 IH2|y' z b' c n' H2 IH2];
      intros y b H1 IH1 E; try discriminate.
    + specialize (IH2 y b H1 IH1 E).
      pose proof (levenshtein_insert z (x :: a) c). lia.
    + injection E as -> ->. specialize (IH1 c n' H2).
      pose proof (levenshtein_delete x a c). lia.
    + injection E as -> ->. specialize (IH1 c n' H2).
      pose proof (levenshtein_replace x z a c).
      pose proof (substCost_triangle x y z). lia.
Qed.

Lemma levenshtein_triangle (a b c : list ascii) :
  levenshtein a c <= levenshtein a b + levenshtein b c.
Proof.
  apply (edits_compose a b); apply levenshtein_edits.
Qed.

Lemma chars_inj (s1 s2 : string) : chars s1 = chars s2 -> s1 = s2.
Proof.
  intros H. apply (f_equal str) in H.
  unfold chars, str in H. now rewrite !string_of_list_ascii_of_string in H.
Qed.

End Metric.

(** X1. The distance that the table of [calculateSimilarity] computes is a
    metric on strings: it is zero exactly on equal strings, it is symmetric,
    and it satisfies the triangle inequality; it is at least the difference
    of the two lengths. *)
Theorem distance_is_metric :
  (forall s1 s2, distance (chars s1) (chars s2) = 0 <-> s1 = s2)
  /\ (forall s1 s2,
        distance (chars s1) (chars s2) = distance (chars s2) (chars s1))
  /\ (forall s1 s2 s3,
        distance (chars s1) (chars s3)
        <= distance (chars s1) (chars s2) + distance (chars s2) (chars s3))
  /\ (forall s1 s2,
        String.length s1 - String.length s2 <= distance (chars s1) (chars s2)
        /\ String.length s2 - String.length s1 <= distance (chars s1) (chars s2)).
Proof.
  repeat split.
  - rewrite distance_levenshtein. intros H. now apply chars_inj, levenshtein_zero.
  - intros ->. rewrite distance_levenshtein. apply levenshtein_refl.
  - intros s1 s2. rewrite !distance_levenshtein. apply levenshtein_sym.
  - intros s1 s2 s3. rewrite !distance_levenshtein. apply levenshtein_triangle.
  - rewrite distance_levenshtein, <- !length_chars.
    pose proof (levenshtein_length_l (chars s1) (chars s2)). lia.
  - rewrite distance_levenshtein, <- !length_chars.
    pose proof (levenshtein_length_r (chars s1) (chars s2)). lia.
Qed.

(** X2. [calculateSimilarity] is 1 on equal strings only, and it never
    exceeds the ratio of the shorter length to the longer one. *)
Theorem similarity_one_and_length_ratio :
  (forall s1 s2, (calculateSimilarity s1 s2 == 1)%Q <-> s1 = s2)
  /\ (forall s1 s2,
        (calculateSimilarity s1 s2
           * inject_Z (Z.of_nat (Nat.max (String.length s1) (String.length s2)))
         <= inject_Z (Z.of_nat (Nat.min (String.length s1) (String.length s2))))%Q).
Proof.
  split.
  - intros s1 s2. split.
    + rewrite calculateSimilarity_unfold. cbv zeta.
      destruct (Nat.eqb_spec (length (chars s1)) 0) as [H1|H1];
        destruct (Nat.eqb_spec (length (chars s2)) 0) as [H2|H2].
      * intros _. apply chars_inj.
        destruct (chars s1), (chars s2); try discriminate. reflexivity.
      * intros H. discriminate H.
      * intros H. discriminate H.
      * unfold ratio, Qeq. cbn [Qnum Qden]. intros H.
        apply chars_inj, levenshtein_zero. lia.
    + intros ->. rewrite calculateSimilarity_unfold. cbv zeta.
      destruct (Nat.eqb_spec (length (chars s2)) 0) as [H|H]; [reflexivity|].
      rewrite levenshtein_refl, Nat.max_id. unfold ratio, Qeq. simpl. lia.
  - intros s1 s2. rewrite calculateSimilarity_unfold. cbv zeta.
    rewrite <- !length_chars.
    pose proof (levenshtein_length_l (chars s1) (chars s2)) as Hl.
    pose proof (levenshtein_length_r (chars s1) (chars s2)) as Hr.
    pose proof (levenshtein_le_max (chars s1) (chars s2)) as Hm.
    destruct (Nat.eqb_spec (length (chars s1)) 0) as [H1|H1];
      destruct (Nat.eqb_spec (length (chars s2)) 0) as [H2|H2].
    + rewrite H1, H2. unfold Qle. simpl. lia.
    + rewrite H1. unfold Qle. simpl. lia.
    + rewrite H2. unfold Qle. simpl. lia.
    + unfold ratio, Qle, Qmult, inject_Z. cbn [Qnum Qden]. nia.
Qed.


(** ** Normal forms *)

Section NormalForms.

Lemma chars_append (s1 s2 : string) : chars (s1 +:+ s2) = chars s1 ++ chars s2.
Proof. induction s1 as [|c s1 IH]; simpl; [reflexivity | now rewrite IH]. Qed.

Lemma str_app (l1 l2 : list ascii) : str (l1 ++ l2) = str l1 +:+ str l2.
Proof. induction l1 as [|c l1 IH]; simpl; [reflexivity | now rewrite IH]. Qed.

Lemma normalChar_output (c : ascii) :
  normalChar c = true -> (isSpace c = true -> c = " "%char) ->
  isNormalOutput c = true.
Proof.
  destruct c as [[] [] [] [] [] [] [] []]; vm_compute; intros H1 H2;
    try reflexivity; try discriminate; specialize (H2 eq_refl); discriminate.
Qed.

Lemma tidy_space (b : bool) (l : list ascii) (c : ascii) :
  tidy b l = true -> In c l -> isSpace c = true -> c = " "%char.
Proof.
  revert b. induction l as [|d l IH]; intros b Ht Hin Hs; [destruct Hin|].
  destruct Hin as [<-|Hin].
  - simpl in Ht. rewrite Hs in Ht.
    apply andb_prop in Ht as [Ht _]. apply andb_prop in Ht as [Ht _].
    now apply Ascii.eqb_eq in Ht.
  - simpl in Ht. destruct (isSpace d).
    + apply andb_prop in Ht as [_ Ht]. exact (IH true Ht Hin Hs).
    + exact (IH false Ht Hin Hs).
Qed.

Lemma tidy_no_double_space (b : bool) (l : list ascii) :
  tidy b l = true -> includesChars [" "%char; " "%char] l = false.
Proof.
  revert b. induction l as [|c l IH]; intros b Ht; [reflexivity|].
  cbn [includesChars]. simpl in Ht.
  destruct (isSpace c) eqn:Ec.
  - apply andb_prop in Ht as [Hc Ht]. rewrite (IH true Ht), orb_false_r.
    cbn [startsWith]. destruct l as [|d l]; [now rewrite andb_false_r|].
    simpl in Ht. destruct (Ascii.eqb_spec " " d) as [<-|Hd];
      [|now rewrite andb_false_r].
    now simpl in Ht.
  - rewrite (IH false Ht), orb_false_r. cbn [startsWith].
    destruct (Ascii.eqb_spec " " c) as [<-|Hc]; [discriminate|reflexivity].
Qed.

Lemma length_trimStart (l : list ascii) : length (trimStart l) <= length l.
Proof.
  induction l as [|c l IH]; simpl; [lia|]. destruct (isSpace c); simpl; lia.
Qed.

Lemma length_trimEnd (l : list ascii) : length (trimEnd l) <= length l.
Proof.
  induction l as [|c l IH]; simpl; [lia|].
  destruct (trimEnd l); [destruct (isSpace c)|]; simpl in *; lia.
Qed.

Lemma length_collapseSpaces (b : bool) (l : list ascii) :
  length (collapseSpaces b l) <= length l.
Proof.
  revert b. induction l as [|c l IH]; intros b; simpl; [lia|].
  pose proof (IH true). pose proof (IH false).
  destruct (isSpace c); [destruct b|]; simpl; lia.
Qed.

Lemma length_normalizeChars (l : list ascii) :
  length (normalizeChars l) <= length l.
Proof.
  unfold normalizeChars, removeNonWordNonSpace, trim, toLowerCase.
  pose proof (length_collapseSpaces false
    (List.filter (fun c => isWordChar c || isSpace c)
                 (trimEnd (trimStart (map lowerChar l))))).
  pose proof (List.filter_length_le (fun c => isWordChar c || isSpace c)
                (trimEnd (trimStart (map lowerChar l)))).
  pose proof (length_trimEnd (trimStart (map lowerChar l))).
  pose proof (length_trimStart (map lowerChar l)).
  rewrite length_map in *. lia.
Qed.

Lemma filter_isDigit_all (l : list ascii) :
  List.filter isDigit l = [] <-> forallb (fun c => negb (isDigit c)) l = true.
Proof.
  induction l as [|c l IH]; simpl; [tauto|].
  destruct (isDigit c); simpl; [split; discriminate | exact IH].
Qed.

Lemma str_nil (l : list ascii) : str l = "" <-> l = [].
Proof. destruct l; simpl; split; congruence. Qed.

End NormalForms.

(** X3. [normalizeString] returns a string made of lower-case letters,
    digits, underscores and single spaces only: no other character survives,
    no two spaces are adjacent, and the result is never longer than the
    input. *)
Theorem normalizeString_normal_form (s : string) :
  forallb isNormalOutput (chars (normalizeString s)) = true
  /\ includes (normalizeString s) "  " = false
  /\ String.length (normalizeString s) <= String.length s.
Proof.
  unfold normalizeString, includes. rewrite chars_str. repeat split.
  - apply forallb_forall. intros c Hc. apply normalChar_output.
    + pose proof (normalizeChars_normal (chars s)) as H.
      rewrite List.Forall_forall in H. now apply H.
    + apply (tidy_space false (normalizeChars (chars s))); [|exact Hc].
      apply tidy_collapseSpaces.
  - apply (tidy_no_double_space false). apply tidy_collapseSpaces.
  - rewrite <- !length_chars, chars_str. apply length_normalizeChars.
Qed.

(** X4. [normalizePhone] keeps the digits and nothing else: the result is
    made of digits, normalising it again changes nothing, the digits of a
    concatenation are the digits of the parts, and the result is empty
    exactly when the input holds no digit. *)
Theorem normalizePhone_digits :
  (forall phone, forallb isDigit (chars (normalizePhone phone)) = true)
  /\ (forall phone, normalizePhone (normalizePhone phone) = normalizePhone phone)
  /\ (forall a b, normalizePhone (a +:+ b) = normalizePhone a +:+ normalizePhone b)
  /\ (forall phone,
        normalizePhone phone = ""
        <-> forallb (fun c => negb (isDigit c)) (chars phone) = true).
Proof.
  unfold normalizePhone. repeat split.
  - intros phone. rewrite chars_str. apply forallb_forall. intros c Hc.
    now apply filter_In in Hc.
  - intros phone. rewrite chars_str. f_equal.
    induction (chars phone) as [|c l IH]; simpl; [reflexivity|].
    destruct (isDigit c) eqn:E; simpl; [rewrite E; now f_equal | exact IH].
  - intros a b. now rewrite chars_append, List.filter_app, str_app.
  - intros H. apply filter_isDigit_all. now apply str_nil.
  - intros H. apply str_nil. now apply filter_isDigit_all.
Qed.

(** X5. [extractTextContent] returns the empty string for an absent or empty
    field, and its result never begins or ends with white space: trimming it
    changes nothing. *)
Theorem extractTextContent_trimmed :
  extractTextContent None = ""
  /\ extractTextContent (Some (RString "")) = ""
  /\ (forall content,
        str (trim (chars (extractTextContent content)))
        = extractTextContent content).
Proof.
  repeat split. intros content. unfold extractTextContent.
  destruct (negb (richTruthy content)); [reflexivity|].
  unfold stripMarkup. cbv zeta. now rewrite chars_str, trim_idem.
Qed.


(** ** What the two paths look at *)

Section Paths.

Lemma hasType_cases (e : YextEntity) :
  isFaq e = true /\ isCompared e = false /\ isLeftOut e = false
  \/ isFaq e = false /\ isCompared e = false /\ isLeftOut e = true
  \/ isFaq e = false /\ isCompared e = true /\ isLeftOut e = false.
Proof.
  unfold isFaq, isCompared, isLeftOut, hasType. cbn [existsb].
  destruct (entityTypeOf e) as [t|]; cbn [optEqb]; [|tauto].
  destruct (String.eqb_spec t "faq") as [->|_]; [vm_compute; tauto|].
  destruct (String.eqb_spec t "ce_faq") as [->|_]; [vm_compute; tauto|].
  destruct (String.eqb_spec t "location") as [->|_]; [vm_compute; tauto|].
  destruct (String.eqb_spec t "ce_location") as [->|_]; [vm_compute; tauto|].
  destruct (String.eqb_spec t "bufo") as [->|_]; [vm_compute; tauto|].
  destruct (String.eqb_spec t "ce_bufo") as [->|_]; [vm_compute; tauto|].
  cbn. tauto.
Qed.

Lemma filter_filter_implies {A} (f g : A -> bool) (l : list A) :
  (forall x, f x = true -> g x = true) ->
  List.filter f (List.filter g l) = List.filter f l.
Proof.
  intros H. induction l as [|x l IH]; simpl; [reflexivity|].
  destruct (g x) eqn:Eg; simpl.
  - now rewrite IH.
  - destruct (f x) eqn:Ef; [|exact IH]. rewrite (H x Ef) in Eg. discriminate.
Qed.

Lemma filter_filter_none {A} (f g : A -> bool) (l : list A) :
  (forall x, g x = true -> f x = false) ->
  List.filter f (List.filter g l) = [].
Proof.
  intros H. induction l as [|x l IH]; simpl; [reflexivity|].
  destruct (g x) eqn:Eg; simpl; [|exact IH]. now rewrite (H x Eg).
Qed.

Lemma faq_kept (e : YextEntity) : isFaq e = true -> negb (isLeftOut e) = true.
Proof.
  intros Hf.
  destruct (hasType_cases e) as [(?&?&H)|[(?&?&H)|(?&?&H)]];
    try congruence; now rewrite H.
Qed.

Lemma compared_kept (e : YextEntity) :
  isCompared e = true -> negb (isLeftOut e) = true.
Proof.
  intros Hf.
  destruct (hasType_cases e) as [(?&?&H)|[(?&?&H)|(?&?&H)]];
    try congruence; now rewrite H.
Qed.

Lemma faq_not_compared (e : YextEntity) : isFaq e = true -> isCompared e = false.
Proof.
  intros Hf.
  destruct (hasType_cases e) as [(?&?&H)|[(?&?&H)|(?&?&H)]]; congruence.
Qed.

Lemma compared_not_faq (e : YextEntity) : isCompared e = true -> isFaq e = false.
Proof.
  intros Hf.
  destruct (hasType_cases e) as [(?&?&H)|[(?&?&H)|(?&?&H)]]; congruence.
Qed.

Lemma faqConflicts_filter (f : YextEntity -> bool) (entities : list YextEntity) :
  (forall e, isFaq e = true -> f e = true) ->
  faqConflicts (List.filter f entities) = faqConflicts entities.
Proof.
  intros H. unfold faqConflicts. cbv zeta. now rewrite filter_filter_implies.
Qed.

Lemma pairwiseConflicts_filter (f : YextEntity -> bool)
  (entities : list YextEntity) :
  (forall e, isCompared e = true -> f e = true) ->
  pairwiseConflicts (List.filter f entities) = pairwiseConflicts entities.
Proof.
  intros H. unfold pairwiseConflicts. cbv zeta. now rewrite filter_filter_implies.
Qed.

Lemma faqConflicts_none (f : YextEntity -> bool) (entities : list YextEntity) :
  (forall e, f e = true -> isFaq e = false) ->
  faqConflicts (List.filter f entities) = [].
Proof.
  intros H. unfold faqConflicts. cbv zeta. now rewrite filter_filter_none.
Qed.

Lemma pairwiseConflicts_none (f : YextEntity -> bool)
  (entities : list YextEntity) :
  (forall e, f e = true -> isCompared e = false) ->
  pairwiseConflicts (List.filter f entities) = [].
Proof.
  intros H. unfold pairwiseConflicts. cbv zeta. now rewrite filter_filter_none.
Qed.

End Paths.

(** X6. Records of a location or bufo type play no part: dropping them from
    the input leaves the result of [detectConflicts] unchanged.  The FAQ
    records and the other records do not influence each other: the result is
    the result on the FAQ records alone followed by the result on the
    compared records alone. *)
Theorem detectConflicts_separates (entities : list YextEntity) :
  detectConflicts (List.filter (fun e => negb (isLeftOut e)) entities)
  = detectConflicts entities
  /\ detectConflicts entities
     = detectConflicts (List.filter isFaq entities)
         ++ detectConflicts (List.filter isCompared entities).
Proof.
  unfold detectConflicts. split.
  - rewrite faqConflicts_filter by apply faq_kept.
    now rewrite pairwiseConflicts_filter by apply compared_kept.
  - rewrite (faqConflicts_filter isFaq) by auto.
    rewrite (pairwiseConflicts_none isFaq) by apply faq_not_compared.
    rewrite (faqConflicts_none isCompared) by apply compared_not_faq.
    rewrite (pairwiseConflicts_filter isCompared) by auto.
    now rewrite app_nil_r.
Qed.


(** ** The groups of the pairwise path *)

Section PairwiseGroups.

Lemma groupOf_in (k : string) (b : list YextEntity)
  (groups : list (string * list YextEntity)) :
  List.NoDup (map fst groups) -> In (k, b) groups -> groupOf k groups = b.
Proof.
  induction groups as [|[k0 es] groups IH]; intros Hnd Hin; [destruct Hin|].
  cbn [map fst] in Hnd. apply NoDup_cons_iff in Hnd as [Hfresh Hnd].
  cbn [groupOf]. destruct Hin as [Heq|Hin].
  - injection Heq as -> ->. now rewrite String.eqb_refl.
  - destruct (String.eqb_spec k0 k) as [->|_]; [|now apply IH].
    exfalso. apply Hfresh. change k with (fst (k, b)). now apply in_map.
Qed.

Lemma in_pairsOf_inv (l : list YextEntity) (a b : YextEntity) :
  In (a, b) (pairsOf l) -> exists l1 l2 l3, l = l1 ++ a :: l2 ++ b :: l3.
Proof.
  induction l as [|x l IH]; intros H; [destruct H|].
  cbn [pairsOf] in H. apply in_app_or in H as [H|H].
  - apply in_map_iff in H as (y & Heq & Hy). injection Heq as -> ->.
    apply in_split in Hy as (l2 & l3 & ->). now exists [], l2, l3.
  - destruct (IH H) as (l1 & l2 & l3 & ->). now exists (x :: l1), l2, l3.
Qed.

Lemma filter_eq_cons {A} (f : A -> bool) (l l1 r : list A) (a : A) :
  List.filter f l = l1 ++ a :: r ->
  exists m1 m2, l = m1 ++ a :: m2 /\ List.filter f m1 = l1
                /\ List.filter f m2 = r /\ f a = true.
Proof.
  revert l1. induction l as [|x l IH]; intros l1 H.
  - destruct l1; discriminate.
  - cbn [List.filter] in H. destruct (f x) eqn:Ef.
    + destruct l1 as [|y l1].
      * injection H as -> Hr. now exists [], l.
      * injection H as -> Hr. destruct (IH l1 Hr) as (m1 & m2 & -> & H1 & H2 & Ha).
        exists (y :: m1), m2. cbn [List.filter]. rewrite Ef, H1. auto.
    + destruct (IH l1 H) as (m1 & m2 & -> & H1 & H2 & Ha).
      exists (x :: m1), m2. cbn [List.filter]. rewrite Ef. auto.
Qed.

Lemma filter_split_pair {A} (f : A -> bool) (l l1 l2 l3 : list A) (a b : A) :
  List.filter f l = l1 ++ a :: l2 ++ b :: l3 ->
  exists m1 m2 m3, l = m1 ++ a :: m2 ++ b :: m3 /\ f a = true /\ f b = true.
Proof.
  intros H. apply filter_eq_cons in H as (m1 & r & -> & _ & Hr & Ha).
  apply filter_eq_cons in Hr as (m2 & m3 & -> & _ & _ & Hb).
  now exists m1, m2, m3.
Qed.

(** Every pair of compared records of one type, the first before the
    second in the input, goes through the body of the loops. *)
Lemma pairConflicts_in_pairwiseConflicts (l1 l2 l3 : list YextEntity)
  (e1 e2 : YextEntity) (g : ConflictGroup) :
  isCompared e1 = true -> isCompared e2 = true -> typeKey e1 = typeKey e2 ->
  In g (pairConflicts (typeKey e1) e1 e2) ->
  In g (pairwiseConflicts (l1 ++ e1 :: l2 ++ e2 :: l3)).
Proof.
  intros Hc1 Hc2 Hkey Hg.
  pose proof (pairConflicts_in_detectConflicts l1 l2 l3 e1 e2 g Hc1 Hc2 Hkey Hg)
    as Hin.
  unfold detectConflicts in Hin. apply in_app_or in Hin as [Hin|Hin];
    [|exact Hin].
  exfalso. apply in_faqConflicts in Hin as (question & faqs & Hin).
  apply in_faqGroupConflicts in Hin as (d & _ & _ & Heq).
  apply in_pairConflicts in Hg as [_ Hg]. rewrite Hg in Heq. discriminate Heq.
Qed.

Lemma in_pairwiseConflicts_inv (entities : list YextEntity) (g : ConflictGroup) :
  In g (pairwiseConflicts entities) ->
  exists l1 l2 l3 e1 e2,
    entities = l1 ++ e1 :: l2 ++ e2 :: l3
    /\ isCompared e1 = true /\ isCompared e2 = true
    /\ typeKey e1 = typeKey e2
    /\ In g (pairConflicts (typeKey e1) e1 e2).
Proof.
  unfold pairwiseConflicts. cbv zeta.
  destruct (0 <? _)%nat; [|intros []].
  intros H. apply in_flat_map in H as [[k bucket] [Hk H]].
  apply in_flat_map in H as [[e1 e2] [Hpair Hg]].
  apply groupOf_in in Hk; [|apply keys_groupBy].
  rewrite groupOf_groupBy in Hk. subst bucket.
  apply in_pairsOf_inv in Hpair as (b1 & b2 & b3 & Hb).
  destruct (filter_eq_cons _ _ _ _ _ Hb) as (m1 & r & Hm & _ & Hr & Hk1).
  destruct (filter_eq_cons _ _ _ _ _ Hr) as (m2 & m3 & -> & _ & _ & Hk2).
  apply String.eqb_eq in Hk1, Hk2.
  apply filter_split_pair in Hm as (n1 & n2 & n3 & -> & Hc1 & Hc2).
  exists n1, n2, n3, e1, e2. repeat split; try assumption; try congruence.
Qed.

Lemma contentDetails_spec (entityType : string) (e1 e2 : YextEntity) :
  let content1 := selectContent e1 in
  let content2 := selectContent e2 in
  if gtQ (nameSimilarityOf e1 e2) (3 # 10)
     && negb (String.eqb content1 "") && negb (String.eqb content2 "")
     && negb (String.eqb (normalizeString content1) (normalizeString content2))
  then exists d,
         contentDetails entityType e1 e2 = [d]
         /\ Detail.values d = [valueOf e1 (excerpt content1);
                               valueOf e2 (excerpt content2)]
         /\ Detail.severity d
            = (if detectSemanticContradictions content1 content2 then high
               else medium)
  else contentDetails entityType e1 e2 = [].
Proof.
  cbv zeta. unfold contentDetails. cbv zeta.
  destruct (gtQ _ _); [|reflexivity]. cbn [andb].
  destruct (negb (String.eqb (selectContent e1) "")
            && negb (String.eqb (selectContent e2) "")); [|reflexivity].
  destruct (negb (String.eqb (normalizeString (selectContent e1))
                             (normalizeString (selectContent e2))));
    cbn [andb]; [|reflexivity].
  destruct (detectSemanticContradictions _ _);
    destruct (conflictFieldAndType e1 e2 _); eexists; repeat split.
Qed.

Lemma phoneDetails_values (e1 e2 : YextEntity) (d : ConflictDetail) :
  In d (phoneDetails e1 e2) ->
  Detail.severity d = medium
  /\ exists v1 v2, Detail.values d = [valueOf e1 v1; valueOf e2 v2].
Proof.
  unfold phoneDetails.
  destruct (truthy (Entity.mainPhone e1)); [|intros []].
  destruct (truthy (Entity.mainPhone e2)); [|intros []].
  destruct (_ && _); [|intros []].
  intros [<-|[]]. split; [reflexivity|]. eexists. eexists. reflexivity.
Qed.

Lemma urlDetails_values (e1 e2 : YextEntity) (d : ConflictDetail) :
  In d (urlDetails e1 e2) ->
  Detail.severity d = medium
  /\ exists v1 v2, Detail.values d = [valueOf e1 v1; valueOf e2 v2].
Proof.
  unfold urlDetails.
  destruct (truthy (Entity.websiteUrl e1)); [|intros []].
  destruct (truthy (Entity.websiteUrl e2)); [|intros []].
  destruct (_ && _); [|intros []].
  intros [<-|[]]. split; [reflexivity|]. eexists. eexists. reflexivity.
Qed.

Lemma contentDetails_values (entityType : string) (e1 e2 : YextEntity)
  (d : ConflictDetail) :
  In d (contentDetails entityType e1 e2) ->
  (Detail.severity d = high \/ Detail.severity d = medium)
  /\ exists v1 v2, Detail.values d = [valueOf e1 v1; valueOf e2 v2].
Proof.
  pose proof (contentDetails_spec entityType e1 e2) as H. cbv zeta in H.
  destruct (_ && _) in H.
  - destruct H as (d' & -> & Hv & Hs). intros [<-|[]]. split.
    + rewrite Hs. destruct (detectSemanticContradictions _ _); auto.
    + eauto.
  - rewrite H. intros [].
Qed.

Lemma pairDetails_values (entityType : string) (e1 e2 : YextEntity)
  (d : ConflictDetail) :
  In d (pairDetails entityType e1 e2) ->
  (Detail.severity d = high \/ Detail.severity d = medium)
  /\ exists v1 v2, Detail.values d = [valueOf e1 v1; valueOf e2 v2].
Proof.
  unfold pairDetails. intros H.
  apply in_app_or in H as [H|H]; [now apply (contentDetails_values entityType)|].
  apply in_app_or in H as [H|H].
  - apply phoneDetails_values in H as [Hs Hv]. auto.
  - apply urlDetails_values in H as [Hs Hv]. auto.
Qed.

End PairwiseGroups.

Section PairsOnce.

Context {B : Type}.
Variable key : YextEntity -> string.
Variable F : string -> YextEntity -> YextEntity -> list B.

Lemma flat_map_nil {A} (f : A -> list B) (l : list A) :
  (forall x, In x l -> f x = []) -> flat_map f l = [].
Proof.
  induction l as [|x l IH]; intros H; [reflexivity|]. cbn [flat_map].
  rewrite (H x) by now left. apply IH. intros y Hy. apply H. now right.
Qed.

Lemma flat_map_filter {A} (p : A -> bool) (f : A -> list B) (l : list A) :
  flat_map f (List.filter p l) = flat_map (fun x => if p x then f x else []) l.
Proof.
  induction l as [|x l IH]; [reflexivity|]. cbn [List.filter flat_map].
  destruct (p x); cbn [flat_map app]; now rewrite IH.
Qed.

Lemma flat_map_pairs_cons (k : string) (e : YextEntity) (b : list YextEntity) :
  flat_map (fun '(e1, e2) => F k e1 e2) (pairsOf (e :: b))
  = flat_map (F k e) b ++ flat_map (fun '(e1, e2) => F k e1 e2) (pairsOf b).
Proof.
  cbn [pairsOf]. rewrite flat_map_app. f_equal.
  induction b as [|x b IH]; [reflexivity|]. cbn [map flat_map]. now rewrite IH.
Qed.

Lemma flat_map_app_perm {A} (X H : A -> list B) (l : list A) :
  flat_map (fun k => X k ++ H k) l ≡ₚ flat_map X l ++ flat_map H l.
Proof.
  induction l as [|k l IH]; [reflexivity|]. cbn [flat_map]. rewrite IH.
  rewrite <- !app_assoc. apply Permutation_app_head.
  rewrite !app_assoc. apply Permutation_app_tail, Permutation_app_comm.
Qed.

Lemma flat_map_single (k0 : string) (X : string -> list B) (ks : list string) :
  List.NoDup ks -> In k0 ks ->
  flat_map (fun k => if String.eqb k0 k then X k else []) ks = X k0.
Proof.
  induction ks as [|k ks IH]; intros Hnd Hin; [destruct Hin|].
  apply NoDup_cons_iff in Hnd as [Hk Hnd]. cbn [flat_map].
  destruct (String.eqb_spec k0 k) as [->|Hne].
  - rewrite flat_map_nil; [apply app_nil_r|]. intros x Hx.
    destruct (String.eqb_spec k x) as [->|_]; [contradiction | reflexivity].
  - destruct Hin as [->|Hin]; [contradiction|]. now apply IH.
Qed.

(** Going through the buckets of the keys, and through the pairs of each
    bucket, meets every pair of records of one key once. *)
Lemma buckets_laterPairs (l : list YextEntity) (ks : list string) :
  List.NoDup ks -> (forall e, In e l -> In (key e) ks) ->
  flat_map (fun k =>
              flat_map (fun '(e1, e2) => F k e1 e2)
                       (pairsOf (List.filter (fun e => String.eqb (key e) k) l)))
           ks
  ≡ₚ laterPairs (fun e e2 => if String.eqb (key e2) (key e)
                             then F (key e) e e2 else []) l.
Proof.
  intros Hnd. induction l as [|e l IH]; intros Hcover.
  - cbn [List.filter pairsOf flat_map laterPairs].
    now rewrite flat_map_nil.
  - cbn [laterPairs].
    rewrite <- IH by (intros x Hx; apply Hcover; now right).
    rewrite <- (flat_map_filter (fun e2 => String.eqb (key e2) (key e))).
    rewrite <- (flat_map_single (key e)
                  (fun k => flat_map (F k e)
                              (List.filter (fun e2 => String.eqb (key e2) k) l))
                  ks Hnd) by (apply Hcover; now left).
    rewrite <- flat_map_app_perm.
    erewrite flat_map_ext_in; [reflexivity|]. intros k _. cbn [List.filter].
    destruct (String.eqb (key e) k); [apply flat_map_pairs_cons | reflexivity].
Qed.

Lemma flat_map_buckets (B' : string -> list YextEntity)
  (groups : list (string * list YextEntity)) :
  (forall k b, In (k, b) groups -> b = B' k) ->
  flat_map (fun '(k, b) => flat_map (fun '(e1, e2) => F k e1 e2) (pairsOf b))
           groups
  = flat_map (fun k => flat_map (fun '(e1, e2) => F k e1 e2) (pairsOf (B' k)))
             (map fst groups).
Proof.
  induction groups as [|[k b] groups IH]; intros H; [reflexivity|].
  cbn [flat_map map fst]. rewrite <- (H k b) by now left. f_equal.
  apply IH. intros k' b' Hin. apply H. now right.
Qed.

Lemma groupBy_laterPairs (l : list YextEntity) :
  flat_map (fun '(k, b) => flat_map (fun '(e1, e2) => F k e1 e2) (pairsOf b))
           (groupBy key l)
  ≡ₚ laterPairs (fun e e2 => if String.eqb (key e2) (key e)
                             then F (key e) e e2 else []) l.
Proof.
  rewrite (flat_map_buckets
             (fun k => List.filter (fun e => String.eqb (key e) k) l)).
  - apply buckets_laterPairs; [apply keys_groupBy|].
    intros e He.
    assert (Hne : groupOf (key e) (groupBy key l) <> []).
    { rewrite groupOf_groupBy. intros Hnil.
      assert (Hin : In e (List.filter (fun x => String.eqb (key x) (key e)) l))
        by (apply filter_In; split; [exact He | apply String.eqb_refl]).
      now rewrite Hnil in Hin. }
    apply in_groupOf in Hne. change (key e) with (fst (key e, groupOf (key e) (groupBy key l))).
    now apply in_map.
  - intros k b Hin. apply groupOf_in in Hin; [|apply keys_groupBy].
    now rewrite groupOf_groupBy in Hin.
Qed.

End PairsOnce.

Section PairwiseOnce.

Lemma pairwiseConflicts_laterPairs (entities : list YextEntity) :
  pairwiseConflicts entities
  ≡ₚ laterPairs (fun e e2 => if String.eqb (typeKey e2) (typeKey e)
                             then pairConflicts (typeKey e) e e2 else [])
                (List.filter isCompared entities).
Proof.
  unfold pairwiseConflicts. cbv zeta.
  destruct (List.filter isCompared entities) as [|e l] eqn:E; [reflexivity|].
  cbn [length Nat.ltb Nat.leb]. apply (groupBy_laterPairs typeKey pairConflicts).
Qed.

Lemma pairwiseConflicts_cons (e : YextEntity) (entities : list YextEntity) :
  pairwiseConflicts (e :: entities)
  ≡ₚ flat_map (fun e2 =>
                 if isCompared e && isCompared e2
                    && String.eqb (typeKey e2) (typeKey e)
                 then pairConflicts (typeKey e) e e2 else [])
              entities
     ++ pairwiseConflicts entities.
Proof.
  destruct (isCompared e) eqn:Hc.
  - rewrite (pairwiseConflicts_laterPairs (e :: entities)),
            (pairwiseConflicts_laterPairs entities).
    cbn [List.filter]. rewrite Hc. cbn [laterPairs].
    rewrite flat_map_filter. apply Permutation_app_tail.
    erewrite flat_map_ext_in; [reflexivity|]. intros e2 _. cbn [andb].
    now destruct (isCompared e2).
  - rewrite flat_map_nil by reflexivity. cbn [app].
    unfold pairwiseConflicts. cbn [List.filter]. now rewrite Hc.
Qed.

End PairwiseOnce.

(** X7. The pairwise path looks at every pair of input records that are
    both compared (neither FAQ nor left out) and of one type key, the earlier
    record first, and at each such pair once.  A group is reported exactly
    when it is the group of such a pair; and counting repetitions, the
    result for a list is what the first record gives with each later record,
    once each, together with the result for the rest of the list. *)
Theorem pairwise_groups_characterised :
  (forall entities g,
      In g (pairwiseConflicts entities)
      <-> exists l1 l2 l3 e1 e2,
            entities = l1 ++ e1 :: l2 ++ e2 :: l3
            /\ isCompared e1 = true /\ isCompared e2 = true
            /\ typeKey e1 = typeKey e2
            /\ In g (pairConflicts (typeKey e1) e1 e2))
  /\ pairwiseConflicts [] = []
  /\ (forall e entities,
        pairwiseConflicts (e :: entities)
        ≡ₚ flat_map (fun e2 =>
                       if isCompared e && isCompared e2
                          && String.eqb (typeKey e2) (typeKey e)
                       then pairConflicts (typeKey e) e e2 else [])
                    entities
           ++ pairwiseConflicts entities).
Proof.
  split; [|split; [reflexivity | apply pairwiseConflicts_cons]].
  intros entities g. split.
  - apply in_pairwiseConflicts_inv.
  - intros (l1 & l2 & l3 & e1 & e2 & -> & Hc1 & Hc2 & Hkey & Hg).
    apply pairConflicts_in_pairwiseConflicts; assumption.
Qed.


(** ** The groups of the FAQ path *)

Section FaqGroups.

Lemma forallb_false {A} (f : A -> bool) (l : list A) :
  forallb f l = false -> exists x, In x l /\ f x = false.
Proof.
  induction l as [|a l IH]; [discriminate|]. cbn [forallb].
  destruct (f a) eqn:Ea; cbn [andb]; intros H.
  - destruct (IH H) as (x & Hx & Hf). exists x. split; [now right | exact Hf].
  - exists a. split; [now left | exact Ea].
Qed.

(** More than one unique answer: two of the answers differ. *)
Lemma two_unique (l : list string) :
  (1 <? size (list_to_set l : gset string))%nat = true
  <-> exists a b, In a l /\ In b l /\ a <> b.
Proof.
  split.
  - intros H. destruct l as [|a l].
    + rewrite list_to_set_nil, size_empty in H. discriminate H.
    + destruct (forallb (String.eqb a) l) eqn:Eall.
      * exfalso.
        assert (Hs : (list_to_set (a :: l) : gset string) = {[ a ]}).
        { apply set_eq. intros x.
          rewrite elem_of_list_to_set, elem_of_singleton, elem_of_cons.
          split; [|auto]. intros [Hx|Hx]; [exact Hx|].
          apply list_elem_of_In in Hx.
          rewrite forallb_forall in Eall. specialize (Eall x Hx).
          now apply String.eqb_eq in Eall. }
        rewrite Hs, size_singleton in H. discriminate H.
      * apply forallb_false in Eall as (b & Hb & Hab).
        exists a, b. split; [now left|]. split; [now right|].
        intros ->. now rewrite String.eqb_refl in Hab.
  - intros (a & b & Ha & Hb & Hab).
    apply (two_elements a b); [| |exact Hab];
      apply elem_of_list_to_set, list_elem_of_In; assumption.
Qed.

Lemma faqGroupConflicts_spec (question : string) (faqs : list YextEntity) :
  faqGroupConflicts question faqs
  = if (1 <? length faqs)%nat
       && (1 <? size (list_to_set (map faqAnswer faqs) : gset string))%nat
    then [Group.mk ("faq-conflict-" +:+ question)
            ("FAQ Conflict: " +:+ dq +:+ question +:+ dq)
            (map refOf faqs)
            [Detail.mk "answer"
               (map (fun faq => valueOf faq (excerpt (faqAnswerText faq))) faqs)
               "faq_answer_conflict" high
               (showNat (length faqs)
                  +:+ " FAQ entities with identical questions have different answers")]
            high]
    else [].
Proof.
  unfold faqGroupConflicts. cbv zeta. rewrite !map_map. cbn [fst snd].
  destruct (1 <? length faqs)%nat; [|reflexivity]. cbn [andb].
  destruct (1 <? size _)%nat; reflexivity.
Qed.

Lemma faqs_differ (faqs : list YextEntity) :
  (1 <? length faqs)%nat
  && (1 <? size (list_to_set (map faqAnswer faqs) : gset string))%nat = true
  <-> exists f1 f2, In f1 faqs /\ In f2 faqs /\ faqAnswer f1 <> faqAnswer f2.
Proof.
  rewrite andb_true_iff, two_unique. split.
  - intros (_ & a & b & Ha & Hb & Hab).
    apply in_map_iff in Ha as (f1 & <- & Hf1).
    apply in_map_iff in Hb as (f2 & <- & Hf2). now exists f1, f2.
  - intros (f1 & f2 & Hf1 & Hf2 & Hne). split.
    + apply (two_members f1 f2); try assumption. now intros ->.
    + exists (faqAnswer f1), (faqAnswer f2).
      repeat split; try assumption; now apply in_map.
Qed.

Lemma in_faqConflicts_inv (entities : list YextEntity) (g : ConflictGroup) :
  In g (faqConflicts entities) ->
  exists question,
    In g (faqGroupConflicts question (faqsAsking question entities)).
Proof.
  unfold faqConflicts. cbv zeta. destruct (0 <? _)%nat; [|intros []].
  intros H. apply in_flat_map in H as [[question faqs] [Hq Hg]].
  apply groupOf_in in Hq; [|apply keys_groupBy].
  rewrite groupOf_groupBy in Hq. subst faqs. now exists question.
Qed.

Lemma faqGroupConflicts_in_faqConflicts (entities : list YextEntity)
  (question : string) (g : ConflictGroup) :
  In g (faqGroupConflicts question (faqsAsking question entities)) ->
  In g (faqConflicts entities).
Proof.
  intros Hg. unfold faqConflicts. cbv zeta.
  assert (Hne : faqsAsking question entities <> []).
  { intros He. rewrite He in Hg. exact Hg. }
  destruct (List.filter isFaq entities) as [|f fs] eqn:Ef.
  - exfalso. apply Hne. unfold faqsAsking. now rewrite Ef.
  - cbn [length Nat.ltb Nat.leb]. rewrite <- Ef.
    apply in_flat_map. exists (question, faqsAsking question entities).
    split; [|exact Hg].
    unfold faqsAsking in *. rewrite <- groupOf_groupBy in *.
    now apply in_groupOf.
Qed.

End FaqGroups.

(** X8. The FAQ path reports a group exactly for a normalised question that
    two FAQ records of the input ask with different normalised answers, and
    the group is fully determined by the question: it lists every FAQ record
    asking it, in input order, with one high [faq_answer_conflict] detail on
    the field [answer] holding an excerpt of each record's answer text. *)
Theorem faq_groups_characterised (entities : list YextEntity)
  (g : ConflictGroup) :
  In g (faqConflicts entities)
  <-> exists question f1 f2,
        let faqs := faqsAsking question entities in
        In f1 faqs /\ In f2 faqs /\ faqAnswer f1 <> faqAnswer f2
        /\ g = Group.mk ("faq-conflict-" +:+ question)
                 ("FAQ Conflict: " +:+ dq +:+ question +:+ dq)
                 (map refOf faqs)
                 [Detail.mk "answer"
                    (map (fun faq => valueOf faq (excerpt (faqAnswerText faq)))
                         faqs)
                    "faq_answer_conflict" high
                    (showNat (length faqs)
                       +:+ " FAQ entities with identical questions have different answers")]
                 high.
Proof.
  cbv zeta. split.
  - intros H. apply in_faqConflicts_inv in H as (question & H).
    rewrite faqGroupConflicts_spec in H.
    destruct (_ && _) eqn:Hc in H; [|destruct H].
    apply faqs_differ in Hc as (f1 & f2 & Hf1 & Hf2 & Hne).
    destruct H as [<-|[]]. now exists question, f1, f2.
  - intros (question & f1 & f2 & Hf1 & Hf2 & Hne & ->).
    apply (faqGroupConflicts_in_faqConflicts entities question).
    rewrite faqGroupConflicts_spec.
    replace (_ && _) with true; [now left|].
    symmetry. apply faqs_differ. now exists f1, f2.
Qed.

(** ** Severities and values *)

Section Outcomes.

Lemma someSeverity_high_contentDetails (entityType : string)
  (e1 e2 : YextEntity) :
  someSeverity high (contentDetails entityType e1 e2)
  = gtQ (nameSimilarityOf e1 e2) (3 # 10)
    && negb (String.eqb (selectContent e1) "")
    && negb (String.eqb (selectContent e2) "")
    && detectSemanticContradictions (selectContent e1) (selectContent e2).
Proof.
  pose proof (contentDetails_spec entityType e1 e2) as H. cbv zeta in H.
  destruct (gtQ _ _); [|now rewrite H]. cbn [andb] in *.
  destruct (negb (String.eqb (selectContent e1) "")); [|now rewrite H].
  cbn [andb] in *.
  destruct (negb (String.eqb (selectContent e2) "")); [|now rewrite H].
  cbn [andb] in *.
  destruct (String.eqb_spec (normalizeString (selectContent e1))
                            (normalizeString (selectContent e2))) as [Heq|_].
  - cbn [negb] in H. rewrite H.
    now rewrite (detectSemanticContradictions_equal _ _ Heq).
  - cbn [negb] in H. destruct H as (d & -> & _ & Hs).
    unfold someSeverity. cbn [existsb]. rewrite Hs.
    now destruct (detectSemanticContradictions _ _).
Qed.

Lemma someSeverity_high_medium (ds : list ConflictDetail) :
  (forall d, In d ds -> Detail.severity d = medium) ->
  someSeverity high ds = false.
Proof.
  intros H. unfold someSeverity.
  destruct (existsb _ ds) eqn:E; [|reflexivity].
  apply existsb_exists in E as (d & Hd & Hs). now rewrite (H d Hd) in Hs.
Qed.

Lemma someSeverity_high_pairDetails (entityType : string)
  (e1 e2 : YextEntity) :
  someSeverity high (pairDetails entityType e1 e2)
  = someSeverity high (contentDetails entityType e1 e2).
Proof.
  unfold pairDetails, someSeverity. rewrite !existsb_app.
  fold (someSeverity high (phoneDetails e1 e2)).
  fold (someSeverity high (urlDetails e1 e2)).
  rewrite (someSeverity_high_medium (phoneDetails e1 e2)),
          (someSeverity_high_medium (urlDetails e1 e2)).
  - now rewrite !orb_false_r.
  - intros d Hd. now apply urlDetails_values in Hd.
  - intros d Hd. now apply phoneDetails_values in Hd.
Qed.

Lemma group_not_low (entities : list YextEntity) (g : ConflictGroup) :
  In g (detectConflicts entities) ->
  Group.severity g = high \/ Group.severity g = medium.
Proof.
  intros Hg. apply in_app_or in Hg as [Hg|Hg].
  - apply in_faqConflicts in Hg as (question & faqs & Hg).
    apply in_faqGroupConflicts in Hg as (d & _ & _ & ->). now left.
  - apply in_pairwiseConflicts in Hg as (entityType & e1 & e2 & Hg).
    apply in_pairConflicts in Hg as [Hne ->]. cbn [Group.severity].
    apply maxSeverity_attained in Hne as (d & Hd & <-).
    now apply pairDetails_values in Hd.
Qed.

Lemma filter_none {A} (f : A -> bool) (l : list A) :
  (forall x, In x l -> f x = false) -> List.filter f l = [].
Proof.
  induction l as [|a l IH]; intros H; [reflexivity|]. cbn [List.filter].
  rewrite (H a) by now left. apply IH. intros x Hx. apply H. now right.
Qed.

End Outcomes.

(** X9. The groups of one pair of records hold a high group exactly when the
    normalised names are more than 0.3 similar, both selected texts are
    non-empty and the contradiction engine reports a contradiction between
    the two texts; the phone and website checks never raise a group to
    high. *)
Theorem pair_high_iff_contradiction (entityType : string) (e1 e2 : YextEntity) :
  existsb (fun g => severityEqb (Group.severity g) high)
          (pairConflicts entityType e1 e2)
  = gtQ (nameSimilarityOf e1 e2) (3 # 10)
    && negb (String.eqb (selectContent e1) "")
    && negb (String.eqb (selectContent e2) "")
    && detectSemanticContradictions (selectContent e1) (selectContent e2).
Proof.
  rewrite <- (someSeverity_high_contentDetails entityType),
          <- someSeverity_high_pairDetails.
  unfold pairConflicts. cbv zeta.
  destruct (pairDetails entityType e1 e2) as [|d ds] eqn:E; [reflexivity|].
  cbn [length Nat.ltb Nat.leb existsb Group.severity].
  destruct (someSeverity high (d :: ds)); [reflexivity|].
  now destruct (someSeverity medium (d :: ds)).
Qed.

(** X10. No group and no detail reported by [detectConflicts] has severity
    low: every group is high or medium, and in the summary of a result the
    low count is zero and the high and medium counts add up to the total. *)
Theorem detectConflicts_never_low (entities : list YextEntity) :
  (forall g, In g (detectConflicts entities) ->
             Group.severity g = high \/ Group.severity g = medium)
  /\ (forall g d, In g (detectConflicts entities) ->
                  In d (Group.conflictDetails g) ->
                  Detail.severity d = high \/ Detail.severity d = medium)
  /\ Summary.lowSeverity (getConflictSummary (detectConflicts entities)) = 0
  /\ Summary.highSeverity (getConflictSummary (detectConflicts entities))
     + Summary.mediumSeverity (getConflictSummary (detectConflicts entities))
     = Summary.totalConflicts (getConflictSummary (detectConflicts entities)).
Proof.
  assert (Hlow : List.filter (fun c => severityEqb (Group.severity c) low)
                             (detectConflicts entities) = []).
  { apply filter_none. intros g Hg.
    now destruct (group_not_low entities g Hg) as [-> | ->]. }
  split; [apply group_not_low|]. split; [|split].
  - intros g d Hg Hd. apply in_app_or in Hg as [Hg|Hg].
    + apply in_faqConflicts in Hg as (question & faqs & Hg).
      apply in_faqGroupConflicts in Hg as (d' & _ & Hs & ->).
      destruct Hd as [<-|[]]. now left.
    + apply in_pairwiseConflicts in Hg as (entityType & e1 & e2 & Hg).
      apply in_pairConflicts in Hg as [_ ->].
      now apply pairDetails_values in Hd.
  - unfold getConflictSummary. cbn [Summary.lowSeverity]. now rewrite Hlow.
  - unfold getConflictSummary.
    cbn [Summary.highSeverity Summary.mediumSeverity Summary.totalConflicts].
    pose proof (count_severities (detectConflicts entities)) as H.
    rewrite Hlow in H. cbn [length] in H. lia.
Qed.

(** X11. In every group that [detectConflicts] reports, each detail lists one
    value per entity of the group, in the same order and under the same
    identifier and name; a group names at least two entities. *)
Theorem detail_values_follow_entities (entities : list YextEntity)
  (g : ConflictGroup) (d : ConflictDetail)
  (Hg : In g (detectConflicts entities))
  (Hd : In d (Group.conflictDetails g)) :
  map Value.entityId (Detail.values d) = map Ref.id (Group.entities g)
  /\ map Value.entityName (Detail.values d) = map Ref.name (Group.entities g)
  /\ 2 <= length (Group.entities g).
Proof.
  apply in_app_or in Hg as [Hg|Hg].
  - apply in_faqConflicts_inv in Hg as (question & Hg).
    rewrite faqGroupConflicts_spec in Hg.
    destruct (1 <? length _)%nat eqn:Hlen in Hg; [|destruct Hg].
    cbn [andb] in Hg. destruct (1 <? size _)%nat in Hg; [|destruct Hg].
    destruct Hg as [<-|[]]. destruct Hd as [<-|[]].
    cbn [Group.entities Detail.values]. rewrite !map_map, length_map.
    apply Nat.ltb_lt in Hlen. repeat split; try reflexivity. lia.
  - apply in_pairwiseConflicts in Hg as (entityType & e1 & e2 & Hg).
    apply in_pairConflicts in Hg as [_ ->]. cbn [Group.conflictDetails] in Hd.
    apply pairDetails_values in Hd as (_ & v1 & v2 & ->).
    cbn [Group.entities]. repeat split. cbn [length]. lia.
Qed.

Lemma detail_values_follow_entities_witness :
  map Value.entityId
      [Value.mk (Some "unknown") (Some "Alpha") "555-0100";
       Value.mk (Some "unknown") (Some "Beta") "555 0100"]
  = map Ref.id (Group.entities sharedPhoneGroup)
  /\ map Value.entityName
         [Value.mk (Some "unknown") (Some "Alpha") "555-0100";
          Value.mk (Some "unknown") (Some "Beta") "555 0100"]
     = map Ref.name (Group.entities sharedPhoneGroup)
  /\ 2 <= length (Group.entities sharedPhoneGroup).
Proof.
  apply (detail_values_follow_entities sharedPhone sharedPhoneGroup
           (Detail.mk "mainPhone"
              [Value.mk (Some "unknown") (Some "Alpha") "555-0100";
               Value.mk (Some "unknown") (Some "Beta") "555 0100"]
              "phone_mismatch" medium
              "Different entities sharing the same phone number")).
  - vm_compute. left. reflexivity.
  - vm_compute. left. reflexivity.
Defined.

(** X12. The identifiers of the FAQ groups are pairwise distinct and start
    with [faq-conflict-]; the identifiers of the pair groups start with
    [conflict-], so no FAQ group shares its identifier with a pair group. *)
Theorem faq_ids_distinct (entities : list YextEntity) :
  List.NoDup (map Group.id (faqConflicts entities))
  /\ (forall g, In g (faqConflicts entities) ->
                exists question, Group.id g = "faq-conflict-" +:+ question)
  /\ (forall g, In g (pairwiseConflicts entities) ->
                exists names, Group.id g = "conflict-" +:+ names)
  /\ (forall g1 g2, In g1 (faqConflicts entities) ->
                    In g2 (pairwiseConflicts entities) ->
                    Group.id g1 <> Group.id g2).
Proof.
  assert (Hf : forall g, In g (faqConflicts entities) ->
                 exists question, Group.id g = "faq-conflict-" +:+ question).
  { intros g Hg. apply in_faqConflicts in Hg as (question & faqs & Hg).
    apply in_faqGroupConflicts in Hg as (d & _ & _ & ->). now exists question. }
  assert (Hp : forall g, In g (pairwiseConflicts entities) ->
                 exists names, Group.id g = "conflict-" +:+ names).
  { intros g Hg. apply in_pairwiseConflicts in Hg as (entityType & e1 & e2 & Hg).
    apply in_pairConflicts in Hg as [_ ->]. cbn [Group.id]. eexists. reflexivity. }
  split; [apply faqConflicts_distinct_ids|]. split; [exact Hf|].
  split; [exact Hp|].
  intros g1 g2 H1 H2. destruct (Hf g1 H1) as (question & ->).
  destruct (Hp g2 H2) as (names & ->). discriminate.
Qed.


(** ** The order of the two records *)

Section Symmetry.

Lemma calculateSimilarity_sym (s1 s2 : string) :
  calculateSimilarity s1 s2 = calculateSimilarity s2 s1.
Proof.
  rewrite !calculateSimilarity_unfold. cbv zeta.
  rewrite (levenshtein_sym (chars s2)), (Nat.max_comm (length (chars s2))).
  destruct (length (chars s1) =? 0)%nat, (length (chars s2) =? 0)%nat;
    reflexivity.
Qed.

Lemma isEmpty_flat_map {A B} (f : A -> list B) (l : list A) :
  isEmpty (flat_map f l) = forallb (fun x => isEmpty (f x)) l.
Proof.
  induction l as [|a l IH]; [reflexivity|]. cbn [flat_map forallb].
  destruct (f a); [exact IH | reflexivity].
Qed.

Lemma forallb_pointwise {A} (f g : A -> bool) (l : list A) :
  (forall x, f x = g x) -> forallb f l = forallb g l.
Proof.
  intros H. induction l as [|a l IH]; [reflexivity|]. cbn [forallb].
  now rewrite H, IH.
Qed.

Lemma forallb_const_true {A} (l : list A) : forallb (fun _ => true) l = true.
Proof. induction l; auto. Qed.

Lemma forallb_swap {A B} (P : A -> B -> bool) (l1 : list A) (l2 : list B) :
  forallb (fun a => forallb (fun b => P a b) l2) l1
  = forallb (fun b => forallb (fun a => P a b) l1) l2.
Proof.
  induction l1 as [|a l1 IH]; cbn [forallb].
  - now rewrite forallb_const_true.
  - rewrite IH. clear IH. induction l2 as [|b l2 IH]; [reflexivity|].
    cbn [forallb]. rewrite <- IH.
    destruct (P a b), (forallb (fun b => P a b) l2),
      (forallb (fun a => P a b) l1); reflexivity.
Qed.

Lemma areContextsSimilar_sym (context1 context2 : string) :
  areContextsSimilar context1 context2 = areContextsSimilar context2 context1.
Proof.
  unfold areContextsSimilar. cbv zeta.
  set (w1 := list_to_set (splitSpaces false [] (chars (normalizeString context1)))
            : gset string).
  set (w2 := list_to_set (splitSpaces false [] (chars (normalizeString context2)))
            : gset string).
  assert (Hi : w2 ∩ w1 = w1 ∩ w2) by set_solver.
  assert (Hu : w2 ∪ w1 = w1 ∪ w2) by set_solver.
  now rewrite Hi, Hu.
Qed.

Lemma factTypeEqb_eq (a b : FactType) : factTypeEqb a b = true <-> a = b.
Proof. destruct a, b; cbn; split; congruence. Qed.

Lemma areFactsContradictory_sym (fact1 fact2 : Fact) :
  ftype fact1 = ftype fact2 ->
  areFactsContradictory fact1 fact2 = areFactsContradictory fact2 fact1.
Proof.
  intros H. unfold areFactsContradictory. rewrite <- H. cbv zeta.
  destruct (ftype fact1); try apply orb_comm;
    now rewrite String.eqb_sym.
Qed.

Lemma in_typeKeys (seen : list FactType) (facts : list Fact) (a : Fact) :
  In a facts -> existsb (factTypeEqb (ftype a)) seen = false ->
  In (ftype a) (typeKeys seen facts).
Proof.
  revert seen. induction facts as [|f facts IH]; intros seen Ha Hs;
    [destruct Ha|].
  cbn [typeKeys]. destruct (existsb (factTypeEqb (ftype f)) seen) eqn:Ef.
  - destruct Ha as [->|Ha]; [congruence|]. now apply IH.
  - destruct Ha as [->|Ha]; [now left|].
    destruct (factTypeEqb (ftype a) (ftype f)) eqn:Et.
    + apply factTypeEqb_eq in Et. left. now symmetry.
    + right. apply IH; [exact Ha|]. cbn [existsb]. now rewrite Et.
Qed.

(** The factual layer finds something exactly when two facts of one type,
    one of each text, contradict each other. *)
Lemma findFactualContradictions_some (facts1 facts2 : list Fact) :
  isEmpty (findFactualContradictions facts1 facts2) = false
  <-> exists a b, In a facts1 /\ In b facts2 /\ ftype a = ftype b
                  /\ areFactsContradictory a b = true.
Proof.
  unfold findFactualContradictions. split.
  - intros H. destruct (flat_map _ _) as [|x l] eqn:E in H; [discriminate|].
    assert (Hx : In x (x :: l)) by now left. rewrite <- E in Hx.
    apply in_flat_map in Hx as (t & _ & Hx).
    destruct (isEmpty (factsOfType t facts2)); [destruct Hx|].
    apply in_flat_map in Hx as (a & Ha & Hx).
    apply in_flat_map in Hx as (b & Hb & Hx).
    destruct (areFactsContradictory a b) eqn:Hc; [|destruct Hx].
    apply filter_In in Ha as [Ha Hta], Hb as [Hb Htb].
    apply factTypeEqb_eq in Hta, Htb.
    exists a, b. repeat split; congruence.
  - intros (a & b & Ha & Hb & Ht & Hc).
    assert (Hin : In (factTypeName (ftype a) +:+ ": " +:+ dq +:+ fvalue a +:+ dq
                        +:+ " vs " +:+ dq +:+ fvalue b +:+ dq)
                     (flat_map (fun t =>
                        if isEmpty (factsOfType t facts2) then []
                        else
                          flat_map (fun fact1 =>
                            flat_map (fun fact2 =>
                              if areFactsContradictory fact1 fact2
                              then [factTypeName t +:+ ": " +:+ dq
                                      +:+ fvalue fact1 +:+ dq +:+ " vs " +:+ dq
                                      +:+ fvalue fact2 +:+ dq]
                              else [])
                              (factsOfType t facts2))
                            (factsOfType t facts1))
                        (typeKeys [] facts1))).
    { apply in_flat_map. exists (ftype a). split; [now apply in_typeKeys|].
      assert (Hb' : In b (factsOfType (ftype a) facts2)).
      { apply filter_In. split; [exact Hb|]. now apply factTypeEqb_eq. }
      destruct (factsOfType (ftype a) facts2) as [|b0 bs] eqn:E2;
        [destruct Hb'|]. cbn [isEmpty].
      apply in_flat_map. exists a. split.
      { apply filter_In. split; [exact Ha|]. now apply factTypeEqb_eq. }
      apply in_flat_map. exists b. split; [exact Hb'|].
      rewrite Hc. now left. }
    destruct (flat_map _ _); [destruct Hin | reflexivity].
Qed.

Lemma bool_eq_false (a b : bool) : (a = false <-> b = false) -> a = b.
Proof. destruct a, b; intros [H1 H2]; auto; now (rewrite H1 || rewrite H2). Qed.

Lemma findFactualContradictions_sym (facts1 facts2 : list Fact) :
  isEmpty (findFactualContradictions facts1 facts2)
  = isEmpty (findFactualContradictions facts2 facts1).
Proof.
  apply bool_eq_false. rewrite !findFactualContradictions_some.
  split; intros (a & b & Ha & Hb & Ht & Hc); exists b, a;
    repeat split; try assumption; try congruence;
    now rewrite areFactsContradictory_sym.
Qed.

Lemma existsb_pointwise {A} (f g : A -> bool) (l : list A) :
  (forall x, f x = g x) -> existsb f l = existsb g l.
Proof.
  intros H. induction l as [|a l IH]; [reflexivity|]. cbn [existsb].
  now rewrite H, IH.
Qed.

Lemma areInstructionsContradictory_sym (inst1 inst2 : string) :
  areInstructionsContradictory inst1 inst2
  = areInstructionsContradictory inst2 inst1.
Proof.
  unfold areInstructionsContradictory. cbv zeta.
  apply existsb_pointwise. intros [positive negatives].
  destruct (includes (normalizeString inst1) positive),
    (includes (normalizeString inst2) positive),
    (existsb (includes (normalizeString inst1)) negatives),
    (existsb (includes (normalizeString inst2)) negatives); reflexivity.
Qed.

Lemma forallb_combine_snd {A B} (g : B -> bool) (l1 : list A) (l2 : list B) :
  length l2 <= length l1 ->
  forallb (fun x => g (snd x)) (combine l1 l2) = forallb g l2.
Proof.
  revert l1. induction l2 as [|b l2 IH]; intros [|a l1] H; try reflexivity.
  - cbn [length] in H. lia.
  - cbn [combine forallb snd]. rewrite IH; [reflexivity|]. cbn [length] in H. lia.
Qed.

Lemma forallb_combine_swap {A B} (h : A -> B -> bool) (l1 : list A)
  (l2 : list B) :
  forallb (fun x => h (fst x) (snd x)) (combine l1 l2)
  = forallb (fun x => h (snd x) (fst x)) (combine l2 l1).
Proof.
  revert l2. induction l1 as [|a l1 IH]; intros [|b l2]; try reflexivity.
  cbn [combine forallb fst snd]. now rewrite IH.
Qed.

Lemma findProceduralContradictions_sym (text1 text2 : string) :
  isEmpty (findProceduralContradictions text1 text2)
  = isEmpty (findProceduralContradictions text2 text1).
Proof.
  unfold findProceduralContradictions. cbv zeta.
  rewrite (andb_comm (negb (isEmpty (matchAll reStep (chars text2))))).
  destruct (_ && _); [|reflexivity].
  rewrite !isEmpty_flat_map.
  set (i1 := map _ (matchAll reStep (chars text1))).
  set (i2 := map _ (matchAll reStep (chars text2))).
  rewrite (forallb_pointwise _
             (fun x => negb (areInstructionsContradictory (fst (snd x))
                                                          (snd (snd x))))).
  2:{ intros [i [a b]]. cbn [fst snd].
      now destruct (areInstructionsContradictory a b). }
  rewrite (forallb_pointwise
             (fun x => isEmpty (let '(i, (inst1, inst2)) := x in _))
             (fun x => negb (areInstructionsContradictory (fst (snd x))
                                                          (snd (snd x))))).
  2:{ intros [i [a b]]. cbn [fst snd].
      now destruct (areInstructionsContradictory a b). }
  rewrite (forallb_combine_snd
             (fun p => negb (areInstructionsContradictory (fst p) (snd p)))
             (seq 0 (length i1)) (combine i1 i2)).
  2:{ rewrite length_combine, length_seq. lia. }
  rewrite (forallb_combine_snd
             (fun p => negb (areInstructionsContradictory (fst p) (snd p)))
             (seq 0 (length i2)) (combine i2 i1)).
  2:{ rewrite length_combine, length_seq. lia. }
  rewrite (forallb_combine_swap
             (fun a b => negb (areInstructionsContradictory a b)) i1 i2).
  apply forallb_pointwise. intros [b a]. cbn [fst snd].
  now rewrite areInstructionsContradictory_sym.
Qed.

Lemma findTemporalContradictions_sym (text1 text2 : string) :
  isEmpty (findTemporalContradictions text1 text2)
  = isEmpty (findTemporalContradictions text2 text1).
Proof.
  unfold findTemporalContradictions. cbv zeta.
  rewrite (andb_comm (negb (isEmpty (matchAll reDate (chars text2))))).
  destruct (_ && _); [|reflexivity].
  rewrite !isEmpty_flat_map.
  rewrite (forallb_pointwise _ _ _
             (fun date1 => isEmpty_flat_map _ (matchAll reDate (chars text2)))).
  rewrite (forallb_pointwise _ _ (matchAll reDate (chars text2))
             (fun date2 => isEmpty_flat_map _ (matchAll reDate (chars text1)))).
  rewrite forallb_swap.
  apply forallb_pointwise. intros date2.
  apply forallb_pointwise. intros date1.
  rewrite (String.eqb_sym (str (group 1 (chars text2) date2))).
  destruct (negb _); [|reflexivity].
  rewrite areContextsSimilar_sym. now destruct (areContextsSimilar _ _).
Qed.

Lemma findQuantitativeContradictions_sym (text1 text2 : string) :
  isEmpty (findQuantitativeContradictions text1 text2)
  = isEmpty (findQuantitativeContradictions text2 text1).
Proof.
  unfold findQuantitativeContradictions. cbv zeta.
  rewrite (andb_comm (negb (isEmpty (matchAll reQuantity (chars text2))))).
  destruct (_ && _); [|reflexivity].
  rewrite !isEmpty_flat_map.
  rewrite (forallb_pointwise _ _ _
             (fun num1 => isEmpty_flat_map _ (matchAll reQuantity (chars text2)))).
  rewrite (forallb_pointwise _ _ (matchAll reQuantity (chars text2))
             (fun num2 => isEmpty_flat_map _ (matchAll reQuantity (chars text1)))).
  rewrite forallb_swap.
  apply forallb_pointwise. intros num2.
  apply forallb_pointwise. intros num1.
  rewrite (String.eqb_sym (lowerStr (str (group 2 (chars text2) num2)))),
          (String.eqb_sym (str (group 1 (chars text2) num2))).
  destruct (_ && _); [|reflexivity].
  rewrite areContextsSimilar_sym. now destruct (areContextsSimilar _ _).
Qed.

Lemma detectSemanticContradictions_sym (text1 text2 : string) :
  detectSemanticContradictions text1 text2
  = detectSemanticContradictions text2 text1.
Proof.
  unfold detectSemanticContradictions. cbv zeta.
  rewrite (String.eqb_sym (normalizeString text2)).
  destruct (String.eqb _ _); [reflexivity|].
  now rewrite (findFactualContradictions_sym
                 (extractFacts (normalizeString text2))),
    (findProceduralContradictions_sym (normalizeString text2)),
    (findTemporalContradictions_sym (normalizeString text2)),
    (findQuantitativeContradictions_sym (normalizeString text2)).
Qed.

Lemma optEqb_sym (a b : option string) : optEqb a b = optEqb b a.
Proof. destruct a, b; cbn; auto using String.eqb_sym. Qed.

Lemma conflictFieldAndType_sym (e1 e2 : YextEntity) (suffix : string) :
  conflictFieldAndType e2 e1 suffix = conflictFieldAndType e1 e2 suffix.
Proof.
  unfold conflictFieldAndType.
  now rewrite (andb_comm (richTruthy (Entity.body e2))),
    (andb_comm (isTruthy (Entity.content e2))),
    (andb_comm (isTruthy (Entity.description e2))).
Qed.

Lemma contentDetails_swap (entityType : string) (e1 e2 : YextEntity) :
  contentDetails entityType e2 e1
  = map swapValues (contentDetails entityType e1 e2).
Proof.
  unfold contentDetails, nameSimilarityOf. cbv zeta.
  rewrite (calculateSimilarity_sym
             (normalizeString (orLit (Entity.name e2) ""))),
    (andb_comm (negb (String.eqb (selectContent e2) ""))),
    (String.eqb_sym (normalizeString (selectContent e2))),
    (detectSemanticContradictions_sym (selectContent e2)),
    !(conflictFieldAndType_sym e1 e2).
  destruct (gtQ _ _); [|reflexivity].
  destruct (_ && _); [|reflexivity].
  destruct (negb _), (detectSemanticContradictions _ _); cbn [andb];
    try reflexivity; now destruct (conflictFieldAndType e1 e2 _).
Qed.

Lemma phoneDetails_swap (e1 e2 : YextEntity) :
  phoneDetails e2 e1 = map swapValues (phoneDetails e1 e2).
Proof.
  unfold phoneDetails.
  destruct (truthy (Entity.mainPhone e1)) as [p1|],
    (truthy (Entity.mainPhone e2)) as [p2|]; try reflexivity.
  rewrite (String.eqb_sym (normalizePhone p2)),
          (optEqb_sym (Entity.name e2)).
  now destruct (_ && _).
Qed.

Lemma urlDetails_swap (e1 e2 : YextEntity) :
  urlDetails e2 e1 = map swapValues (urlDetails e1 e2).
Proof.
  unfold urlDetails.
  destruct (truthy (Entity.websiteUrl e1)) as [u1|],
    (truthy (Entity.websiteUrl e2)) as [u2|]; try reflexivity.
  rewrite (String.eqb_sym u2), (optEqb_sym (Entity.name e2)).
  now destruct (_ && _).
Qed.

Lemma pairDetails_swap (entityType : string) (e1 e2 : YextEntity) :
  pairDetails entityType e2 e1 = map swapValues (pairDetails entityType e1 e2).
Proof.
  unfold pairDetails.
  now rewrite contentDetails_swap, phoneDetails_swap, urlDetails_swap, !map_app.
Qed.

Lemma someSeverity_swap (s : Severity) (ds : list ConflictDetail) :
  someSeverity s (map swapValues ds) = someSeverity s ds.
Proof.
  unfold someSeverity. induction ds as [|d ds IH]; [reflexivity|].
  cbn [map existsb swapValues Detail.severity]. now rewrite IH.
Qed.

End Symmetry.

(** X13. The contradiction engine does not depend on the order of its two
    texts, and the checks of a pair do not depend on the order of the two
    records: the pair taken the other way round gets the same details, with
    the two values of each detail swapped, and a group of the same
    severity. *)
Theorem pair_order_irrelevant (entityType : string) (e1 e2 : YextEntity) :
  (forall text1 text2,
      detectSemanticContradictions text1 text2
      = detectSemanticContradictions text2 text1)
  /\ pairDetails entityType e2 e1 = map swapValues (pairDetails entityType e1 e2)
  /\ map Group.severity (pairConflicts entityType e2 e1)
     = map Group.severity (pairConflicts entityType e1 e2).
Proof.
  split; [apply detectSemanticContradictions_sym|].
  split; [apply pairDetails_swap|].
  unfold pairConflicts. cbv zeta.
  rewrite pairDetails_swap, length_map, !someSeverity_swap.
  now destruct (0 <? _)%nat.
Qed.

(** X14. Names of very different lengths are never compared on content: if
    the shorter normalised name has at most three tenths of the length of the
    longer one, the pair gets no content detail whatever the two texts are,
    and so no high group. *)
Theorem short_name_no_content_detail (entityType : string) (e1 e2 : YextEntity)
  (Hlong : 0 < Nat.max
                 (String.length (normalizeString (orLit (Entity.name e1) "")))
                 (String.length (normalizeString (orLit (Entity.name e2) ""))))
  (Hshort : 10 * Nat.min
                   (String.length (normalizeString (orLit (Entity.name e1) "")))
                   (String.length (normalizeString (orLit (Entity.name e2) "")))
            <= 3 * Nat.max
                     (String.length (normalizeString (orLit (Entity.name e1) "")))
                     (String.length (normalizeString (orLit (Entity.name e2) "")))) :
  contentDetails entityType e1 e2 = []
  /\ existsb (fun g => severityEqb (Group.severity g) high)
             (pairConflicts entityType e1 e2) = false.
Proof.
  assert (Hgate : gtQ (nameSimilarityOf e1 e2) (3 # 10) = false).
  { unfold gtQ, nameSimilarityOf. apply negb_false_iff, Qle_bool_iff.
    revert Hlong Hshort.
    set (n1 := normalizeString (orLit (Entity.name e1) "")).
    set (n2 := normalizeString (orLit (Entity.name e2) "")).
    rewrite <- !length_chars. intros Hlong Hshort.
    rewrite calculateSimilarity_unfold. cbv zeta.
    pose proof (levenshtein_length_l (chars n1) (chars n2)) as Hl.
    pose proof (levenshtein_length_r (chars n1) (chars n2)) as Hr.
    pose proof (levenshtein_le_max (chars n1) (chars n2)) as Hm.
    destruct (Nat.eqb_spec (length (chars n1)) 0) as [H1|H1];
      destruct (Nat.eqb_spec (length (chars n2)) 0) as [H2|H2].
    - rewrite H1, H2 in Hlong. cbn in Hlong. lia.
    - unfold Qle. cbn. lia.
    - unfold Qle. cbn. lia.
    - unfold ratio, Qle. cbn [Qnum Qden]. lia. }
  split.
  - unfold contentDetails. cbv zeta. now rewrite Hgate.
  - unfold pairConflicts. cbv zeta.
    assert (Hh : someSeverity high (pairDetails entityType e1 e2) = false).
    { rewrite someSeverity_high_pairDetails, someSeverity_high_contentDetails.
      now rewrite Hgate. }
    destruct (0 <? _)%nat; [|reflexivity].
    cbn [existsb Group.severity]. rewrite Hh.
    now destruct (someSeverity medium _).
Qed.

Lemma short_name_no_content_detail_witness :
  contentDetails "product"
    (sampleRecord "product" "Al" (Some "Founded in 1999") None None)
    (sampleRecord "product" "Zeta Grill" (Some "Founded in 2001") None None)
  = []
  /\ existsb (fun g => severityEqb (Group.severity g) high)
       (pairConflicts "product"
          (sampleRecord "product" "Al" (Some "Founded in 1999") None None)
          (sampleRecord "product" "Zeta Grill" (Some "Founded in 2001") None
                        None))
     = false.
Proof.
  apply (short_name_no_content_detail "product"
           (sampleRecord "product" "Al" (Some "Founded in 1999") None None)
           (sampleRecord "product" "Zeta Grill" (Some "Founded in 2001") None
                         None)).
  - vm_compute. lia.
  - vm_compute. lia.
Defined.


(** ** Texts without markup *)

Section PlainText.

Variable q : ascii -> bool.

Lemma in_allAscii (c : ascii) : In c allAscii.
Proof.
  unfold allAscii. rewrite <- (ascii_nat_embedding c). apply in_map, in_seq.
  pose proof (nat_ascii_bounded c). lia.
Qed.

(** A match ends in the continuation: if the continuation fails on every
    state whose remaining input is free of [q], so does the match. *)
Lemma rmatch_fails (r : regex) (st : mstate) (k : mstate -> option mstate) :
  existsb q (rest st) = false ->
  (forall st', existsb q (rest st') = false -> k st' = None) ->
  rmatch r st k = None.
Proof.
  revert st k.
  induction r as [|p| |r1 IH1 r2 IH2|r1 IH1 r2 IH2|greedy r IH|n r IH];
    intros st k Hst Hk; cbn [rmatch].
  - now apply Hk.
  - destruct (rest st) as [|c l] eqn:E; [reflexivity|].
    destruct (p c); [|reflexivity]. apply Hk. cbn [step rest].
    cbn [existsb] in Hst. now apply orb_false_iff in Hst.
  - destruct (prev st) as [c|]; [|now apply Hk].
    destruct (isLineTerminator c); [now apply Hk | reflexivity].
  - apply IH1; [exact Hst|]. intros st' Hst'. now apply IH2.
  - now rewrite IH1, IH2.
  - rewrite (Hk st Hst), IH; [now destruct greedy | exact Hst |].
    intros st' Hst'. destruct (pos st' =? pos st)%nat; [reflexivity|].
    generalize (length (rest st)). intros fuel. clear st Hst.
    revert st' Hst'.
    induction fuel as [|fuel IHf]; intros st Hst; [now apply Hk|].
    cbn beta iota. rewrite (Hk st Hst), IH; [now destruct greedy | exact Hst |].
    intros st' Hst'. destruct (pos st' =? pos st)%nat; [reflexivity|].
    now apply IHf.
  - apply IH; [exact Hst|]. intros st' Hst'. now apply Hk.
Qed.

Lemma rmatch_consumes (r : regex) (st : mstate) (k : mstate -> option mstate) :
  consumes q r = true -> existsb q (rest st) = false -> rmatch r st k = None.
Proof.
  revert st k.
  induction r as [|p| |r1 IH1 r2 IH2|r1 IH1 r2 IH2|greedy r IH|n r IH];
    intros st k Hr Hst; cbn [consumes] in Hr; try discriminate Hr;
    cbn [rmatch].
  - destruct (rest st) as [|c l] eqn:E; [reflexivity|].
    cbn [existsb] in Hst. apply orb_false_iff in Hst as [Hc _].
    rewrite forallb_forall in Hr. specialize (Hr c (in_allAscii c)).
    rewrite Hc in Hr. now destruct (p c).
  - apply orb_true_iff in Hr as [Hr|Hr]; [now apply IH1|].
    apply rmatch_fails; [exact Hst|].
    intros st' Hst'. now apply IH2.
  - apply andb_true_iff in Hr as [Hr1 Hr2]. now rewrite IH1, IH2.
  - now apply IH.
Qed.

Lemma search_consumes (r : regex) (p : nat) (pv : option ascii)
  (l : list ascii) :
  consumes q r = true -> existsb q l = false -> search r p pv l = None.
Proof.
  intros Hr. revert p pv. induction l as [|c l IH]; intros p pv Hl;
    cbn [search]; rewrite rmatch_consumes by assumption; [reflexivity|].
  apply IH. cbn [existsb] in Hl. now apply orb_false_iff in Hl.
Qed.

(** Nothing is replaced in a text free of [q]. *)
Lemma replaceAll_consumes (r : regex)
  (repl : list ascii -> rmatched -> list ascii) (text : list ascii) :
  consumes q r = true -> existsb q text = false ->
  replaceAll r repl text = text.
Proof.
  intros Hr Ht. unfold replaceAll, matchAll. cbn [matchAllFrom].
  now rewrite search_consumes.
Qed.

End PlainText.

Section PlainTextExtract.

Lemma isPlainText_clean (s : string) :
  isPlainText s = true -> existsb isMarkupChar (chars s) = false.
Proof.
  unfold isPlainText. induction (chars s) as [|c l IH]; [reflexivity|].
  cbn [forallb existsb]. intros H. apply andb_true_iff in H as [Hc Hl].
  apply negb_true_iff in Hc. now rewrite Hc, IH.
Qed.

Lemma stripMarkup_plain (s : string) :
  isPlainText s = true -> stripMarkup (chars s) = trim (chars s).
Proof.
  intros H. apply isPlainText_clean in H. unfold stripMarkup. cbv zeta.
  now rewrite !(fun r repl Hr =>
                  replaceAll_consumes isMarkupChar r repl (chars s) Hr H)
    by (vm_compute; reflexivity).
Qed.

End PlainTextExtract.

(** X15. A text without markup characters (angle brackets, asterisk,
    underscore, backquote, hash, opening square bracket, hyphen, plus, line
    feed, digits) passes through [extractTextContent] unchanged up to the
    final trim, as a string and as the markdown of a wrapper object (in
    either order of its keys); none of the fifteen replacements touches
    it. *)
Theorem extractTextContent_plain (s : string) (Hplain : isPlainText s = true) :
  extractTextContent (Some (RString s)) = str (trim (chars s))
  /\ (forall html,
        s <> "" ->
        extractTextContent (Some (RWrapper (Some s) html))
        = str (trim (chars s)))
  /\ (forall html,
        s <> "" ->
        extractTextContent (Some (RWrapperHtmlFirst html (Some s)))
        = str (trim (chars s))).
Proof.
  split; [|split].
  - destruct s as [|c s]; [reflexivity|].
    unfold extractTextContent. cbn [richTruthy isTruthy truthy negb].
    now rewrite stripMarkup_plain.
  - intros html Hne. destruct s as [|c s]; [contradiction|].
    unfold extractTextContent. cbn [richTruthy negb truthy].
    now rewrite stripMarkup_plain.
  - intros html Hne. destruct s as [|c s]; [contradiction|].
    unfold extractTextContent. cbn [richTruthy negb truthy].
    now rewrite stripMarkup_plain.
Qed.

Lemma extractTextContent_plain_witness :
  extractTextContent (Some (RString " Open daily, closed on Sundays. "))
  = str (trim (chars " Open daily, closed on Sundays. "))
  /\ (forall html,
        " Open daily, closed on Sundays. " <> "" ->
        extractTextContent
          (Some (RWrapper (Some " Open daily, closed on Sundays. ") html))
        = str (trim (chars " Open daily, closed on Sundays. ")))
  /\ (forall html,
        " Open daily, closed on Sundays. " <> "" ->
        extractTextContent
          (Some (RWrapperHtmlFirst html
                   (Some " Open daily, closed on Sundays. ")))
        = str (trim (chars " Open daily, closed on Sundays. "))).
Proof.
  apply (extractTextContent_plain " Open daily, closed on Sundays. ").
  vm_compute. reflexivity.
Defined.


(** ** The earlier variant *)

Section LegacyVariant.

#[local] Arguments Legacy.contentDetails : simpl never.
#[local] Arguments Legacy.pairDetails : simpl never.
#[local] Arguments Legacy.pairConflicts : simpl never.

Lemma gtQ_weaken (x : Q) : gtQ x (9 # 10) = true -> gtQ x (3 # 10) = true.
Proof.
  unfold gtQ. rewrite !negb_true_iff. intros H.
  destruct (Qle_bool x (3 # 10)) eqn:E; [|reflexivity].
  apply Qle_bool_iff in E.
  assert (Hle : (x <= 9 # 10)%Q).
  { eapply Qle_trans; [exact E|]. unfold Qle. cbn. lia. }
  apply Qle_bool_iff in Hle. congruence.
Qed.

Lemma legacy_contentDetails_inv (entityType : string) (e1 e2 : YextEntity)
  (d : ConflictDetail) :
  In d (Legacy.contentDetails entityType e1 e2) ->
  Detail.severity d = medium
  /\ Detail.conflictType d = "inconsistent_data"
  /\ Detail.values d = [valueOf e1 (excerpt (Legacy.selectContent e1));
                        valueOf e2 (excerpt (Legacy.selectContent e2))]
  /\ gtQ (nameSimilarityOf e1 e2) (9 # 10) = true
  /\ Legacy.selectContent e1 <> ""
  /\ Legacy.selectContent e2 <> ""
  /\ normalizeString (Legacy.selectContent e1)
     <> normalizeString (Legacy.selectContent e2).
Proof.
  unfold Legacy.contentDetails. cbv zeta.
  destruct (gtQ _ _); [|intros []].
  destruct (String.eqb_spec (Legacy.selectContent e1) ""); [intros []|].
  destruct (String.eqb_spec (Legacy.selectContent e2) ""); [intros []|].
  destruct (String.eqb_spec (normalizeString (Legacy.selectContent e1))
                            (normalizeString (Legacy.selectContent e2)));
    [intros []|].
  cbn [negb andb]. intros [<-|[]]. repeat split; assumption.
Qed.

(** Outside the book types the newer variant compares the same text as the
    earlier one whenever the earlier one has a text. *)
Lemma selectContent_legacy (e : YextEntity) :
  isBook e = false -> Legacy.selectContent e <> "" ->
  selectContent e = Legacy.selectContent e.
Proof.
  intros Hb. unfold selectContent, Legacy.selectContent. rewrite Hb.
  destruct (Entity.description e) as [[|c s]|],
    (Entity.content e) as [[|c' s']|]; cbn; congruence.
Qed.

Lemma legacy_contentDetails_covered (entityType : string) (e1 e2 : YextEntity)
  (d : ConflictDetail) :
  isBook e1 = false -> isBook e2 = false ->
  In d (Legacy.contentDetails entityType e1 e2) ->
  exists d', In d' (contentDetails entityType e1 e2)
             /\ Detail.values d' = Detail.values d.
Proof.
  intros Hb1 Hb2 Hd.
  apply legacy_contentDetails_inv in Hd
    as (_ & _ & Hv & Hsim & Hc1 & Hc2 & Hne).
  pose proof (contentDetails_spec entityType e1 e2) as H. cbv zeta in H.
  rewrite (selectContent_legacy e1 Hb1 Hc1),
          (selectContent_legacy e2 Hb2 Hc2) in H.
  rewrite (gtQ_weaken _ Hsim) in H.
  apply String.eqb_neq in Hc1, Hc2, Hne. rewrite Hc1, Hc2, Hne in H.
  cbn [negb andb] in H. destruct H as (d' & Heq & Hv' & _).
  exists d'. rewrite Heq, Hv, Hv'. split; [now left | reflexivity].
Qed.

Lemma legacy_pairDetails_covered (entityType : string) (e1 e2 : YextEntity)
  (d : ConflictDetail) :
  isBook e1 = false -> isBook e2 = false ->
  In d (Legacy.pairDetails entityType e1 e2) ->
  Detail.severity d = medium
  /\ In (Detail.conflictType d)
        ["inconsistent_data"; "phone_mismatch"; "url_mismatch"]
  /\ exists d', In d' (pairDetails entityType e1 e2)
                /\ Detail.values d' = Detail.values d.
Proof.
  intros Hb1 Hb2 Hd. unfold Legacy.pairDetails in Hd. unfold pairDetails.
  apply in_app_or in Hd as [Hd|Hd].
  - destruct (legacy_contentDetails_covered entityType e1 e2 d Hb1 Hb2 Hd)
      as (d' & Hd' & Hv).
    apply legacy_contentDetails_inv in Hd as (Hs & Ht & _).
    rewrite Hs, Ht. split; [reflexivity|]. split; [now left|].
    exists d'. split; [apply in_or_app; now left | exact Hv].
  - assert (Hin : In d (contentDetails entityType e1 e2
                          ++ phoneDetails e1 e2 ++ urlDetails e1 e2))
      by (apply in_or_app; now right).
    split; [|split; [|exists d; split; [exact Hin | reflexivity]]].
    + apply in_app_or in Hd as [Hd|Hd].
      * apply phoneDetails_values in Hd as [Hs _]. exact Hs.
      * apply urlDetails_values in Hd as [Hs _]. exact Hs.
    + apply in_app_or in Hd as [Hd|Hd].
      * destruct (phoneDetails_cases e1 e2) as [H|(d0 & H & Ht & _)];
          rewrite H in Hd; [destruct Hd|]. destruct Hd as [<-|[]]. rewrite Ht. cbn. tauto.
      * destruct (urlDetails_cases e1 e2) as [H|(d0 & H & Ht & _)];
          rewrite H in Hd; [destruct Hd|]. destruct Hd as [<-|[]]. rewrite Ht. cbn. tauto.
Qed.

Lemma legacy_pairDetails_medium (entityType : string) (e1 e2 : YextEntity)
  (d : ConflictDetail) :
  In d (Legacy.pairDetails entityType e1 e2) ->
  Detail.severity d = medium
  /\ In (Detail.conflictType d)
        ["inconsistent_data"; "phone_mismatch"; "url_mismatch"].
Proof.
  intros Hd. unfold Legacy.pairDetails in Hd.
  apply in_app_or in Hd as [Hd|Hd].
  - apply legacy_contentDetails_inv in Hd as (Hs & Ht & _).
    rewrite Hs, Ht. split; [reflexivity | now left].
  - apply in_app_or in Hd as [Hd|Hd].
    + destruct (phoneDetails_cases e1 e2) as [H|(d0 & H & Ht & Hs)];
        rewrite H in Hd; [destruct Hd|]. destruct Hd as [<-|[]]. rewrite Ht, Hs. cbn. tauto.
    + destruct (urlDetails_cases e1 e2) as [H|(d0 & H & Ht & Hs)];
        rewrite H in Hd; [destruct Hd|]. destruct Hd as [<-|[]]. rewrite Ht, Hs. cbn. tauto.
Qed.

Lemma in_legacy_pairConflicts (entityType : string) (e1 e2 : YextEntity)
  (g : ConflictGroup) :
  In g (Legacy.pairConflicts entityType e1 e2) ->
  Legacy.pairDetails entityType e1 e2 <> []
  /\ g = Group.mk
           ("conflict-" +:+ show (Entity.name e1) +:+ "-"
              +:+ show (Entity.name e2))
           ("Potential conflict between " +:+ dq +:+ show (Entity.name e1)
              +:+ dq +:+ " and " +:+ dq +:+ show (Entity.name e2) +:+ dq)
           [refOf e1; refOf e2]
           (Legacy.pairDetails entityType e1 e2)
           medium.
Proof.
  unfold Legacy.pairConflicts. cbv zeta.
  pose proof (legacy_pairDetails_medium entityType e1 e2) as Hm.
  destruct (Legacy.pairDetails entityType e1 e2) as [|d ds]; [intros []|].
  cbn [length Nat.ltb Nat.leb]. intros [<-|[]]. split; [discriminate|].
  assert (Hh : someSeverity high (d :: ds) = false).
  { apply someSeverity_high_medium. intros d' Hd'. now apply Hm. }
  rewrite Hh. unfold someSeverity. cbn [existsb].
  destruct (Hm d) as [-> _]; [now left|]. reflexivity.
Qed.

Lemma in_legacy_pairwiseConflicts (entities : list YextEntity)
  (g : ConflictGroup) :
  In g (Legacy.pairwiseConflicts entities) ->
  exists entityType e1 e2, In g (Legacy.pairConflicts entityType e1 e2).
Proof.
  unfold Legacy.pairwiseConflicts. cbv zeta. destruct (0 <? _)%nat; [|intros []].
  intros H. apply in_flat_map in H as [[k bucket] [_ H]].
  apply in_flat_map in H as [[e1 e2] [_ Hg]]. exists k, e1, e2. exact Hg.
Qed.

Lemma in_pairsOf_members (l : list YextEntity) (a b : YextEntity) :
  In (a, b) (pairsOf l) -> In a l /\ In b l.
Proof.
  intros H. apply in_pairsOf_inv in H as (l1 & l2 & l3 & ->).
  split; apply in_or_app; right; [now left|].
  right. apply in_or_app. right. now left.
Qed.

Lemma older_types (e : YextEntity) :
  isNewerType e = false ->
  Legacy.isFaq e = isFaq e /\ Legacy.isCompared e = isCompared e
  /\ isBook e = false.
Proof.
  unfold isNewerType, Legacy.isFaq, Legacy.isCompared, isFaq, isCompared,
    isBook, hasType. cbn [existsb].
  destruct (optEqb (entityTypeOf e) (Some "ce_faq")),
    (optEqb (entityTypeOf e) (Some "ce_location")),
    (optEqb (entityTypeOf e) (Some "bufo")),
    (optEqb (entityTypeOf e) (Some "ce_bufo")),
    (optEqb (entityTypeOf e) (Some "book")),
    (optEqb (entityTypeOf e) (Some "ce_book")); cbn; try discriminate.
  intros _. now rewrite !orb_false_r.
Qed.

Lemma older_types_in (entities : list YextEntity) (e : YextEntity) :
  forallb (fun e => negb (isNewerType e)) entities = true ->
  In e entities -> isNewerType e = false.
Proof.
  intros H He. rewrite forallb_forall in H. now apply negb_true_iff, H.
Qed.

End LegacyVariant.

(** X16. In the earlier variant of the detector the pairwise path never
    reports a high finding: every group of a pair is medium, and each of its
    details is medium with type [inconsistent_data], [phone_mismatch] or
    [url_mismatch]; only the FAQ groups are high. *)
Theorem legacy_pairs_medium (entities : list YextEntity) :
  (forall g, In g (Legacy.pairwiseConflicts entities) ->
             Group.severity g = medium
             /\ forall d, In d (Group.conflictDetails g) ->
                          Detail.severity d = medium
                          /\ In (Detail.conflictType d)
                                ["inconsistent_data"; "phone_mismatch";
                                 "url_mismatch"])
  /\ (forall g, In g (Legacy.faqConflicts entities) ->
                Group.severity g = high).
Proof.
  split.
  - intros g Hg.
    apply in_legacy_pairwiseConflicts in Hg as (entityType & e1 & e2 & Hg).
    apply in_legacy_pairConflicts in Hg as [_ ->]. split; [reflexivity|].
    cbn [Group.conflictDetails]. apply legacy_pairDetails_medium.
  - intros g Hg. unfold Legacy.faqConflicts in Hg. cbv zeta in Hg.
    destruct (0 <? _)%nat in Hg; [|destruct Hg].
    apply in_flat_map in Hg as [[question faqs] [_ Hg]].
    now apply in_faqGroupConflicts in Hg as (d & _ & _ & ->).
Qed.

(** X17. On records of the types that both variants treat alike (no [ce_]
    FAQ or location type, no bufo type, no book type) the newer detector
    reports everything the earlier one does: the FAQ groups are the same, and
    every pair group of the earlier variant has a group of the newer one with
    the same identifier, title and entities, at least its severity, and for
    each of its details a detail on the same values. *)
Theorem newer_covers_legacy (entities : list YextEntity)
  (Htypes : forallb (fun e => negb (isNewerType e)) entities = true) :
  Legacy.faqConflicts entities = faqConflicts entities
  /\ forall g, In g (Legacy.pairwiseConflicts entities) ->
       exists g', In g' (pairwiseConflicts entities)
                  /\ Group.id g' = Group.id g
                  /\ Group.title g' = Group.title g
                  /\ Group.entities g' = Group.entities g
                  /\ severityRank (Group.severity g)
                     <= severityRank (Group.severity g')
                  /\ forall d, In d (Group.conflictDetails g) ->
                       exists d', In d' (Group.conflictDetails g')
                                  /\ Detail.values d' = Detail.values d.
Proof.
  assert (Hfaq : List.filter Legacy.isFaq entities = List.filter isFaq entities).
  { apply filter_ext_in. intros e He.
    now apply older_types, (older_types_in entities). }
  assert (Hcmp : List.filter Legacy.isCompared entities
                 = List.filter isCompared entities).
  { apply filter_ext_in. intros e He.
    now apply older_types, (older_types_in entities). }
  split.
  - unfold Legacy.faqConflicts, faqConflicts. now rewrite Hfaq.
  - intros g. unfold Legacy.pairwiseConflicts, pairwiseConflicts. cbv zeta.
    rewrite Hcmp. destruct (0 <? _)%nat; [|intros []].
    intros H. apply in_flat_map in H as [[k bucket] [Hk H]].
    apply in_flat_map in H as [[e1 e2] [Hpair Hg]].
    assert (Hmem : In e1 entities /\ In e2 entities).
    { pose proof Hk as Hb. apply groupOf_in in Hb; [|apply keys_groupBy].
      rewrite groupOf_groupBy in Hb. subst bucket.
      apply in_pairsOf_members in Hpair as [H1 H2].
      apply filter_In in H1 as [H1 _], H2 as [H2 _].
      apply filter_In in H1 as [H1 _], H2 as [H2 _]. split; assumption. }
    destruct Hmem as [Hm1 Hm2].
    destruct (older_types e1 (older_types_in entities e1 Htypes Hm1))
      as (_ & _ & Hb1).
    destruct (older_types e2 (older_types_in entities e2 Htypes Hm2))
      as (_ & _ & Hb2).
    apply in_legacy_pairConflicts in Hg as [Hne ->].
    assert (Hne' : pairDetails k e1 e2 <> []).
    { destruct (Legacy.pairDetails k e1 e2) as [|d ds] eqn:E;
        [contradiction|].
      destruct (legacy_pairDetails_covered k e1 e2 d Hb1 Hb2)
        as (_ & _ & d' & Hd' & _); [rewrite E; now left|].
      intros Hnil. now rewrite Hnil in Hd'. }
    pose proof (pairConflicts_some k e1 e2 Hne') as (g' & Hg' & He & Hd & Hs).
    assert (Hin' : In g' (pairConflicts k e1 e2)) by (rewrite Hg'; now left).
    exists g'. split.
    { apply in_flat_map. exists (k, bucket). split; [exact Hk|].
      apply in_flat_map. exists (e1, e2). split; assumption. }
    apply in_pairConflicts in Hin' as [_ Heq].
    cbn [Group.id Group.title Group.entities Group.severity
         Group.conflictDetails].
    rewrite Heq at 1 2 3. cbn [Group.id Group.title Group.entities].
    repeat split.
    + rewrite Hs. apply maxSeverity_attained in Hne' as (d & Hin & <-).
      apply pairDetails_values in Hin as [[-> | ->] _]; cbn; lia.
    + intros d Hin. rewrite Hd.
      now apply (legacy_pairDetails_covered k e1 e2 d Hb1 Hb2).
Qed.

Lemma newer_covers_legacy_witness :
  Legacy.faqConflicts sharedPhone = faqConflicts sharedPhone
  /\ forall g, In g (Legacy.pairwiseConflicts sharedPhone) ->
       exists g', In g' (pairwiseConflicts sharedPhone)
                  /\ Group.id g' = Group.id g
                  /\ Group.title g' = Group.title g
                  /\ Group.entities g' = Group.entities g
                  /\ severityRank (Group.severity g)
                     <= severityRank (Group.severity g')
                  /\ forall d, In d (Group.conflictDetails g) ->
                       exists d', In d' (Group.conflictDetails g')
                                  /\ Detail.values d' = Detail.values d.
Proof.
  apply (newer_covers_legacy sharedPhone). vm_compute. reflexivity.
Defined.


(** ** The entities route *)

Section RouteDeduplication.

#[local] Arguments Route.entityKey : simpl never.

Lemma keepFirst_keys (seen : gset (option string)) (l : list YextEntity)
  (k : option string) :
  In k (map Route.entityKey (Route.keepFirst seen l))
  <-> In k (map Route.entityKey l) /\ k ∉ seen.
Proof.
  revert seen. induction l as [|e l IH]; intros seen; cbn [Route.keepFirst map].
  - cbn. tauto.
  - case_bool_decide as Hseen.
    + rewrite IH. cbn [In]. split; [tauto|].
      intros [[<-|Hk] Hn]; [contradiction | tauto].
    + cbn [map In]. rewrite IH. split.
      * intros [<-|[Hk Hn]]; [tauto|]. split; [tauto | set_solver].
      * intros [[<-|Hk] Hn]; [tauto|].
        destruct (decide (Route.entityKey e = k)) as [Heq|Hne]; [tauto|].
        right. split; [exact Hk | set_solver].
Qed.

Lemma keepFirst_NoDup (seen : gset (option string)) (l : list YextEntity) :
  List.NoDup (map Route.entityKey (Route.keepFirst seen l)).
Proof.
  revert seen. induction l as [|e l IH]; intros seen; cbn [Route.keepFirst map].
  - constructor.
  - case_bool_decide as Hseen; [apply IH|].
    cbn [map]. constructor; [|apply IH].
    rewrite keepFirst_keys. intros [_ Hn]. set_solver.
Qed.

Lemma keepFirst_sublist (seen : gset (option string)) (l : list YextEntity) :
  sublist (Route.keepFirst seen l) l.
Proof.
  revert seen. induction l as [|e l IH]; intros seen; cbn [Route.keepFirst].
  - constructor.
  - case_bool_decide; [apply sublist_cons | apply sublist_skip]; apply IH.
Qed.

Lemma keepFirst_id (seen : gset (option string)) (l : list YextEntity) :
  List.NoDup (map Route.entityKey l) ->
  (forall k, In k (map Route.entityKey l) -> k ∉ seen) ->
  Route.keepFirst seen l = l.
Proof.
  revert seen. induction l as [|e l IH]; intros seen Hnd Hfresh;
    [reflexivity|].
  cbn [Route.keepFirst]. cbn [map] in Hnd, Hfresh.
  apply NoDup_cons_iff in Hnd as [Hne Hnd].
  case_bool_decide as Hseen.
  - exfalso. apply (Hfresh (Route.entityKey e)); [now left | exact Hseen].
  - f_equal. apply IH; [exact Hnd|]. intros k Hk.
    assert (k <> Route.entityKey e) by (intros ->; contradiction).
    assert (k ∉ seen) by (apply Hfresh; now right). set_solver.
Qed.

(** The record kept for a key is the first record of the list with that
    key. *)
Lemma keepFirst_first (seen : gset (option string)) (l : list YextEntity)
  (e : YextEntity) :
  In e (Route.keepFirst seen l) ->
  List.find (fun x => bool_decide (Route.entityKey x = Route.entityKey e)) l
  = Some e.
Proof.
  revert seen. induction l as [|x l IH]; intros seen He; [destruct He|].
  cbn [Route.keepFirst] in He. cbn [List.find].
  case_bool_decide as Hseen.
  - assert (Hk : Route.entityKey e ∉ seen).
    { apply (keepFirst_keys seen l). now apply in_map. }
    rewrite bool_decide_eq_false_2 by congruence. now apply (IH seen).
  - destruct He as [->|He]; [now rewrite bool_decide_eq_true_2|].
    assert (Hk : Route.entityKey e ∉ seen ∪ {[ Route.entityKey x ]}).
    { apply (keepFirst_keys _ l). now apply in_map. }
    rewrite bool_decide_eq_false_2 by set_solver. now apply (IH _ He).
Qed.

Lemma size_keys (l : list (option string)) :
  size (list_to_set l : gset (option string)) <= length l
  /\ (size (list_to_set l : gset (option string)) = length l -> List.NoDup l).
Proof.
  induction l as [|x l [IHle IHnd]].
  - rewrite list_to_set_nil, size_empty. split; [reflexivity | constructor].
  - rewrite list_to_set_cons. cbn [length].
    destruct (decide (x ∈ (list_to_set l : gset (option string)))) as [Hin|Hout].
    + assert (Heq : ({[ x ]} ∪ list_to_set l : gset (option string))
                    = list_to_set l) by set_solver.
      rewrite Heq. split; lia.
    + rewrite size_union, size_singleton by set_solver. split; [lia|].
      intros H. constructor.
      * rewrite elem_of_list_to_set, list_elem_of_In in Hout. exact Hout.
      * apply IHnd. lia.
Qed.

Lemma deduplicate_keepFirst (l : list YextEntity) :
  Route.deduplicate l = Route.keepFirst ∅ l.
Proof.
  unfold Route.deduplicate. cbv zeta.
  destruct (Nat.ltb_spec 0 (length (map Route.entityKey l)
                            - size (list_to_set (map Route.entityKey l)
                                    : gset (option string)))) as [_|H];
    [reflexivity|].
  symmetry. apply keepFirst_id; [|set_solver].
  destruct (size_keys (map Route.entityKey l)) as [Hle Hnd]. apply Hnd. lia.
Qed.

End RouteDeduplication.

(** X18. The deduplication of the entities route always keeps, for each
    identifier, the first record of the list that carries it (the test on the
    number of duplicates changes nothing): the result is a sublist with
    pairwise distinct identifiers and the same set of identifiers, and
    deduplicating twice is deduplicating once.  Records without any
    identifier share the key [undefined], so only the first of them stays. *)
Theorem deduplicate_first_occurrences (allEntities : list YextEntity) :
  Route.deduplicate allEntities = Route.keepFirst ∅ allEntities
  /\ List.NoDup (map Route.entityKey (Route.deduplicate allEntities))
  /\ sublist (Route.deduplicate allEntities) allEntities
  /\ (forall k, In k (map Route.entityKey (Route.deduplicate allEntities))
                <-> In k (map Route.entityKey allEntities))
  /\ (forall e, In e (Route.deduplicate allEntities) ->
                List.find (fun x => bool_decide (Route.entityKey x
                                                 = Route.entityKey e))
                          allEntities = Some e)
  /\ Route.deduplicate (Route.deduplicate allEntities)
     = Route.deduplicate allEntities.
Proof.
  rewrite !deduplicate_keepFirst. split; [reflexivity|].
  split; [apply keepFirst_NoDup|]. split; [apply keepFirst_sublist|].
  split; [|split].
  - intros k. rewrite keepFirst_keys. set_solver.
  - intros e. apply keepFirst_first.
  - apply keepFirst_id; [apply keepFirst_NoDup | set_solver].
Qed.

Section RoutePages.

Variable fetch : nat -> Route.FetchResult.

#[local] Arguments Route.notOkResponse : simpl never.

Lemma pagesFrom_S (first n : nat) :
  pagesFrom fetch first (S n)
  = pageEntities (fetch ((first - 1) * Route.limit))
      ++ pagesFrom fetch (S first) n.
Proof. reflexivity. Qed.

(** The loop from page [page] on: it ends without a response only after a
    run of pages that were all ok, all but the last one full. *)
Lemma fetchPages_inr (fuel page : nat) (allEntities allEntities' : list YextEntity)
  (page' : nat) :
  page <= 200 -> 201 <= fuel + page ->
  Route.fetchPages fetch fuel page allEntities = inr (allEntities', page') ->
  page < page' <= 201
  /\ allEntities' = allEntities ++ pagesFrom fetch page (page' - page)
  /\ (forall i, page <= i < page' ->
                isOk (fetch ((i - 1) * Route.limit)) = true)
  /\ (forall i, page <= i < page' - 1 ->
                length (pageEntities (fetch ((i - 1) * Route.limit)))
                = Route.limit).
Proof.
  revert page allEntities.
  induction fuel as [|fuel IH]; intros page allEntities Hp Hf; [lia|].
  cbn [Route.fetchPages].
  destruct (fetch ((page - 1) * Route.limit)) as [m|s t|es c] eqn:E;
    try discriminate.
  cbv zeta. destruct (Nat.ltb_spec 200 (page + 1)) as [H200|H200].
  - intros [= <- <-]. replace (page + 1 - page) with 1 by lia.
    rewrite pagesFrom_S, E. cbn [pageEntities pagesFrom seq flat_map].
    rewrite app_nil_r. repeat split; try lia.
    intros i Hi. replace i with page by lia. now rewrite E.
  - destruct (Nat.eqb_spec (length es) Route.limit) as [Hfull|Hshort];
      cbn [andb].
    + destruct (length (allEntities ++ es) <? c)%nat.
      * intros H. apply IH in H as (Hr & Ha & Hok & Hfl); [|lia|lia].
        replace (page' - page) with (S (page' - (page + 1))) by lia.
        rewrite pagesFrom_S, E. cbn [pageEntities].
        replace (S page) with (page + 1) by lia.
        rewrite Ha, <- app_assoc. repeat split; try lia.
        -- intros i Hi. destruct (Nat.eq_dec i page) as [->|Hne];
             [now rewrite E | apply Hok; lia].
        -- intros i Hi. destruct (Nat.eq_dec i page) as [->|Hne];
             [now rewrite E | apply Hfl; lia].
      * intros [= <- <-]. replace (page + 1 - page) with 1 by lia.
        rewrite pagesFrom_S, E. cbn [pageEntities pagesFrom seq flat_map].
        rewrite app_nil_r. repeat split; try lia.
        intros i Hi. replace i with page by lia. now rewrite E.
    + intros [= <- <-]. replace (page + 1 - page) with 1 by lia.
      rewrite pagesFrom_S, E. cbn [pageEntities pagesFrom seq flat_map].
      rewrite app_nil_r. repeat split; try lia.
      intros i Hi. replace i with page by lia. now rewrite E.
Qed.

(** More rounds than the safety limit allows are never used. *)
Lemma fetchPages_fuel (fuel1 fuel2 page : nat) (allEntities : list YextEntity) :
  page <= 200 -> 201 <= fuel1 + page -> 201 <= fuel2 + page ->
  Route.fetchPages fetch fuel1 page allEntities
  = Route.fetchPages fetch fuel2 page allEntities.
Proof.
  revert fuel2 page allEntities.
  induction fuel1 as [|fuel1 IH]; intros [|fuel2] page allEntities Hp H1 H2;
    try lia.
  cbn [Route.fetchPages].
  destruct (fetch ((page - 1) * Route.limit)) as [m|s t|es c];
    try reflexivity.
  cbv zeta. destruct (Nat.ltb_spec 200 (page + 1)); [reflexivity|].
  destruct (_ && _); [|reflexivity]. apply IH; lia.
Qed.

Lemma notOkResponse_failure (status : nat) (errorText : string) :
  exists s e d, Route.notOkResponse status errorText = Route.Failure s e d.
Proof.
  unfold Route.notOkResponse.
  destruct (status =? 401)%nat; [eauto|].
  destruct (status =? 403)%nat; [eauto|].
  destruct (status =? 404)%nat; eauto.
Qed.

Lemma fetchPages_inl (fuel page : nat) (allEntities : list YextEntity)
  (r : Route.Response) :
  Route.fetchPages fetch fuel page allEntities = inl r ->
  exists s e d, r = Route.Failure s e d.
Proof.
  revert page allEntities.
  induction fuel as [|fuel IH]; intros page allEntities; [discriminate|].
  cbn [Route.fetchPages].
  destruct (fetch ((page - 1) * Route.limit)) as [m|s t|es c].
  - intros [= <-]. eauto.
  - intros [= <-]. apply notOkResponse_failure.
  - cbv zeta. destruct (200 <? page + 1)%nat; [discriminate|].
    destruct (_ && _); [apply IH | discriminate].
Qed.

Lemma length_pagesFrom (first n : nat) :
  (forall offset, length (pageEntities (fetch offset)) <= Route.limit) ->
  length (pagesFrom fetch first n) <= n * Route.limit.
Proof.
  intros H. revert first. induction n as [|n IH]; intros first; [reflexivity|].
  rewrite pagesFrom_S, length_app.
  specialize (IH (S first)). specialize (H ((first - 1) * Route.limit)).
  cbn [Nat.mul]. lia.
Qed.

End RoutePages.

(** X19. A successful answer of the entities route is complete: both the
    API key and the business id were given, between 1 and 200 pages were
    requested at the offsets 0, 50, 100, ..., every one of them was ok and
    all but the last were full, and the answer holds the records of exactly
    these pages, in order, each identifier once; [count] is their number. *)
Theorem post_success (fetch : nat -> Route.FetchResult)
  (request : option (option string * option string))
  (entities : list YextEntity) (count pagesFetched : nat)
  (Hpost : Route.POST fetch request
           = Route.Success entities count pagesFetched) :
  (exists businessId apiKey,
      request = Some (businessId, apiKey)
      /\ isTruthy businessId = true /\ isTruthy apiKey = true)
  /\ 1 <= pagesFetched <= 200
  /\ count = length entities
  /\ entities = Route.keepFirst ∅ (pagesFrom fetch 1 pagesFetched)
  /\ (forall page, 1 <= page <= pagesFetched ->
                   isOk (fetch ((page - 1) * Route.limit)) = true)
  /\ (forall page, 1 <= page < pagesFetched ->
                   length (pageEntities (fetch ((page - 1) * Route.limit)))
                   = Route.limit)
  /\ List.NoDup (map Route.entityKey entities).
Proof.
  unfold Route.POST in Hpost.
  destruct request as [[businessId apiKey]|]; [|discriminate].
  destruct (isTruthy apiKey) eqn:Hk; [|discriminate].
  destruct (isTruthy businessId) eqn:Hb; [|discriminate].
  cbn [negb] in Hpost.
  destruct (Route.fetchPages fetch 200 1 []) as [r|[all page]] eqn:E.
  - apply fetchPages_inl in E as (s & e & d & ->). discriminate.
  - apply fetchPages_inr in E as (Hr & Ha & Hok & Hfl); [|lia|lia].
    cbn [app] in Ha. cbv zeta in Hpost. injection Hpost as <- <- <-.
    rewrite deduplicate_keepFirst, Ha.
    replace (page - 1) with (page - 1 - 0) by lia.
    replace (page - 1 - 0) with (page - 1) by lia.
    split; [now exists businessId, apiKey|].
    repeat split; try lia.
    + intros i Hi. apply Hok. lia.
    + intros i Hi. apply Hfl. lia.
    + apply keepFirst_NoDup.
Qed.

Lemma post_success_witness :
  1 <= 1 <= 200
  /\ 1 = length [sampleRecord "restaurant" "Alpha" None (Some "555-0100") None]
  /\ [sampleRecord "restaurant" "Alpha" None (Some "555-0100") None]
     = Route.keepFirst ∅ (pagesFrom (onePage sharedPhone) 1 1).
Proof.
  pose proof (post_success (onePage sharedPhone)
                (Some (Some "4042106", Some "key"))
                [sampleRecord "restaurant" "Alpha" None (Some "555-0100") None]
                1 1) as H.
  destruct H as (_ & Hp & Hc & He & _); [vm_compute; reflexivity|].
  exact (conj Hp (conj Hc He)).
Defined.

Section RouteRequests.

Variables fetch fetch' : nat -> Route.FetchResult.

Hypothesis same_pages :
  forall i, i < 200 -> fetch' (i * Route.limit) = fetch (i * Route.limit).

(** The loop asks for the pages 1 to 200 at most: two services that answer
    alike at these offsets are not told apart. *)
Lemma fetchPages_same (fuel page : nat) (allEntities : list YextEntity) :
  1 <= page <= 200 ->
  Route.fetchPages fetch' fuel page allEntities
  = Route.fetchPages fetch fuel page allEntities.
Proof.
  revert page allEntities.
  induction fuel as [|fuel IH]; intros page allEntities Hp; [reflexivity|].
  cbn [Route.fetchPages]. rewrite same_pages by lia.
  destruct (fetch ((page - 1) * Route.limit)) as [m|s t|es c];
    try reflexivity.
  cbv zeta. destruct (Nat.ltb_spec 200 (page + 1)) as [_|Hle]; [reflexivity|].
  destruct (_ && _); [|reflexivity]. apply IH. lia.
Qed.

End RouteRequests.

(** X20. The loop of the entities route ends within 200 requests whatever
    the service answers: allowing more rounds changes nothing, and the answer
    of the route depends on the service only through the pages at the 200
    offsets 0, 50, ..., 9950.  A successful answer has fetched at most 200
    pages, and when no page holds more than the limit of 50 records it holds
    at most 10 000 records. *)
Theorem post_bounded (fetch : nat -> Route.FetchResult) :
  (forall more, Route.fetchPages fetch (200 + more) 1 []
                = Route.fetchPages fetch 200 1 [])
  /\ (forall fetch' request,
        (forall i, i < 200 ->
                   fetch' (i * Route.limit) = fetch (i * Route.limit)) ->
        Route.POST fetch' request = Route.POST fetch request)
  /\ (forall request entities count pagesFetched,
        Route.POST fetch request
        = Route.Success entities count pagesFetched ->
        pagesFetched <= 200
        /\ ((forall offset,
                length (pageEntities (fetch offset)) <= Route.limit) ->
            count <= 200 * Route.limit)).
Proof.
  split; [intros more; apply fetchPages_fuel; lia|]. split.
  - intros fetch' request Hsame. unfold Route.POST.
    destruct request as [[businessId apiKey]|]; [|reflexivity].
    now rewrite (fetchPages_same fetch fetch' Hsame) by lia.
  - intros request entities count pagesFetched Hpost.
    unfold Route.POST in Hpost.
    destruct request as [[businessId apiKey]|]; [|discriminate].
    destruct (isTruthy apiKey); [|discriminate].
    destruct (isTruthy businessId); [|discriminate].
    cbn [negb] in Hpost.
    destruct (Route.fetchPages fetch 200 1 []) as [r|[all page]] eqn:E.
    + apply fetchPages_inl in E as (s & e & d & ->). discriminate.
    + apply fetchPages_inr in E as (Hr & Ha & _); [|lia|lia].
      cbn [app] in Ha. cbv zeta in Hpost. injection Hpost as <- <- <-.
      split; [lia|]. intros Hlimit.
      rewrite deduplicate_keepFirst.
      pose proof (sublist_length _ _ (keepFirst_sublist ∅ all)) as Hs.
      pose proof (length_pagesFrom fetch 1 (page - 1) Hlimit) as Hl.
      rewrite <- Ha in Hl. unfold Route.limit in *. lia.
Qed.

Lemma post_bounded_witness :
  Route.POST (fun offset => if (offset <? 200 * Route.limit)%nat
                            then onePage sharedPhone offset
                            else refused offset)
             (Some (Some "4042106", Some "key"))
  = Route.POST (onePage sharedPhone) (Some (Some "4042106", Some "key"))
  /\ 1 <= 200
  /\ 1 <= 200 * Route.limit.
Proof.
  destruct (post_bounded (onePage sharedPhone)) as (_ & Hsame & Hsuccess).
  split.
  - apply Hsame. intros i Hi.
    replace (i * Route.limit <? 200 * Route.limit)%nat with true;
      [reflexivity|].
    symmetry. apply Nat.ltb_lt. unfold Route.limit. lia.
  - destruct (Hsuccess (Some (Some "4042106", Some "key"))
                [sampleRecord "restaurant" "Alpha" None (Some "555-0100") None]
                1 1) as [Hp Hc]; [vm_compute; reflexivity|].
    split; [exact Hp|]. apply Hc. intros offset. vm_compute. lia.
Defined.


(** ** Soundness of the matcher *)

Section Matcher.

Lemma rmatch_Seq (r1 r2 : regex) (st : mstate) (k : mstate -> option mstate) :
  rmatch (Seq r1 r2) st k = rmatch r1 st (fun st' => rmatch r2 st' k).
Proof. reflexivity. Qed.

Lemma rmatch_Group (n : nat) (r : regex) (st : mstate)
  (k : mstate -> option mstate) :
  rmatch (Group n r) st k = rmatch r st (fun st' => k (capture n (pos st) st')).
Proof. reflexivity. Qed.

Lemma rmatch_Star (greedy : bool) (r : regex) (st : mstate)
  (k : mstate -> option mstate) :
  rmatch (Star greedy r) st k
  = starLoop greedy r k (S (length (rest st))) st.
Proof. reflexivity. Qed.

Lemma starLoop_S (greedy : bool) (r : regex) (k : mstate -> option mstate)
  (fuel : nat) (st : mstate) :
  starLoop greedy r k (S fuel) st
  = let again :=
      rmatch r st (fun st' =>
        if (pos st' =? pos st)%nat then None
        else starLoop greedy r k fuel st') in
    if greedy then orElse again (k st) else orElse (k st) again.
Proof. reflexivity. Qed.

Lemma rmatch_Chr (p : ascii -> bool) (st : mstate) (k : mstate -> option mstate) :
  rmatch (Chr p) st k
  = match rest st with
    | c :: l => if p c then k (step c l st) else None
    | [] => None
    end.
Proof. reflexivity. Qed.

(** A successful match consumed a word of the expression and went on with
    the continuation from there. *)
Lemma rmatch_sound (r : regex) (st : mstate) (k : mstate -> option mstate)
  (res : mstate) :
  rmatch r st k = Some res ->
  exists w st', lang r w /\ rest st = w ++ rest st'
                /\ pos st' = pos st + length w /\ k st' = Some res.
Proof.
  revert st k res.
  induction r as [|p| |r1 IH1 r2 IH2|r1 IH1 r2 IH2|greedy r IH|n r IH];
    intros st k res H.
  - exists [], st. repeat split; [constructor | cbn [length]; lia | exact H].
  - rewrite rmatch_Chr in H. destruct (rest st) as [|c l] eqn:E; [discriminate|].
    destruct (p c) eqn:Hp; [|discriminate].
    exists [c], (step c l st). cbn [step rest pos length app].
    repeat split; [now constructor | lia | exact H].
  - exists [], st. repeat split; [constructor | cbn [length]; lia |].
    cbn [rmatch] in H. destruct (prev st) as [c|]; [|exact H].
    now destruct (isLineTerminator c).
  - rewrite rmatch_Seq in H.
    apply IH1 in H as (w1 & st1 & Hw1 & Hr1 & Hp1 & H).
    apply IH2 in H as (w2 & st2 & Hw2 & Hr2 & Hp2 & H).
    exists (w1 ++ w2), st2. rewrite length_app, <- app_assoc, <- Hr2.
    repeat split; [now constructor | exact Hr1 | lia | exact H].
  - cbn [rmatch] in H. unfold orElse in H.
    destruct (rmatch r1 st k) as [res1|] eqn:E1.
    + injection H as <-. apply IH1 in E1 as (w & st' & Hw & ?).
      exists w, st'. split; [now apply lang_Alt_l | assumption].
    + apply IH2 in H as (w & st' & Hw & ?).
      exists w, st'. split; [now apply lang_Alt_r | assumption].
  - rewrite rmatch_Star in H. revert H.
    generalize (S (length (rest st))). intros fuel. revert st res.
    induction fuel as [|fuel IHf]; intros st res H.
    + exists [], st. repeat split; [constructor | cbn [length]; lia | exact H].
    + rewrite starLoop_S in H. cbv zeta in H.
      assert (Hagain :
        rmatch r st (fun st' =>
          if (pos st' =? pos st)%nat then None
          else starLoop greedy r k fuel st') = Some res ->
        exists w st', lang (Star greedy r) w /\ rest st = w ++ rest st'
                      /\ pos st' = pos st + length w /\ k st' = Some res).
      { intros Ha. apply IH in Ha as (w1 & st1 & Hw1 & Hr1 & Hp1 & Ha).
        destruct (pos st1 =? pos st)%nat; [discriminate|].
        apply IHf in Ha as (w2 & st2 & Hw2 & Hr2 & Hp2 & Ha).
        exists (w1 ++ w2), st2. rewrite length_app, <- app_assoc, <- Hr2.
        repeat split; [now constructor | exact Hr1 | lia | exact Ha]. }
      assert (Hstop : k st = Some res ->
        exists w st', lang (Star greedy r) w /\ rest st = w ++ rest st'
                      /\ pos st' = pos st + length w /\ k st' = Some res).
      { intros Hk. exists [], st.
        repeat split; [constructor | cbn [length]; lia | exact Hk]. }
      unfold orElse in H. destruct greedy.
      * destruct (rmatch r st _) as [res1|] eqn:E; [|now apply Hstop].
        injection H as <-. now apply Hagain.
      * destruct (k st) as [res1|] eqn:E; [|now apply Hagain].
        injection H as <-. now apply Hstop.
  - rewrite rmatch_Group in H.
    apply IH in H as (w & st' & Hw & Hr & Hp & H).
    exists w, (capture n (pos st) st'). cbn [capture rest pos].
    repeat split; [now constructor | exact Hr | exact Hp | exact H].
Qed.

(** What [search] finds is a match at the index it reports. *)
Lemma search_sound (r : regex) (p : nat) (pv : option ascii) (l : list ascii)
  (m : rmatched) :
  search r p pv l = Some m ->
  exists pre l' pv',
    l = pre ++ l' /\ mindex m = p + length pre
    /\ rmatch r (MState (mindex m) pv' l' []) Some = Some (mafter m).
Proof.
  revert p pv. induction l as [|c l IH]; intros p pv; cbn [search].
  - destruct (rmatch r (MState p pv [] []) Some) as [st|] eqn:E;
      [|discriminate].
    intros [= <-]. exists [], [], pv. cbn [mindex mafter length app].
    repeat split; [lia|]. now rewrite Nat.add_0_r || exact E.
  - destruct (rmatch r (MState p pv (c :: l) []) Some) as [st|] eqn:E.
    + intros [= <-]. exists [], (c :: l), pv. cbn [mindex mafter length app].
      repeat split; [lia | exact E].
    + intros H. apply IH in H as (pre & l' & pv' & -> & Hi & H).
      exists (c :: pre), l', pv'. cbn [length app].
      repeat split; [lia | exact H].
Qed.

Lemma lang_star_digits (greedy : bool) (w : list ascii) :
  lang (Star greedy digit) w -> forallb isDigit w = true.
Proof.
  intros H. remember (Star greedy digit) as r eqn:Er.
  induction H as [| | | | | | |g r0 w1 w2 H1 _ H2 IH2|]; try discriminate.
  - reflexivity.
  - injection Er as -> ->. rewrite forallb_app, (IH2 eq_refl), andb_true_r.
    inversion H1 as [|p c Hc| | | | | | |]; subst. cbn [forallb].
    now rewrite Hc.
Qed.

Lemma lang_plus_digit (w : list ascii) :
  lang (plus digit) w -> w <> [] /\ forallb isDigit w = true.
Proof.
  unfold plus. intros H.
  inversion H as [| | |r1 r2 w1 w2 H1 H2| | | | |]; subst.
  inversion H1 as [|p c Hc| | | | | | |]; subst.
  apply lang_star_digits in H2. cbn [app forallb].
  split; [discriminate | now rewrite Hc, H2].
Qed.

(** A greedy run of digits takes all the digits there are, if what follows
    can be matched from there. *)
Lemma starLoop_digits (k : mstate -> option mstate) (tl : list ascii)
  (ds : list ascii) (fuel : nat) (st : mstate) :
  forallb isDigit ds = true -> length ds < fuel ->
  rest st = ds ++ tl ->
  match tl with [] => true | c :: _ => negb (isDigit c) end = true ->
  (forall st', rest st' = tl -> k st' <> None) ->
  exists st', rest st' = tl /\ pos st' = pos st + length ds
              /\ caps st' = caps st
              /\ starLoop true digit k fuel st = k st'.
Proof.
  intros Hds Hfuel Hrest Htl Hk. revert fuel st Hds Hfuel Hrest.
  induction ds as [|c ds IH]; intros [|fuel] st Hds Hfuel Hrest;
    cbn [length] in Hfuel; try lia.
  - exists st. rewrite starLoop_S. cbv zeta. unfold digit at 1.
    rewrite rmatch_Chr, Hrest. cbn [app length]. repeat split; [lia|].
    destruct tl as [|c tl]; [reflexivity|].
    apply negb_true_iff in Htl. now rewrite Htl.
  - cbn [forallb] in Hds. apply andb_true_iff in Hds as [Hc Hds].
    destruct (IH fuel (step c (ds ++ tl) st)) as (st' & Hr & Hp & Hc' & Hl);
      [exact Hds | lia | reflexivity |].
    exists st'. cbn [step pos caps] in Hp, Hc'. cbn [length].
    repeat split; [exact Hr | lia | exact Hc' |].
    rewrite starLoop_S. cbv zeta. unfold digit at 1.
    rewrite rmatch_Chr, Hrest. cbn [app]. rewrite Hc.
    cbn [step pos]. replace (S (pos st) =? pos st)%nat with false
      by (symmetry; apply Nat.eqb_neq; lia).
    change (MState (S (pos st)) (Some c) (ds ++ tl) (caps st))
      with (step c (ds ++ tl) st).
    rewrite Hl. specialize (Hk st' Hr). unfold orElse.
    now destruct (k st').
Qed.

End Matcher.

(** One step of a proof about [rmatch]: the literal at the head of the
    expression against the next character. *)
Ltac lit_step :=
  rewrite ?rmatch_Seq; unfold lit at 1; rewrite rmatch_Chr; cbn [step rest];
  rewrite ?Ascii.eqb_refl.



(** ** The page: from the input to the request *)

Section PageInput.

#[local] Arguments Page.reBusinessId : simpl never.

Lemma testAnchored_digits (t : list ascii) :
  Page.testAnchored (plus digit) t = true
  <-> t <> [] /\ forallb isDigit t = true.
Proof.
  unfold Page.testAnchored. split.
  - destruct (rmatch _ _ _) as [res|] eqn:E; [intros _|discriminate].
    apply rmatch_sound in E as (w & st' & Hw & Hr & _ & Hk).
    cbn [rest] in Hr. destruct (rest st'); [|discriminate Hk].
    rewrite app_nil_r in Hr. subst t. now apply lang_plus_digit.
  - intros [Hne Hd]. destruct t as [|c ds]; [contradiction|].
    cbn [forallb] in Hd. apply andb_true_iff in Hd as [Hc Hd].
    unfold plus. rewrite rmatch_Seq. unfold digit at 1.
    rewrite rmatch_Chr. cbn [rest]. rewrite Hc, rmatch_Star.
    destruct (starLoop_digits
                (fun st => if isEmpty (rest st) then Some st else None)
                [] ds (S (length (rest (step c ds (MState 0 None (c :: ds) [])))))
                (step c ds (MState 0 None (c :: ds) [])))
      as (st' & Hr & _ & _ & Hl).
    + exact Hd.
    + cbn [step rest]. lia.
    + cbn [step rest]. now rewrite app_nil_r.
    + reflexivity.
    + intros st' Hr. now rewrite Hr.
    + rewrite Hl, Hr. reflexivity.
Qed.

Lemma substring_middle (x w t : list ascii) :
  substring (length x) (length x + length w) (x ++ w ++ t) = w.
Proof.
  unfold substring. replace (length x + length w - length x) with (length w)
    by lia.
  induction x as [|c x IH]; cbn [length app];
    [rewrite skipn_O | rewrite skipn_cons; exact IH].
  clear. induction w as [|c w IH]; cbn [length app];
    [apply firstn_O | now rewrite firstn_cons, IH].
Qed.

(** A match of the path expression captured a non-empty run of digits. *)
Lemma reBusinessId_sound (p : nat) (pv : option ascii) (l : list ascii)
  (res : mstate) :
  rmatch Page.reBusinessId (MState p pv l []) Some = Some res ->
  exists a w t,
    l = a ++ w ++ t
    /\ lookupCap 1 (caps res) = Some (p + length a, p + length a + length w)
    /\ w <> [] /\ forallb isDigit w = true.
Proof.
  unfold Page.reBusinessId. cbn [seqs]. rewrite rmatch_Seq. intros H.
  apply rmatch_sound in H as (a & st1 & _ & Hr1 & Hp1 & H).
  cbn [rest pos] in Hr1, Hp1.
  rewrite rmatch_Seq, rmatch_Group in H.
  apply rmatch_sound in H as (w & st2 & Hw & Hr2 & Hp2 & H).
  unfold lit in H. rewrite rmatch_Chr in H. cbn [capture rest] in H.
  destruct (rest st2) as [|c t] eqn:E; [discriminate|].
  destruct (Ascii.eqb c "/"); [|discriminate]. injection H as <-.
  apply lang_plus_digit in Hw as [Hne Hd].
  exists a, w, (c :: t). cbn [step caps lookupCap Nat.eqb].
  repeat split; try assumption.
  - now rewrite Hr1, Hr2.
  - cbn [capture caps lookupCap Nat.eqb]. now rewrite Hp2, Hp1.
Qed.

Lemma search_cons_fail (r : regex) (p : nat) (pv : option ascii) (c : ascii)
  (l : list ascii) :
  rmatch r (MState p pv (c :: l) []) Some = None ->
  search r p pv (c :: l) = search r (S p) (Some c) l.
Proof. intros H. cbn [search]. now rewrite H. Qed.

Lemma search_hit (r : regex) (p : nat) (pv : option ascii) (l : list ascii)
  (st : mstate) :
  rmatch r (MState p pv l []) Some = Some st ->
  search r p pv l = Some (RMatched p st).
Proof. intros H. destruct l; cbn [search]; now rewrite H. Qed.

Lemma reBusinessId_head (p : nat) (pv : option ascii) (c : ascii)
  (l : list ascii) :
  Ascii.eqb c "/" = false ->
  rmatch Page.reBusinessId (MState p pv (c :: l) []) Some = None.
Proof.
  intros H. unfold Page.reBusinessId, lits.
  cbn [seqs chars list_ascii_of_string litsOf].
  lit_step. now rewrite H.
Qed.

Lemma reBusinessId_head2 (p : nat) (pv : option ascii) (c : ascii)
  (l : list ascii) :
  Ascii.eqb c "s" = false ->
  rmatch Page.reBusinessId (MState p pv ("/"%char :: c :: l) []) Some = None.
Proof.
  intros H. unfold Page.reBusinessId, lits.
  cbn [seqs chars list_ascii_of_string litsOf].
  lit_step. lit_step. now rewrite H.
Qed.

Lemma digit_not (c0 c : ascii) :
  isDigit c0 = false -> isDigit c = true -> Ascii.eqb c c0 = false.
Proof.
  intros H0 Hc. destruct (Ascii.eqb_spec c c0) as [->|_]; [congruence|].
  reflexivity.
Qed.

Lemma digits_without (c0 : ascii) (d : list ascii) :
  isDigit c0 = false -> forallb isDigit d = true ->
  existsb (fun c => Ascii.eqb c c0) d = false.
Proof.
  intros H0. induction d as [|c d IH]; [reflexivity|]. cbn [forallb existsb].
  intros H. apply andb_true_iff in H as [Hc Hd].
  now rewrite (digit_not c0 c H0 Hc), IH.
Qed.

Lemma digits_only (d : list ascii) :
  forallb isDigit d = true ->
  existsb (fun c => negb (isDigit c)) d = false.
Proof.
  induction d as [|c d IH]; [reflexivity|]. cbn [forallb existsb].
  intros H. apply andb_true_iff in H as [Hc Hd]. now rewrite Hc, IH.
Qed.

(** The path expression at [/s/] followed by digits and a slash. *)
Lemma reBusinessId_match (p : nat) (pv : option ascii) (c : ascii)
  (ds t : list ascii) :
  isDigit c = true -> forallb isDigit ds = true ->
  exists res,
    rmatch Page.reBusinessId
           (MState p pv ("/"%char :: "s"%char :: "/"%char
                           :: (c :: ds) ++ "/"%char :: t) []) Some
    = Some res
    /\ lookupCap 1 (caps res) = Some (p + 3, p + 3 + length (c :: ds)).
Proof.
  intros Hc Hds. unfold Page.reBusinessId, lits.
  cbn [seqs chars list_ascii_of_string litsOf].
  lit_step. lit_step. lit_step. rewrite ?rmatch_Seq.
  rewrite rmatch_Group. unfold plus. rewrite rmatch_Seq. unfold digit at 1.
  rewrite rmatch_Chr. cbn [step rest pos caps app]. rewrite Hc, rmatch_Star.
  cbn [step rest pos caps].
  match goal with
  | |- context [starLoop true digit ?k ?fuel ?st] =>
      destruct (starLoop_digits k ("/"%char :: t) ds fuel st)
        as (st' & Hr & Hp & Hcaps & Hl)
  end.
  - exact Hds.
  - rewrite length_app. cbn [length]. lia.
  - reflexivity.
  - reflexivity.
  - intros st' Hr. unfold lit. rewrite rmatch_Chr. cbn [capture rest].
    rewrite Hr, Ascii.eqb_refl. discriminate.
  - rewrite Hl. unfold lit. rewrite rmatch_Chr. cbn [capture rest].
    rewrite Hr, Ascii.eqb_refl.
    eexists. split; [reflexivity|].
    cbn [step capture caps pos lookupCap Nat.eqb]. cbn [step pos] in Hp.
    rewrite Hp. cbn [length]. f_equal. f_equal; lia.
Qed.

(** The path expression at [/s/] followed by digits up to the end. *)
Lemma reBusinessId_no_slash (p : nat) (pv : option ascii) (d : list ascii) :
  forallb isDigit d = true ->
  rmatch Page.reBusinessId
         (MState p pv ("/"%char :: "s"%char :: "/"%char :: d) []) Some
  = None.
Proof.
  intros Hd. unfold Page.reBusinessId, lits.
  cbn [seqs chars list_ascii_of_string litsOf].
  lit_step. lit_step. lit_step. rewrite ?rmatch_Seq.
  apply (rmatch_fails (fun c => negb (isDigit c))).
  - cbn [rest]. now apply digits_only.
  - intros st' Hst'. unfold lit. rewrite rmatch_Chr.
    destruct (rest st') as [|c l]; [reflexivity|].
    cbn [existsb] in Hst'. apply orb_false_iff in Hst' as [Hc _].
    apply negb_false_iff in Hc.
    now rewrite (digit_not "/" c eq_refl Hc).
Qed.

Lemma startsWith_app (n l1 l2 : list ascii) :
  startsWith n l1 = true -> startsWith n (l1 ++ l2) = true.
Proof.
  revert l1. induction n as [|c n IH]; intros [|d l1]; cbn; auto;
    try discriminate.
  intros H. apply andb_true_iff in H as [-> H]. now apply IH.
Qed.

Lemma includesChars_app (n l1 l2 : list ascii) :
  includesChars n l1 = true -> includesChars n (l1 ++ l2) = true.
Proof.
  induction l1 as [|d l1 IH]; cbn [includesChars app].
  - rewrite orb_false_r. intros H. destruct n; [|discriminate H].
    destruct l2; reflexivity.
  - intros H. apply orb_true_iff in H as [H|H].
    + change (d :: l1 ++ l2) with ((d :: l1) ++ l2).
      now rewrite (startsWith_app n (d :: l1) l2 H).
    + rewrite (IH H). apply orb_true_r.
Qed.

Lemma trim_head (c : ascii) (l : list ascii) :
  isSpace c = false -> exists t, trim (c :: l) = c :: t.
Proof.
  intros H. unfold trim. cbn [trimStart]. rewrite H. cbn [trimEnd].
  rewrite H. destruct (trimEnd l); eauto.
Qed.

(** The part of [handleUrlSubmit] for an input that begins with a character
    that is neither white space nor a digit and holds [yext.com] in its
    first part. *)
Lemma handleUrlSubmit_url (c : ascii) (l1 : list ascii) (s2 : string) :
  isSpace c = false -> isDigit c = false ->
  includesChars (chars "yext.com") (c :: l1) = true ->
  Page.handleUrlSubmit (str (c :: l1) +:+ s2)
  = match search Page.reBusinessId 0 None (c :: l1 ++ chars s2) with
    | None =>
        Page.ShowError
          "Could not extract business ID from URL. Please ensure the URL follows the pattern: https://www.yext.com/s/{businessId}/... or just enter the business ID directly"
    | Some m => Page.UseBusinessId (str (group 1 (c :: l1 ++ chars s2) m))
    end.
Proof.
  intros Hs Hd Hin. unfold Page.handleUrlSubmit. cbv zeta.
  rewrite chars_append, chars_str. cbn [app].
  destruct (trim_head c (l1 ++ chars s2) Hs) as (t & ->). cbn [isEmpty].
  destruct (Page.testAnchored (plus digit) (c :: t)) eqn:E.
  { apply testAnchored_digits in E as [_ E]. cbn [forallb] in E.
    now rewrite Hd in E. }
  unfold includes. rewrite chars_append, chars_str.
  now rewrite (includesChars_app _ (c :: l1) (chars s2) Hin).
Qed.

End PageInput.

(** X21. Whatever is typed into the URL field, a business id that
    [handleUrlSubmit] accepts is a non-empty string of digits; with a key
    that the API key form lets through, the request then passes both
    checks of the entities route and goes on to fetch the pages. *)
Theorem handleUrlSubmit_id_digits (url businessId : string)
  (Hurl : Page.handleUrlSubmit url = Page.UseBusinessId businessId) :
  businessId <> ""
  /\ forallb isDigit (chars businessId) = true
  /\ forall fetch input apiKey,
       Page.handleSubmit input = Some apiKey ->
       Route.POST fetch (Page.requestBody businessId apiKey)
       = match Route.fetchPages fetch 200 1 [] with
         | inl response => response
         | inr (allEntities, page) =>
             Route.Success (Route.deduplicate allEntities)
                           (length (Route.deduplicate allEntities)) (page - 1)
         end.
Proof.
  assert (Hid : businessId <> "" /\ forallb isDigit (chars businessId) = true).
  { unfold Page.handleUrlSubmit in Hurl. cbv zeta in Hurl.
    destruct (isEmpty (trim (chars url))); [discriminate|].
    destruct (Page.testAnchored _ _) eqn:E.
    - injection Hurl as <-. apply testAnchored_digits in E as [Hne Hd].
      rewrite chars_str. split; [now rewrite str_nil | exact Hd].
    - destruct (negb _); [discriminate|].
      destruct (search _ _ _ _) as [m|] eqn:Es; [|discriminate].
      injection Hurl as <-.
      apply search_sound in Es as (pre & l' & pv' & Htext & Hi & Hm).
      apply reBusinessId_sound in Hm as (a & w & t & -> & Hcap & Hne & Hd).
      unfold group. rewrite Hcap, Htext, Hi. cbn [Nat.add].
      rewrite <- length_app, (app_assoc pre a), substring_middle, chars_str.
      split; [now rewrite str_nil | exact Hd]. }
  destruct Hid as [Hne Hd]. split; [exact Hne|]. split; [exact Hd|].
  intros fetch input apiKey Hkey. unfold Page.handleSubmit in Hkey.
  cbv zeta in Hkey. destruct (trim (chars input)) as [|c t]; [discriminate|].
  injection Hkey as <-. unfold Route.POST, Page.requestBody.
  destruct businessId as [|b bs]; [contradiction|]. reflexivity.
Qed.

Lemma handleUrlSubmit_id_digits_witness :
  "4042106" <> ""
  /\ forallb isDigit (chars "4042106") = true
  /\ forall fetch input apiKey,
       Page.handleSubmit input = Some apiKey ->
       Route.POST fetch (Page.requestBody "4042106" apiKey)
       = match Route.fetchPages fetch 200 1 [] with
         | inl response => response
         | inr (allEntities, page) =>
             Route.Success (Route.deduplicate allEntities)
                           (length (Route.deduplicate allEntities)) (page - 1)
         end.
Proof.
  apply (handleUrlSubmit_id_digits
           "https://www.yext.com/s/4042106/search2/experiences?b=4042106").
  vm_compute. reflexivity.
Defined.

(** X22. [handleUrlSubmit] accepts a non-empty string of digits as it is,
    also with white space around it, and it extracts the digits from a URL
    of the form [https://www.yext.com/s/<digits>/<anything>]. *)
Theorem handleUrlSubmit_accepts (digits rest : string)
  (Hne : digits <> "")
  (Hdigits : forallb isDigit (chars digits) = true) :
  (forall url, trim (chars url) = chars digits ->
               Page.handleUrlSubmit url = Page.UseBusinessId digits)
  /\ Page.handleUrlSubmit
       ("https://www.yext.com/s/" +:+ digits +:+ "/" +:+ rest)
     = Page.UseBusinessId digits.
Proof.
  assert (Hstr : str (chars digits) = digits).
  { unfold str, chars. apply string_of_list_ascii_of_string. }
  split.
  - intros url Ht. unfold Page.handleUrlSubmit. cbv zeta. rewrite Ht.
    destruct (chars digits) as [|c ds] eqn:E.
    { exfalso. apply Hne. now rewrite <- Hstr. }
    cbn [isEmpty].
    replace (Page.testAnchored (plus digit) (c :: ds)) with true.
    + now rewrite Hstr.
    + symmetry. apply testAnchored_digits. split; [discriminate|].
      exact Hdigits.
  - change "https://www.yext.com/s/" with (str (chars "https://www.yext.com/s/")).
    cbn [chars list_ascii_of_string].
    rewrite handleUrlSubmit_url by reflexivity.
    rewrite !chars_append. cbn [chars list_ascii_of_string app].
    fold (chars digits). fold (chars rest).
    destruct (chars digits) as [|c ds] eqn:E.
    { exfalso. apply Hne. now rewrite <- Hstr. }
    cbn [forallb] in Hdigits. apply andb_true_iff in Hdigits as [Hc Hds].
    do 20 (rewrite search_cons_fail
             by first [now apply reBusinessId_head
                      | now apply reBusinessId_head2]).
    destruct (reBusinessId_match 20 (Some "m"%char) c ds (chars rest) Hc Hds)
      as (res & Hm & Hcap).
    rewrite (search_hit _ _ _ _ res) by exact Hm.
    unfold group. cbn [mafter]. rewrite Hcap.
    change (20 + 3) with (length (chars "https://www.yext.com/s/")).
    match goal with
    | |- context [substring _ _ ?text] =>
        change text
          with (chars "https://www.yext.com/s/"
                  ++ (c :: ds) ++ "/"%char :: chars rest)
    end.
    now rewrite substring_middle, Hstr.
Qed.

Lemma handleUrlSubmit_accepts_witness :
  (forall url, trim (chars url) = chars "4042106" ->
               Page.handleUrlSubmit url = Page.UseBusinessId "4042106")
  /\ Page.handleUrlSubmit
       ("https://www.yext.com/s/" +:+ "4042106" +:+ "/"
          +:+ "search2/experiences?b=4042106")
     = Page.UseBusinessId "4042106".
Proof.
  apply (handleUrlSubmit_accepts "4042106" "search2/experiences?b=4042106").
  - discriminate.
  - vm_compute. reflexivity.
Defined.

(** X23. A URL that ends right after the digits, without the slash that
    the path expression asks for, is refused: this is the form of the
    example shown as the placeholder of the input field. *)
Theorem handleUrlSubmit_needs_slash (digits : string)
  (Hdigits : forallb isDigit (chars digits) = true) :
  Page.handleUrlSubmit ("https://www.yext.com/s/" +:+ digits)
  = Page.ShowError
      "Could not extract business ID from URL. Please ensure the URL follows the pattern: https://www.yext.com/s/{businessId}/... or just enter the business ID directly".
Proof.
  change "https://www.yext.com/s/" with (str (chars "https://www.yext.com/s/")).
  cbn [chars list_ascii_of_string].
  rewrite handleUrlSubmit_url by reflexivity.
  cbn [app]. fold (chars digits).
  do 20 (rewrite search_cons_fail
           by first [now apply reBusinessId_head
                    | now apply reBusinessId_head2]).
  rewrite search_cons_fail by now apply reBusinessId_no_slash.
  rewrite search_cons_fail by now apply reBusinessId_head.
  rewrite (search_consumes (fun c => Ascii.eqb c "s")); [reflexivity| |].
  - vm_compute. reflexivity.
  - cbn [existsb]. cbn [Ascii.eqb Bool.eqb andb orb].
    now apply digits_without.
Qed.

Lemma handleUrlSubmit_needs_slash_witness :
  Page.handleUrlSubmit ("https://www.yext.com/s/" +:+ "4042106")
  = Page.ShowError
      "Could not extract business ID from URL. Please ensure the URL follows the pattern: https://www.yext.com/s/{businessId}/... or just enter the business ID directly".
Proof.
  apply (handleUrlSubmit_needs_slash "4042106"). vm_compute. reflexivity.
Defined.


(** ** The facts of a normalised text *)

Section Facts.

Lemma lang_consumes (q : ascii -> bool) (r : regex) (w : list ascii) :
  lang r w -> consumes q r = true -> existsb q w = true.
Proof.
  induction 1 as [|p c Hc| |r1 r2 w1 w2 _ IH1 _ IH2|r1 r2 w _ IH|r1 r2 w _ IH
                  |g r|g r w1 w2 _ _ _ _|n r w _ IH];
    cbn [consumes]; try discriminate.
  - intros H. rewrite forallb_forall in H. specialize (H c (in_allAscii c)).
    rewrite Hc in H. cbn [existsb implb] in *. now rewrite H.
  - intros H. rewrite existsb_app. apply orb_true_iff in H as [H|H];
      [now rewrite IH1 | rewrite IH2 by exact H; apply orb_true_r].
  - intros H. apply andb_true_iff in H as [H _]. now apply IH.
  - intros H. apply andb_true_iff in H as [_ H]. now apply IH.
  - exact IH.
Qed.

(** Every match that [matchAll] lists is a match of the expression at the
    index it reports. *)
Lemma matchAllFrom_sound (r : regex) (text : list ascii) (fuel p : nat)
  (pv : option ascii) (l pre0 : list ascii) (m : rmatched) :
  text = pre0 ++ l -> p = length pre0 ->
  In m (matchAllFrom r fuel p pv l) ->
  exists pre l' pv',
    text = pre ++ l' /\ mindex m = length pre
    /\ rmatch r (MState (mindex m) pv' l' []) Some = Some (mafter m).
Proof.
  revert p pv l pre0. induction fuel as [|fuel IH]; intros p pv l pre0 Ht Hp;
    [intros []|].
  cbn [matchAllFrom]. destruct (search r p pv l) as [m0|] eqn:Es; [|intros []].
  pose proof Es as Hs.
  apply search_sound in Hs as (pre & l' & pv' & Hl & Hi & Hm).
  assert (Hhere : exists pre1 l1 pv1,
             text = pre1 ++ l1 /\ mindex m0 = length pre1
             /\ rmatch r (MState (mindex m0) pv1 l1 []) Some = Some (mafter m0)).
  { exists (pre0 ++ pre), l', pv'. rewrite length_app, <- app_assoc.
    split; [now rewrite Ht, Hl|]. split; [lia | exact Hm]. }
  pose proof Hm as Hw.
  apply rmatch_sound in Hw as (w & st' & _ & Hr & Hpos & Hst).
  injection Hst as ->. cbn [rest pos] in Hr, Hpos.
  assert (Hinv : text = (pre0 ++ pre ++ w) ++ rest (mafter m0)
                 /\ pos (mafter m0) = length (pre0 ++ pre ++ w)).
  { split; [rewrite Ht, Hl, Hr, <- !app_assoc; reflexivity|].
    rewrite !length_app. lia. }
  destruct Hinv as [Htext Hlen].
  destruct (pos (mafter m0) =? mindex m0)%nat.
  - destruct (rest (mafter m0)) as [|c l''] eqn:Er.
    + intros [<-|[]]. exact Hhere.
    + intros [<-|Hin]; [exact Hhere|].
      apply (IH _ _ _ ((pre0 ++ pre ++ w) ++ [c])) in Hin; [exact Hin| |].
      * now rewrite <- app_assoc.
      * rewrite length_app. cbn [length]. lia.
  - intros [<-|Hin]; [exact Hhere|].
    now apply (IH _ _ _ (pre0 ++ pre ++ w)) in Hin.
Qed.

Lemma matchAll_sound (r : regex) (text : list ascii) (m : rmatched) :
  In m (matchAll r text) ->
  exists pre l' pv',
    text = pre ++ l' /\ mindex m = length pre
    /\ rmatch r (MState (mindex m) pv' l' []) Some = Some (mafter m).
Proof. now apply (matchAllFrom_sound r text _ 0 None text []). Qed.

Lemma lang_times4_digit (w : list ascii) :
  lang (times 4 digit) w -> length w = 4 /\ forallb isDigit w = true.
Proof.
  cbn [times]. intros H.
  inversion H as [| | |? ? w1 x1 H1 Hx1| | | | |]; subst.
  inversion Hx1 as [| | |? ? w2 x2 H2 Hx2| | | | |]; subst.
  inversion Hx2 as [| | |? ? w3 w4 H3 H4| | | | |]; subst.
  inversion H1 as [|? c1 Hc1| | | | | | |]; subst.
  inversion H2 as [|? c2 Hc2| | | | | | |]; subst.
  inversion H3 as [|? c3 Hc3| | | | | | |]; subst.
  inversion H4 as [|? c4 Hc4| | | | | | |]; subst.
  cbn [app length forallb]. now rewrite Hc1, Hc2, Hc3, Hc4.
Qed.

Lemma normal_without (c0 : ascii) (w : list ascii) :
  isNormalOutput c0 = false -> forallb isNormalOutput w = true ->
  existsb (fun c => Ascii.eqb c c0) w = false.
Proof.
  intros H0. induction w as [|c w IH]; [reflexivity|]. cbn [forallb existsb].
  intros H. apply andb_true_iff in H as [Hc Hw]. rewrite (IH Hw), orb_false_r.
  destruct (Ascii.eqb_spec c c0) as [->|_]; [congruence | reflexivity].
Qed.

(** A match of an expression that is one group: the group is the matched
    word, a part of the text. *)
Lemma group1_top (body : regex) (t : list ascii) (m : rmatched) :
  In m (matchAll (Group 1 body) t) ->
  exists pre post,
    t = pre ++ group 1 t m ++ post /\ lang body (group 1 t m).
Proof.
  intros Hm. apply matchAll_sound in Hm as (pre & l' & pv' & -> & Hi & Hm).
  rewrite rmatch_Group in Hm.
  apply rmatch_sound in Hm as (w & st' & Hw & Hr & Hp & Hres).
  cbn [rest pos] in Hr, Hp. injection Hres as Hres.
  unfold group. rewrite <- Hres. cbn [capture caps lookupCap Nat.eqb].
  rewrite Hp, Hi, Hr, substring_middle. now exists pre, (rest st').
Qed.

(** In a text of normal characters the date expression only finds runs of
    four digits. *)
Lemma reDate_group (t : list ascii) (m : rmatched) :
  forallb isNormalOutput t = true -> In m (matchAll reDate t) ->
  length (group 1 t m) = 4 /\ forallb isDigit (group 1 t m) = true.
Proof.
  intros Hn Hm. apply group1_top in Hm as (pre & post & Ht & Hw).
  rewrite Ht, !forallb_app in Hn.
  apply andb_true_iff in Hn as [_ Hn]. apply andb_true_iff in Hn as [Hn _].
  revert Hw Hn. generalize (group 1 t m). intros w Hw Hn.
  cbn [alts] in Hw.
  inversion Hw as [| | | |? ? ? H1|? ? ? H23| | |]; subst.
  - exfalso. apply (lang_consumes (fun c => Ascii.eqb c "/")) in H1;
      [|vm_compute; reflexivity].
    now rewrite (normal_without "/" w) in H1.
  - inversion H23 as [| | | |? ? ? H2|? ? ? H3| | |]; subst.
    + exfalso. apply (lang_consumes (fun c => Ascii.eqb c "-")) in H2;
        [|vm_compute; reflexivity].
      now rewrite (normal_without "-" w) in H2.
    + now apply lang_times4_digit.
Qed.

(** The words of the boolean expression found in a text of normal
    characters are made of normal characters. *)
Lemma reBoolean_group (t : list ascii) (m : rmatched) :
  forallb isNormalOutput t = true -> In m (matchAll reBoolean t) ->
  forallb isNormalOutput (group 1 t m) = true.
Proof.
  intros Hn Hm. apply group1_top in Hm as (pre & post & Ht & _).
  rewrite Ht, !forallb_app in Hn.
  apply andb_true_iff in Hn as [_ Hn]. now apply andb_true_iff in Hn as [Hn _].
Qed.

Lemma lowerChar_not_quote (c : ascii) :
  isNormalOutput c = true -> Ascii.eqb (lowerChar c) "'" = false.
Proof. destruct c as [[] [] [] [] [] [] [] []]; vm_compute; congruence. Qed.

Lemma lower_without_quote (w : list ascii) :
  forallb isNormalOutput w = true ->
  existsb (fun c => Ascii.eqb c "'") (toLowerCase w) = false.
Proof.
  induction w as [|c w IH]; [reflexivity|].
  cbn [forallb toLowerCase map existsb]. intros H.
  apply andb_true_iff in H as [Hc Hw].
  rewrite (lowerChar_not_quote c Hc). now apply IH.
Qed.

Lemma normalizeString_chars (s : string) :
  forallb isNormalOutput (chars (normalizeString s)) = true.
Proof.
  unfold normalizeString. rewrite chars_str.
  apply forallb_forall. intros c Hc. apply normalChar_output.
  - pose proof (normalizeChars_normal (chars s)) as H.
    rewrite List.Forall_forall in H. now apply H.
  - apply (tidy_space false (normalizeChars (chars s))); [|exact Hc].
    apply tidy_collapseSpaces.
Qed.

End Facts.

(** X24. The contradiction engine extracts its facts from normalised text,
    where no slash, hyphen or apostrophe is left: every date fact is a run of
    exactly four digits (the date formats with slashes or hyphens are never
    found), and no boolean fact has the value [doesn't exist], in whatever
    case it is written. *)
Theorem facts_of_normalised_text (text : string) (f : Fact)
  (Hf : In f (extractFacts (normalizeString text))) :
  (ftype f = FDate ->
   String.length (fvalue f) = 4 /\ forallb isDigit (chars (fvalue f)) = true)
  /\ (ftype f = FBoolean -> lowerStr (fvalue f) <> "doesn't exist").
Proof.
  unfold extractFacts in Hf. cbv zeta in Hf.
  apply in_app_or in Hf as [Hf|Hf];
    [|apply in_app_or in Hf as [Hf|Hf];
      [|apply in_app_or in Hf as [Hf|Hf]]];
    apply in_map_iff in Hf as (m & <- & Hm); cbn [ftype fvalue];
    split; intros Ht; try discriminate Ht.
  - apply reDate_group in Hm as [Hl Hd]; [|apply normalizeString_chars].
    now rewrite <- length_chars, chars_str.
  - apply reBoolean_group in Hm; [|apply normalizeString_chars].
    intros Heq. apply (f_equal chars) in Heq.
    unfold lowerStr in Heq. rewrite !chars_str in Heq.
    apply lower_without_quote in Hm. rewrite Heq in Hm. discriminate Hm.
Qed.

Lemma facts_of_normalised_text_witness :
  (FDate = FDate ->
   String.length "1205" = 4 /\ forallb isDigit (chars "1205") = true)
  /\ (FDate = FBoolean -> lowerStr "1205" <> "doesn't exist").
Proof.
  apply (facts_of_normalised_text "Opened 12/05/2024"
           (mkFact FDate "1205" "opened 12052024")).
  vm_compute. left. reflexivity.
Defined.

(** ** The headings of the results *)

Section Headings.

Lemma detail_types (entities : list YextEntity) (g : ConflictGroup)
  (d : ConflictDetail) :
  In g (detectConflicts entities) -> In d (Group.conflictDetails g) ->
  In (Detail.conflictType d)
     ("faq_answer_conflict" :: "phone_mismatch" :: "url_mismatch"
        :: contentConflictTypes).
Proof.
  intros Hg Hd. apply in_app_or in Hg as [Hg|Hg].
  - apply in_faqConflicts in Hg as (question & faqs & Hg).
    apply in_faqGroupConflicts in Hg as (d' & Ht & _ & ->).
    destruct Hd as [<-|[]]. rewrite Ht. now left.
  - apply in_pairwiseConflicts in Hg as (entityType & e1 & e2 & Hg).
    apply in_pairConflicts in Hg as [_ ->]. cbn [Group.conflictDetails] in Hd.
    unfold pairDetails in Hd. apply in_app_or in Hd as [Hd|Hd].
    + destruct (contentDetails_cases entityType e1 e2)
        as [H|(d0 & H & Hc & _)]; rewrite H in Hd; [destruct Hd|].
      destruct Hd as [<-|[]]. unfold isContentDetail in Hc.
      apply existsb_exists in Hc as (t & Ht & Heq).
      apply String.eqb_eq in Heq. rewrite Heq. now do 3 right.
    + apply in_app_or in Hd as [Hd|Hd].
      * destruct (phoneDetails_cases e1 e2) as [H|(d0 & H & Ht & _)];
          rewrite H in Hd; [destruct Hd|]. destruct Hd as [<-|[]].
        rewrite Ht. right. now left.
      * destruct (urlDetails_cases e1 e2) as [H|(d0 & H & Ht & _)];
          rewrite H in Hd; [destruct Hd|]. destruct Hd as [<-|[]].
        rewrite Ht. do 2 right. now left.
Qed.

End Headings.

(** X25. The results component has a heading for three of the conflict
    types that [detectConflicts] reports: a detail gets none exactly when
    its type is [url_mismatch] or one of the six content types that name a
    field; such details occur.  For the earlier variant of the detector
    only [url_mismatch] is without a heading. *)
Theorem headings_of_reported_types :
  (forall entities g d,
      In g (detectConflicts entities) -> In d (Group.conflictDetails g) ->
      (Results.getConflictTypeLabel (Detail.conflictType d) = None
       <-> In (Detail.conflictType d)
              ["url_mismatch"; "body_content_contradiction";
               "content_contradiction"; "description_contradiction";
               "body_content_conflict"; "content_conflict";
               "description_conflict"]))
  /\ (forall entities g d,
        In g (Legacy.detectConflicts entities) ->
        In d (Group.conflictDetails g) ->
        (Results.getConflictTypeLabel (Detail.conflictType d) = None
         <-> Detail.conflictType d = "url_mismatch"))
  /\ (exists g d,
        In g (detectConflicts [alphaGrill; zetaGrill])
        /\ In d (Group.conflictDetails g)
        /\ Results.getConflictTypeLabel (Detail.conflictType d) = None).
Proof.
  split; [|split].
  - intros entities g d Hg Hd.
    pose proof (detail_types entities g d Hg Hd) as Ht.
    unfold contentConflictTypes in Ht. cbn [In] in Ht.
    destruct Ht as [<-|[<-|[<-|[<-|[<-|[<-|[<-|[<-|[<-|[<-|[]]]]]]]]]]];
      cbn [Results.getConflictTypeLabel In]; split; intros H;
      try discriminate H; try reflexivity; try tauto;
      repeat (destruct H as [H|H]; [discriminate H|]); destruct H.
  - intros entities g d Hg Hd. apply in_app_or in Hg as [Hg|Hg].
    + unfold Legacy.faqConflicts in Hg. cbv zeta in Hg.
      destruct (0 <? _)%nat in Hg; [|destruct Hg].
      apply in_flat_map in Hg as [[question faqs] [_ Hg]].
      apply in_faqGroupConflicts in Hg as (d' & Ht & _ & ->).
      destruct Hd as [<-|[]]. rewrite Ht. split; discriminate.
    + apply in_legacy_pairwiseConflicts in Hg as (entityType & e1 & e2 & Hg).
      apply in_legacy_pairConflicts in Hg as [_ ->].
      cbn [Group.conflictDetails] in Hd.
      apply legacy_pairDetails_medium in Hd as [_ Ht]. cbn [In] in Ht.
      destruct Ht as [<-|[<-|[<-|[]]]]; split; try discriminate; reflexivity.
  - vm_compute. eexists. eexists. split; [left; reflexivity|].
    split; [right; left; reflexivity | reflexivity].
Qed.


(** ** Failures of the entities route *)

Section RouteFailures.

Variable fetch : nat -> Route.FetchResult.

Lemma notOkResponse_status (status : nat) (errorText : string)
  (s : nat) (e : string) (d : option string) :
  Route.notOkResponse status errorText = Route.Failure s e d ->
  s = status /\ d = Some errorText.
Proof.
  unfold Route.notOkResponse.
  destruct (Nat.eqb_spec status 401) as [->|_]; [now intros [= <- _ <-]|].
  destruct (Nat.eqb_spec status 403) as [->|_]; [now intros [= <- _ <-]|].
  destruct (Nat.eqb_spec status 404) as [->|_]; now intros [= <- _ <-].
Qed.

(** The loop ends with a response only at a page that is thrown or not ok,
    after pages that were ok and full. *)
Lemma fetchPages_inl_page (fuel page : nat) (allEntities : list YextEntity)
  (r : Route.Response) :
  page <= 200 ->
  Route.fetchPages fetch fuel page allEntities = inl r ->
  exists last,
    page <= last <= 200
    /\ (forall i, page <= i < last ->
                  isOk (fetch ((i - 1) * Route.limit)) = true
                  /\ length (pageEntities (fetch ((i - 1) * Route.limit)))
                     = Route.limit)
    /\ ((exists message,
            fetch ((last - 1) * Route.limit) = Route.Thrown message
            /\ r = Route.Failure 500
                     "Network error occurred while connecting to Yext API"
                     (Some message))
        \/ (exists status errorText,
               fetch ((last - 1) * Route.limit)
               = Route.NotOk status errorText
               /\ r = Route.notOkResponse status errorText)).
Proof.
  revert page allEntities.
  induction fuel as [|fuel IH]; intros page allEntities Hp; [discriminate|].
  cbn [Route.fetchPages].
  destruct (fetch ((page - 1) * Route.limit)) as [m|s t|es c] eqn:E.
  - intros [= <-]. exists page. split; [lia|]. split; [intros i Hi; lia|].
    left. now exists m.
  - intros [= <-]. exists page. split; [lia|]. split; [intros i Hi; lia|].
    right. now exists s, t.
  - cbv zeta. destruct (Nat.ltb_spec 200 (page + 1)) as [_|Hle];
      [discriminate|].
    destruct (Nat.eqb_spec (length es) Route.limit) as [Hfull|_];
      cbn [andb]; [|discriminate].
    destruct (_ <? _)%nat; [|discriminate].
    intros H. apply IH in H as (last & Hl & Hok & Hr); [|lia].
    exists last. split; [lia|]. split; [|exact Hr].
    intros i Hi. destruct (Nat.eq_dec i page) as [->|Hne].
    + rewrite E. now split.
    + apply Hok. lia.
Qed.

End RouteFailures.

Section RouteIdentifiers.

Lemma entityIdOf_key (e : YextEntity) :
  entityIdOf e = orLit (Route.entityKey e) "unknown".
Proof. reflexivity. Qed.

Lemma orLit_known (k : option string) (s : string) :
  orLit k "unknown" = s -> s <> "unknown" -> k = Some s.
Proof.
  unfold orLit, truthy. destruct k as [[|c k]|]; intros H Hne;
    try congruence.
Qed.

Lemma NoDup_map_eq {A B} (f : A -> B) (l : list A) (a b : A) :
  List.NoDup (map f l) -> In a l -> In b l -> f a = f b -> a = b.
Proof.
  induction l as [|x l IH]; intros Hnd Ha Hb Hf; [destruct Ha|].
  cbn [map] in Hnd. apply NoDup_cons_iff in Hnd as [Hx Hnd].
  destruct Ha as [->|Ha], Hb as [->|Hb]; auto.
  - exfalso. apply Hx. rewrite Hf. now apply in_map.
  - exfalso. apply Hx. rewrite <- Hf. now apply in_map.
Qed.

End RouteIdentifiers.

(** X26. When the entities route fails on a request that names a business
    id and a key, some page between the first and the 200th was thrown or not
    ok, after pages that were all ok and full; the status of a page that is
    not ok is passed on as it is, with the text of the answer as details,
    and a thrown page gives 500.  No partial list is returned. *)
Theorem post_failure (fetch : nat -> Route.FetchResult)
  (businessId apiKey : option string)
  (status : nat) (error : string) (details : option string)
  (Hid : isTruthy businessId = true) (Hkey : isTruthy apiKey = true)
  (Hpost : Route.POST fetch (Some (businessId, apiKey))
           = Route.Failure status error details) :
  exists page,
    1 <= page <= 200
    /\ (forall i, 1 <= i < page ->
                  isOk (fetch ((i - 1) * Route.limit)) = true
                  /\ length (pageEntities (fetch ((i - 1) * Route.limit)))
                     = Route.limit)
    /\ ((exists message,
            fetch ((page - 1) * Route.limit) = Route.Thrown message
            /\ status = 500 /\ details = Some message)
        \/ (exists errorText,
               fetch ((page - 1) * Route.limit)
               = Route.NotOk status errorText
               /\ details = Some errorText)).
Proof.
  unfold Route.POST in Hpost. rewrite Hid, Hkey in Hpost. cbn [negb] in Hpost.
  destruct (Route.fetchPages fetch 200 1 []) as [r|[all page]] eqn:E;
    [|discriminate].
  subst r. apply fetchPages_inl_page in E as (last & Hl & Hok & Hr); [|lia].
  exists last. split; [exact Hl|]. split; [exact Hok|].
  destruct Hr as [(m & Hm & [= -> _ ->])|(s & t & Hs & Hr)].
  - left. now exists m.
  - right. symmetry in Hr. apply notOkResponse_status in Hr as [-> ->].
    now exists t.
Qed.

Lemma post_failure_witness :
  exists page,
    1 <= page <= 200
    /\ (forall i, 1 <= i < page ->
                  isOk (refused ((i - 1) * Route.limit)) = true
                  /\ length (pageEntities (refused ((i - 1) * Route.limit)))
                     = Route.limit)
    /\ ((exists message,
            refused ((page - 1) * Route.limit) = Route.Thrown message
            /\ 401 = 500 /\ Some "denied" = Some message)
        \/ (exists errorText,
               refused ((page - 1) * Route.limit)
               = Route.NotOk 401 errorText
               /\ Some "denied" = Some errorText)).
Proof.
  apply (post_failure refused (Some "4042106") (Some "key") 401
           "Invalid API key. Please ensure you're using a valid API key from the API Credentials tab with 'Entities (Management API)' permissions."
           (Some "denied")); reflexivity.
Defined.

(** X27. After the deduplication of the entities route two different
    records are shown under the same identifier by [detectConflicts] only if
    that identifier is [unknown]: records that carry an identifier are told
    apart by it. *)
Theorem deduplicated_ids_distinct (allEntities : list YextEntity)
  (e1 e2 : YextEntity)
  (H1 : In e1 (Route.deduplicate allEntities))
  (H2 : In e2 (Route.deduplicate allEntities))
  (Hid : entityIdOf e1 = entityIdOf e2)
  (Hknown : entityIdOf e1 <> "unknown") :
  e1 = e2 /\ Ref.id (refOf e1) = Route.entityKey e1.
Proof.
  rewrite deduplicate_keepFirst in H1, H2.
  pose proof (orLit_known (Route.entityKey e1) (entityIdOf e1)
                (eq_sym (entityIdOf_key e1)) Hknown) as Hk1.
  assert (Hknown2 : entityIdOf e2 <> "unknown") by congruence.
  pose proof (orLit_known (Route.entityKey e2) (entityIdOf e2)
                (eq_sym (entityIdOf_key e2)) Hknown2) as Hk2.
  split.
  - apply (NoDup_map_eq Route.entityKey (Route.keepFirst ∅ allEntities));
      [apply keepFirst_NoDup | exact H1 | exact H2 | congruence].
  - cbn [refOf Ref.id]. now rewrite Hk1.
Qed.

Lemma deduplicated_ids_distinct_witness :
  faq5pm = faq5pm /\ Ref.id (refOf faq5pm) = Route.entityKey faq5pm.
Proof.
  apply (deduplicated_ids_distinct [faq5pm; faq9pm; faq5pm] faq5pm faq5pm).
  - vm_compute. left. reflexivity.
  - vm_compute. left. reflexivity.
  - reflexivity.
  - discriminate.
Defined.
